(** * risk_model_tool: the preprocessing pipeline and the correlation filter

    A shallow embedding of [src/risk_model_tool/preprocess/preprocess.py]
    (module [Preprocess]) and of [utils/data_filter.py] (module
    [DataFilter]).

    A finite number is a canonical rational ([Qc]), so that equality of
    numbers is Leibniz equality; a Python float is such a number, an
    infinity or NaN.  Arithmetic is exact as long as the result is at most
    the largest double and overflows to an infinity beyond it; the
    rounding to 53 bits is written out where an integer column is turned
    into a float column, and left out elsewhere. *)

From Stdlib Require Import List String Ascii Bool Arith ZArith QArith Qcanon Lia.
Import ListNotations.

Open Scope nat_scope.
Open Scope string_scope.

(* ================================================================== *)
(** * Numbers *)

Definition Qcltb (x y : Qc) : bool :=
  if Qclt_le_dec x y then true else false.

Definition Qceqb (x y : Qc) : bool :=
  if Qc_eq_dec x y then true else false.

(** Integer and fraction literals. *)
Definition qz (z : Z) : Qc := Q2Qc (inject_Z z).
Definition qfrac (n : Z) (d : positive) : Qc := Q2Qc (n # d).

(* ================================================================== *)
(** * Python outcomes *)

(** The exceptions the modelled code can raise.  The text of a message is
    kept as a tag together with the variable it names. *)
Inductive message : Type :=
| NotFoundCap (var : string)        (* 'Not found cap value of "{0}"' *)
| NotFoundFloor (var : string)      (* 'Not found floor value of "{0}"' *)
| NotFoundImpute (var : string)     (* 'Not found impute value of "{0}"' *)
| NotFoundMeanStd (var : string)    (* 'Not found mean or std of "{0}"' *)
| StdEqualZero (var : string)       (* 'Standard deviation equal 0: {0}' *)
| NotFoundMaxMin (var : string)     (* 'Not found max or min of "{0}", ...' *)
| MaxEqualMin (var : string)        (* 'Max equal min: {0}' *)
| ReferenceTableMissing             (* 'Reference table missing!' *)
| MustPassConfigCheck               (* 'Must pass config check before fit!' *)
| TargetNeeded                      (* 'Target is must need when use Woe process!' *)
| WrongTypeFor (var : string)       (* 'Wrong type for:{0}' *)
| CouldNotConvert (s : string)      (* float() of a string that is no number *)
| BadOperand                        (* arithmetic or comparison on a cell that is no number *)
| FloatArgument.                    (* float() of None *)

Inductive exn : Type :=
| ValueError (m : message)
| TypeError (m : message)
| KeyError (key : string)
| IndexError
| UnboundLocalError (name : string)
| AttributeError (name : string)
| ZeroDivisionError.

Inductive result (A : Type) : Type :=
| Ok (a : A)
| Raise (e : exn).
Arguments Ok {A} a.
Arguments Raise {A} e.

Definition bind {A B : Type} (m : result A) (k : A -> result B) : result B :=
  match m with
  | Ok a => k a
  | Raise e => Raise e
  end.

Declare Scope py_scope.
Delimit Scope py_scope with py.
Notation "x <- m ;; k" := (bind m (fun x => k))
  (at level 61, m at next level, right associativity) : py_scope.
Notation "m ;;; k" := (bind m (fun _ => k))
  (at level 61, right associativity) : py_scope.
Open Scope py_scope.

(** [for x in xs: body], threading the loop state and stopping at the
    first exception. *)
Fixpoint for_each {A S : Type} (body : S -> A -> result S) (xs : list A) (s : S)
  : result S :=
  match xs with
  | [] => Ok s
  | x :: xs' => s' <- body s x ;; for_each body xs' s'
  end.

Fixpoint mapM {A B : Type} (f : A -> result B) (xs : list A) : result (list B) :=
  match xs with
  | [] => Ok []
  | x :: xs' => y <- f x ;; ys <- mapM f xs' ;; Ok (y :: ys)
  end.

(* ================================================================== *)
(** * Cells, series and data frames *)

Module Preprocess.

(** ** Python floats *)

Inductive float : Type :=
| Finite (q : Qc)
| Infinite (negative : bool)       (* [inf] and [-inf] *)
| NaN.

(** The largest double, [(2 - 2^(-52)) * 2^1023]. *)
Definition max_float : Qc := qz (2 ^ 1024 - 2 ^ 971).

(** The float an exact result becomes: an infinity when it lies beyond
    the largest double. *)
Definition overflow (x : Qc) : float :=
  if Qcltb max_float x then Infinite false
  else if Qcltb x (- max_float)%Qc then Infinite true
  else Finite x.

(** [a < b]; every comparison with NaN is false. *)
Definition float_lt (a b : float) : bool :=
  match a, b with
  | Finite x, Finite y => Qcltb x y
  | Infinite true, Finite _ => true
  | Infinite true, Infinite false => true
  | Finite _, Infinite false => true
  | _, _ => false
  end.

Definition float_add (a b : float) : float :=
  match a, b with
  | Finite x, Finite y => overflow (x + y)%Qc
  | Infinite s, Finite _ => Infinite s
  | Finite _, Infinite s => Infinite s
  | Infinite s, Infinite s' => if Bool.eqb s s' then Infinite s else NaN
  | _, _ => NaN
  end.

Definition float_sub (a b : float) : float :=
  match a, b with
  | Finite x, Finite y => overflow (x - y)%Qc
  | Infinite s, Finite _ => Infinite s
  | Finite _, Infinite s => Infinite (negb s)
  | Infinite s, Infinite s' => if Bool.eqb s s' then NaN else Infinite s
  | _, _ => NaN
  end.

Definition float_mul (a b : float) : float :=
  match a, b with
  | Finite x, Finite y => overflow (x * y)%Qc
  | Infinite s, Finite y | Finite y, Infinite s =>
      if Qceqb y 0%Qc then NaN else Infinite (xorb s (Qcltb y 0%Qc))
  | Infinite s, Infinite s' => Infinite (xorb s s')
  | _, _ => NaN
  end.

(** [a / b] as NumPy divides: a division by zero gives an infinity, or NaN
    for [0 / 0]. *)
Definition float_div (a b : float) : float :=
  match a, b with
  | Finite x, Finite y =>
      if Qceqb y 0%Qc then
        if Qceqb x 0%Qc then NaN else Infinite (Qcltb x 0%Qc)
      else overflow (x / y)%Qc
  | Finite _, Infinite _ => Finite 0%Qc
  | Infinite s, Finite y => Infinite (xorb s (Qcltb y 0%Qc))
  | _, _ => NaN
  end.

(** [min] and [max] of two floats that are not NaN. *)
Definition float_min (x y : float) : float := if float_lt y x then y else x.
Definition float_max (x y : float) : float := if float_lt x y then y else x.

(** An int64 as a float64: the nearest number with 53 significant bits,
    the one with an even last bit when two are equally near. *)
Definition float64_of_Z (z : Z) : Z :=
  let a := Z.abs z in
  let e := (Z.log2 a - 52)%Z in
  if (e <=? 0)%Z then z
  else
    let q := Z.shiftr a e in
    let r := (a - Z.shiftl q e)%Z in
    let half := Z.shiftl 1 (e - 1) in
    let q' := if (half <? r)%Z || ((half =? r)%Z && Z.odd q) then (q + 1)%Z else q in
    (Z.sgn z * Z.shiftl q' e)%Z.

(* ------------------------------------------------------------------ *)
(** ** Cells *)

(** A cell of a data frame or of the configuration table: a float (a
    bool counts as 0 or 1), a string, or [None]. *)
Inductive value : Type :=
| Flt (x : float)
| Str (s : string)
| PyNone.

Abbreviation Num q := (Flt (Finite q)).
Abbreviation Inf s := (Flt (Infinite s)).
Abbreviation NA := (Flt NaN).

(** [pd.isnull] *)
Definition isnull (v : value) : bool :=
  match v with
  | NA => true
  | PyNone => true
  | _ => false
  end.

(** The dtype of a column.  The cells of a bool column are the numbers 0
    and 1, which is what [False] and [True] are in every operation the
    components make.  Columns of time stamps are not described. *)
Inductive dtype : Type := float64 | int64 | bool_ | object.

(** The cells of a column. *)
Definition Series := list value.

(** A [DataFrame]: its columns in order, each with its name, its dtype and
    its cells. *)
Definition DataFrame := list (string * (dtype * Series)).

Definition columns (df : DataFrame) : list string := map fst df.

(** [df[var]], the cells *)
Fixpoint getitem (df : DataFrame) (var : string) : result Series :=
  match df with
  | [] => Raise (KeyError var)
  | (name, col) :: df' =>
      if String.eqb name var then Ok (snd col) else getitem df' var
  end.

(** [df.dtypes[var]], which is [df[var].dtype] *)
Fixpoint dtypes (df : DataFrame) (var : string) : result dtype :=
  match df with
  | [] => Raise (KeyError var)
  | (name, col) :: df' =>
      if String.eqb name var then Ok (fst col) else dtypes df' var
  end.

(** [df[var] = col] for a column [col] of dtype [d]: an existing column is
    replaced in place, a new one is appended. *)
Fixpoint setitem (df : DataFrame) (var : string) (d : dtype) (col : Series)
  : DataFrame :=
  match df with
  | [] => [(var, (d, col))]
  | (name, old) :: df' =>
      if String.eqb name var then (name, (d, col)) :: df'
      else (name, old) :: setitem df' var d col
  end.

(** A cell used as a number in arithmetic. *)
Definition number_of (v : value) : result float :=
  match v with
  | Flt x => Ok x
  | Str _ => Raise (TypeError BadOperand)
  | PyNone => Raise (TypeError BadOperand)
  end.

(** [series > c] and [series < c] for a float [c].  NaN compares false, and
    so does [None], which pandas treats as a null of an object column; a
    string cell is a type error. *)
Definition gt_cell (c : float) (v : value) : result bool :=
  match v with
  | Flt x => Ok (float_lt c x)
  | PyNone => Ok false
  | Str _ => Raise (TypeError BadOperand)
  end.

Definition lt_cell (c : float) (v : value) : result bool :=
  match v with
  | Flt x => Ok (float_lt x c)
  | PyNone => Ok false
  | Str _ => Raise (TypeError BadOperand)
  end.

Definition series_gt (s : Series) (c : float) : result (list bool) := mapM (gt_cell c) s.
Definition series_lt (s : Series) (c : float) : result (list bool) := mapM (lt_cell c) s.

(** [np.where(mask, c, series)] *)
Definition np_where (mask : list bool) (c : value) (s : Series) : Series :=
  map (fun bv : bool * value => if fst bv then c else snd bv) (combine mask s).

(** The cells of a column of dtype [d] as NumPy reads them where it
    combines the column with a Python float: the integers of an int64
    column become float64 numbers; the cells of an object column stay the
    objects they are. *)
Definition as_float64 (d : dtype) (v : value) : value :=
  match d, v with
  | int64, Num q =>
      if Pos.eqb (Qden q) 1 then Num (qz (float64_of_Z (Qnum q))) else v
  | _, _ => v
  end.

(** The dtype of the array the combination gives. *)
Definition float_dtype (d : dtype) : dtype :=
  match d with
  | object => object
  | _ => float64
  end.

(** [series.isnull().sum() > 0] *)
Definition has_missing (s : Series) : bool := existsb isnull s.

(** [series[~series.isnull()]] *)
Definition dropna (s : Series) : Series := filter (fun v => negb (isnull v)) s.

(** [series.fillna(v)] *)
Definition fillna (s : Series) (v : value) : Series :=
  map (fun x => if isnull x then v else x) s.

(** The dtype of [series.fillna(v)]: a string makes an object column of a
    column of numbers. *)
Definition fillna_dtype (d : dtype) (v : value) : dtype :=
  match v with
  | Str _ => object
  | _ => d
  end.

(** The floats a reduction of a series works on: NaN and [None] are
    skipped; a string cell is a type error, as in a reduction over an
    object column. *)
Fixpoint numbers (s : Series) : result (list float) :=
  match s with
  | [] => Ok []
  | Str _ :: _ => Raise (TypeError BadOperand)
  | NA :: s' => numbers s'
  | PyNone :: s' => numbers s'
  | Flt x :: s' => xs <- numbers s' ;; Ok (x :: xs)
  end.

(** The sum of floats, from left to right. *)
Definition float_sum (xs : list float) : float :=
  fold_left float_add xs (Finite 0%Qc).

(** [series.mean()]: missing values are skipped; NaN when nothing is left. *)
Definition mean (s : Series) : result value :=
  xs <- numbers s ;;
  Ok (match xs with
      | [] => NA
      | _ => Flt (float_div (float_sum xs) (Finite (qz (Z.of_nat (List.length xs)))))
      end).

(** [series.min()] and [series.max()], missing values skipped. *)
Definition series_min (s : Series) : result value :=
  xs <- numbers s ;;
  Ok (match xs with [] => NA | x :: xs' => Flt (fold_left float_min xs' x) end).

Definition series_max (s : Series) : result value :=
  xs <- numbers s ;;
  Ok (match xs with [] => NA | x :: xs' => Flt (fold_left float_max xs' x) end).

(* ------------------------------------------------------------------ *)
(** ** The configuration / reference table *)

(** One row per variable.  [Mean], [Std], [Min] and [Max] are the columns
    that [Normalize.fit] and [Scale.fit] append. *)
Record config_row : Type := mk_row {
  Var_Name : string;
  Var_Type : string;
  Ind_Model : Z;
  Ind_Cap : Z;
  Cap_Value : value;
  Ind_Floor : Z;
  Floor_Value : value;
  Missing_Impute : value;
  Ind_WOE : Z;
  WOE_Bin : value;
  Ind_Norm : Z;
  Ind_Scale : Z;
  Mean : value;
  Std : value;
  Min : value;
  Max : value
}.

(** The table: the names of the columns it really has, and its rows.  A
    field of a row whose column is not in [header] is never read: the
    access raises [KeyError] first. *)
Record Table : Type := mk_table {
  header : list string;
  rows : list config_row
}.

Definition has_column (t : Table) (name : string) : bool :=
  existsb (String.eqb name) (header t).

(** [t[name]] *)
Definition column {X : Type} (t : Table) (name : string) (proj : config_row -> X)
  : result (list X) :=
  if has_column t name then Ok (map proj (rows t)) else Raise (KeyError name).

(** [t[t['Var_Name'] == var]] *)
Definition rows_of (t : Table) (var : string) : list config_row :=
  filter (fun r => String.eqb (Var_Name r) var) (rows t).

(** [t[name][t['Var_Name'] == var].iloc[0]] *)
Definition first_where {X : Type} (t : Table) (name : string)
           (proj : config_row -> X) (var : string) : result X :=
  if has_column t name then
    if has_column t "Var_Name" then
      match rows_of t var with
      | r :: _ => Ok (proj r)
      | [] => Raise IndexError
      end
    else Raise (KeyError "Var_Name")
  else Raise (KeyError name).

(** [t[t['Var_Name'] == var][name].iloc[0]]: the rows are selected before
    the column is. *)
Definition first_of_rows {X : Type} (t : Table) (name : string)
           (proj : config_row -> X) (var : string) : result X :=
  if has_column t "Var_Name" then
    if has_column t name then
      match rows_of t var with
      | r :: _ => Ok (proj r)
      | [] => Raise IndexError
      end
    else Raise (KeyError name)
  else Raise (KeyError "Var_Name").

(** [t.loc[t['Var_Name'] == var, name] = ...]: every row of that name is
    updated by [upd].  When the table lacks the column it is created, and
    the rows of the other names get its empty cell, by [blank]. *)
Definition set_where (t : Table) (name : string)
           (upd blank : config_row -> config_row) (var : string) : result Table :=
  if has_column t "Var_Name" then
    if has_column t name then
      Ok {| header := header t;
            rows := map (fun r => if String.eqb (Var_Name r) var then upd r else r)
                        (rows t) |}
    else
      Ok {| header := (header t ++ [name])%list;
            rows := map (fun r => if String.eqb (Var_Name r) var then upd r else blank r)
                        (rows t) |}
  else Raise (KeyError "Var_Name").

Definition set_Cap_Value (v : value) (r : config_row) : config_row :=
  mk_row (Var_Name r) (Var_Type r) (Ind_Model r) (Ind_Cap r) v (Ind_Floor r)
         (Floor_Value r) (Missing_Impute r) (Ind_WOE r) (WOE_Bin r) (Ind_Norm r)
         (Ind_Scale r) (Mean r) (Std r) (Min r) (Max r).

Definition set_Floor_Value (v : value) (r : config_row) : config_row :=
  mk_row (Var_Name r) (Var_Type r) (Ind_Model r) (Ind_Cap r) (Cap_Value r) (Ind_Floor r)
         v (Missing_Impute r) (Ind_WOE r) (WOE_Bin r) (Ind_Norm r)
         (Ind_Scale r) (Mean r) (Std r) (Min r) (Max r).

Definition set_Missing_Impute (v : value) (r : config_row) : config_row :=
  mk_row (Var_Name r) (Var_Type r) (Ind_Model r) (Ind_Cap r) (Cap_Value r) (Ind_Floor r)
         (Floor_Value r) v (Ind_WOE r) (WOE_Bin r) (Ind_Norm r)
         (Ind_Scale r) (Mean r) (Std r) (Min r) (Max r).

Definition set_Ind_Model (z : Z) (r : config_row) : config_row :=
  mk_row (Var_Name r) (Var_Type r) z (Ind_Cap r) (Cap_Value r) (Ind_Floor r)
         (Floor_Value r) (Missing_Impute r) (Ind_WOE r) (WOE_Bin r) (Ind_Norm r)
         (Ind_Scale r) (Mean r) (Std r) (Min r) (Max r).

Definition set_Mean_Std (m s : value) (r : config_row) : config_row :=
  mk_row (Var_Name r) (Var_Type r) (Ind_Model r) (Ind_Cap r) (Cap_Value r) (Ind_Floor r)
         (Floor_Value r) (Missing_Impute r) (Ind_WOE r) (WOE_Bin r) (Ind_Norm r)
         (Ind_Scale r) m s (Min r) (Max r).

Definition set_Min_Max (lo hi : value) (r : config_row) : config_row :=
  mk_row (Var_Name r) (Var_Type r) (Ind_Model r) (Ind_Cap r) (Cap_Value r) (Ind_Floor r)
         (Floor_Value r) (Missing_Impute r) (Ind_WOE r) (WOE_Bin r) (Ind_Norm r)
         (Ind_Scale r) (Mean r) (Std r) lo hi.

(** [list(t['Var_Name'][(t['Ind_Model'] == 1) & (t[flag] == 1)])] *)
Definition in_model_with (t : Table) (flag : string) (proj : config_row -> Z)
  : result (list string) :=
  if has_column t "Var_Name" then
    if has_column t "Ind_Model" then
      if has_column t flag then
        Ok (map Var_Name
                (filter (fun r => Z.eqb (Ind_Model r) 1 && Z.eqb (proj r) 1) (rows t)))
      else Raise (KeyError flag)
    else Raise (KeyError "Ind_Model")
  else Raise (KeyError "Var_Name").

(* ------------------------------------------------------------------ *)
(** ** The WOE reference table *)

Record woe_row : Type := mk_woe_row {
  W_Var_Name : string;
  W_Var_Type : string;
  W_Var_Value : string;   (* the bin: an interval or a category label *)
  Ref_Value : value       (* the evidence weight *)
}.

Definition WoeTable := list woe_row.

(* ------------------------------------------------------------------ *)
(** ** What the code calls and this repository does not define

    pandas' order statistics, Python's [float] on a string, and the
    [woe_tools] binning engine. *)
Record Library : Type := mk_library {
  quantile : Series -> Qc -> value;                  (* series.quantile(q) *)
  median : Series -> value;                          (* series.median() *)
  mode : Series -> Series;                           (* series.mode() *)
  std : Series -> value;                             (* series.std() *)
  float_of_string : string -> option float;
     (* float(s): [None] when [s] does not read as a float *)
  parse_bins : string -> option (list Qc);
     (* [float(i.strip('[] ')) for i in s.split(',')] *)
  str_convert : value -> value;                      (* woe.str_convert *)
  numwoe_aptbinning : DataFrame -> string -> list Qc -> option string -> WoeTable;
     (* woe.numwoe_aptbinning(df, var_name, bins, target) *)
  numwoe_autobinning : DataFrame -> string -> option string -> WoeTable;
     (* woe.numwoe_autobinning(df, var_name, target, max_bins=6, missing=True) *)
  catwoe_autobinning : DataFrame -> string -> option string -> WoeTable;
     (* woe.catwoe_autobinning(df, var_name, target, max_bins=6, missing_value='-1') *)
  numwoe_apply : DataFrame -> WoeTable -> string -> DataFrame;
     (* woe.numwoe_apply(df, ref_table, var_name): the frame after the call *)
  catwoe_apply : DataFrame -> WoeTable -> string -> DataFrame
     (* woe.catwoe_apply(df, ref_table, var_name): the frame after the call *)
}.

Section Components.

Variable L : Library.

(** [float(v)] of a cell: a float is itself, a string is parsed, and
    [None] is a type error. *)
Definition py_float (v : value) : result float :=
  match v with
  | Flt x => Ok x
  | Str s =>
      match float_of_string L s with
      | Some x => Ok x
      | None => Raise (ValueError (CouldNotConvert s))
      end
  | PyNone => Raise (TypeError FloatArgument)
  end.

(** The state of a Cap, Floor, MissingImpute, Normalize or Scale object. *)
Record component : Type := mk_component {
  config : Table;
  reference : Table;
  apply_list : list string
}.

Definition with_reference (self : component) (ref : Table) : component :=
  {| config := config self; reference := ref; apply_list := apply_list self |}.

(** The shared shape of [__init__]: [apply_list] defaults to the variables
    with [Ind_Model == 1] and the component's own flag. *)
Definition init_with (default : Table -> result (list string))
           (df_config : Table) (apply_list : option (list string)) : result component :=
  match apply_list with
  | Some l => Ok (mk_component df_config df_config l)
  | None => l <- default df_config ;; Ok (mk_component df_config df_config l)
  end.

(* ------------------------------------------------------------------ *)
(** ** Cap *)

Definition Cap_init : Table -> option (list string) -> result component :=
  init_with (fun t => in_model_with t "Ind_Cap" Ind_Cap).

Definition Cap_fit (self : component) (df_master : DataFrame) : result component :=
  ref <- for_each
           (fun ref var =>
              cfg_value <- first_of_rows (config self) "Cap_Value" Cap_Value var ;;
              cap_value <-
                (if isnull cfg_value then
                   col <- getitem df_master var ;;
                   Ok (quantile L (dropna col) (qfrac 99 100))
                 else
                   x <- py_float cfg_value ;; Ok (Flt x)) ;;
              set_where ref "Cap_Value" (set_Cap_Value cap_value) (set_Cap_Value NA) var)
           (apply_list self) (reference self) ;;
  Ok (with_reference self ref).

(** In [np.where(df_master[var] > cap_value, cap_value, df_master[var])]
    the comparison and the selection both read the column as NumPy
    combines it with the float [cap_value]; the array that is assigned has
    the dtype of that combination. *)
Definition Cap_apply (self : component) (df_master : DataFrame) : result DataFrame :=
  for_each
    (fun df var =>
       v <- first_where (reference self) "Cap_Value" Cap_Value var ;;
       cap_value <- py_float v ;;
       if isnull (Flt cap_value) then Raise (ValueError (NotFoundCap var))
       else
         col <- getitem df var ;;
         d <- dtypes df var ;;
         let col := map (as_float64 d) col in
         mask <- series_gt col cap_value ;;
         Ok (setitem df var (float_dtype d) (np_where mask (Flt cap_value) col)))
    (apply_list self) df_master.

(* ------------------------------------------------------------------ *)
(** ** Floor *)

Definition Floor_init : Table -> option (list string) -> result component :=
  init_with (fun t => in_model_with t "Ind_Floor" Ind_Floor).

(** [min(5 * q, 0)] for the quantile [q], a float, with Python's [min]:
    the first argument is kept unless the second is smaller, so NaN stays
    NaN. *)
Definition floor_of_quantile (q : value) : value :=
  match q with
  | Flt x =>
      let y := float_mul (Finite (qz 5)) x in
      if float_lt (Finite 0%Qc) y then Num 0%Qc else Flt y
  | _ => NA
  end.

Definition Floor_fit (self : component) (df_master : DataFrame) : result component :=
  ref <- for_each
           (fun ref var =>
              cfg_value <- first_of_rows (config self) "Floor_Value" Floor_Value var ;;
              floor_value <-
                (if isnull cfg_value then
                   col <- getitem df_master var ;;
                   Ok (floor_of_quantile (quantile L (dropna col) (qfrac 1 100)))
                 else
                   x <- py_float cfg_value ;; Ok (Flt x)) ;;
              set_where ref "Floor_Value" (set_Floor_Value floor_value)
                        (set_Floor_Value NA) var)
           (apply_list self) (reference self) ;;
  Ok (with_reference self ref).

(** The assignment [df_master[var] = np.where(df_master[var] < floor_value, ...)]
    is indented under the [if pd.isnull(floor_value):] branch, after its
    [raise]: it is never executed, and the loop body only checks the
    reference value. *)
Definition Floor_apply (self : component) (df_master : DataFrame) : result DataFrame :=
  for_each
    (fun df var =>
       v <- first_where (reference self) "Floor_Value" Floor_Value var ;;
       floor_value <- py_float v ;;
       if isnull (Flt floor_value) then Raise (ValueError (NotFoundFloor var))
       else Ok df)
    (apply_list self) df_master.

(* ------------------------------------------------------------------ *)
(** ** MissingImpute *)

Definition value_is_str (v : value) (s : string) : bool :=
  match v with Str s' => String.eqb s' s | _ => false end.

(** What [t.loc[..., 'Missing_Impute'] = None] stores.  pandas keeps
    [None] in an object column and stores NaN in a column of numbers; the
    column of the reference table has the dtype of the column of the
    configuration it was copied from, which is an object column as soon
    as one of its cells is a string or [None]. *)
Definition stored_none (cfg : Table) : value :=
  if existsb (fun r => match Missing_Impute r with Flt _ => false | _ => true end)
             (rows cfg)
  then PyNone else NA.

(** [list(t['Var_Name'][t['Ind_Model'] == 1])] *)
Definition in_model (t : Table) : result (list string) :=
  if has_column t "Var_Name" then
    if has_column t "Ind_Model" then
      Ok (map Var_Name (filter (fun r => Z.eqb (Ind_Model r) 1) (rows t)))
    else Raise (KeyError "Ind_Model")
  else Raise (KeyError "Var_Name").

Definition MissingImpute_init (df_config : Table) (apply_list : option (list string))
  : result component :=
  init_with
    (fun t =>
       if has_column t "Var_Name" then
         if has_column t "Ind_Model" then
           if has_column t "Missing_Impute" then
             Ok (map Var_Name
                     (filter (fun r => Z.eqb (Ind_Model r) 1 && negb (isnull (Missing_Impute r)))
                             (rows t)))
           else Raise (KeyError "Missing_Impute")
         else Raise (KeyError "Ind_Model")
       else Raise (KeyError "Var_Name"))
    df_config apply_list.

(** The value [fit] resolves for one variable.  [impute_value = None] is
    written here as the cell that the assignment to the reference table
    stores for it, [stored_none]. *)
Definition impute_value_of (cfg : Table) (df_master : DataFrame) (var : string)
  : result value :=
  var_type <- first_of_rows cfg "Var_Type" Var_Type var ;;
  if String.eqb var_type "numerical" then
    token <- first_of_rows cfg "Missing_Impute" Missing_Impute var ;;
    if value_is_str token "mean" then
      col <- getitem df_master var ;; mean col
    else if value_is_str token "median" then
      col <- getitem df_master var ;; Ok (median L col)
    else if negb (isnull token) then
      x <- py_float token ;; Ok (Flt x)
    else Ok (stored_none cfg)
  else if String.eqb var_type "categorical" then
    token <- first_of_rows cfg "Missing_Impute" Missing_Impute var ;;
    if value_is_str token "mode" then
      col <- getitem df_master var ;;
      match mode L col with
      | v :: _ => Ok v
      | [] => Raise IndexError
      end
    else if negb (isnull token) then Ok token
    else Ok (stored_none cfg)
  else Raise (TypeError (WrongTypeFor var)).

(** The loop runs over every in-model variable, not over [apply_list]. *)
Definition MissingImpute_fit (self : component) (df_master : DataFrame)
  : result component :=
  vars <- in_model (config self) ;;
  ref <- for_each
           (fun ref var =>
              impute_value <- impute_value_of (config self) df_master var ;;
              set_where ref "Missing_Impute" (set_Missing_Impute impute_value)
                        (set_Missing_Impute NA) var)
           vars (reference self) ;;
  Ok (with_reference self ref).

(** [missing_vars]: the columns of the frame that hold a missing value. *)
Definition missing_vars (df : DataFrame) : list string :=
  map fst (filter (fun c => has_missing (snd (snd c))) df).

Definition MissingImpute_apply (self : component) (df_master : DataFrame)
  : result DataFrame :=
  let missing := missing_vars df_master in
  for_each
    (fun df var =>
       if negb (existsb (String.eqb var) missing) then Ok df
       else
         var_type <- first_where (reference self) "Var_Type" Var_Type var ;;
         token <- first_where (reference self) "Missing_Impute" Missing_Impute var ;;
         impute_value <-
           (if String.eqb var_type "numerical" then
              x <- py_float token ;; Ok (Flt x)
            else Ok token) ;;
         if isnull impute_value then Raise (ValueError (NotFoundImpute var))
         else
           col <- getitem df var ;;
           d <- dtypes df var ;;
           Ok (setitem df var (fillna_dtype d impute_value) (fillna col impute_value)))
    (apply_list self) df_master.

(* ------------------------------------------------------------------ *)
(** ** Normalize and Scale *)

(** The column a variable lives in at this point of the pipeline.  When
    [Ind_WOE == 1] and the type is neither numerical nor categorical no
    branch assigns [real_var]: it keeps the value of the previous
    iteration ([prev]), or is unbound in the first one.  The lookup of
    [Ind_WOE] sits in a [try]: any failure gives 0. *)
Definition resolve_real_var (cfg : Table) (var : string) (prev : option string)
  : result (option string) :=
  var_type <- first_where cfg "Var_Type" Var_Type var ;;
  let ind_woe :=
    match first_where cfg "Ind_WOE" Ind_WOE var with
    | Ok z => z
    | Raise _ => 0%Z
    end in
  if Z.eqb ind_woe 1 then
    if String.eqb var_type "numerical" then Ok (Some ("nwoe_" ++ var))
    else if String.eqb var_type "categorical" then Ok (Some ("cwoe_" ++ var))
    else Ok prev
  else Ok (Some var).

(** Reading [real_var]. *)
Definition bound (real_var : option string) : result string :=
  match real_var with
  | Some name => Ok name
  | None => Raise (UnboundLocalError "real_var")
  end.

(** [a - b] on cells. *)
Definition value_sub (a b : value) : result value :=
  x <- number_of a ;;
  y <- number_of b ;;
  Ok (Flt (float_sub x y)).

(** [v == 0.0] *)
Definition is_zero (v : value) : bool :=
  match v with Num x => Qceqb x 0%Qc | _ => false end.

(** [series - c] for a scalar [c] *)
Definition series_sub (s : Series) (c : value) : result Series :=
  y <- number_of c ;;
  mapM (fun v => x <- number_of v ;; Ok (Flt (float_sub x y))) s.

(** [series / d] for a scalar [d].  A zero divisor is made visible as
    [ZeroDivisionError] (NumPy would fill the column with inf and NaN
    instead). *)
Definition series_div (s : Series) (d : value) : result Series :=
  if is_zero d then Raise ZeroDivisionError
  else
    y <- number_of d ;;
    mapM (fun v => x <- number_of v ;; Ok (Flt (float_div x y))) s.

Definition Normalize_init : Table -> option (list string) -> result component :=
  init_with (fun t => in_model_with t "Ind_Norm" Ind_Norm).

Definition Scale_init : Table -> option (list string) -> result component :=
  init_with (fun t => in_model_with t "Ind_Scale" Ind_Scale).

(** [pd.merge(config, df_ref, how='left', on='Var_Name')] where [df_ref]
    has the columns [Var_Name], [c1], [c2]: a row of [config] is repeated
    for each row of [df_ref] with its name and gets missing values when
    there is none; a column of [config] already called [c1] or [c2] is
    renamed with the suffix [_x], and the new one gets [_y]. *)
Definition merge_left (cfg : Table) (c1 c2 : string)
           (set : value -> value -> config_row -> config_row)
           (df_ref : list (string * (value * value))) : result Table :=
  if has_column cfg "Var_Name" then
    let rename c :=
      if String.eqb c c1 || String.eqb c c2 then c ++ "_x" else c in
    let fresh c := if has_column cfg c then c ++ "_y" else c in
    Ok {| header := (map rename (header cfg) ++ [fresh c1; fresh c2])%list;
          rows :=
            flat_map
              (fun r =>
                 match filter (fun e => String.eqb (fst e) (Var_Name r)) df_ref with
                 | [] => [set NA NA r]
                 | es => map (fun e => set (fst (snd e)) (snd (snd e)) r) es
                 end)
              (rows cfg) |}
  else Raise (KeyError "Var_Name").

(** The loop shared by [Normalize.fit] and [Scale.fit]: two statistics of
    the resolved column per variable. *)
Definition fit_statistics (cfg : Table) (vars : list string) (df_master : DataFrame)
           (stat1 stat2 : Series -> result value)
  : result (list (string * (value * value))) :=
  st <- for_each
          (fun (st : list (string * (value * value)) * option string) var =>
             rv <- resolve_real_var cfg var (snd st) ;;
             real_var <- bound rv ;;
             col <- getitem df_master real_var ;;
             a <- stat1 col ;;
             b <- stat2 col ;;
             Ok ((fst st ++ [(var, (a, b))])%list, rv))
          vars ([], None) ;;
  Ok (fst st).

Definition Normalize_fit (self : component) (df_master : DataFrame) : result component :=
  df_ref <- fit_statistics (config self) (apply_list self) df_master
                           mean (fun col => Ok (std L col)) ;;
  ref <- merge_left (config self) "Mean" "Std" set_Mean_Std df_ref ;;
  Ok (with_reference self ref).

(** One iteration of the loop of [Normalize.apply]; the loop state is the
    frame and the current binding of [real_var]. *)
Definition Normalize_step (self : component) (st : DataFrame * option string)
           (var : string) : result (DataFrame * option string) :=
  rv <- resolve_real_var (config self) var (snd st) ;;
  var_mean <- first_where (reference self) "Mean" Mean var ;;
  var_std <- first_where (reference self) "Std" Std var ;;
  if isnull var_mean || isnull var_std then Raise (ValueError (NotFoundMeanStd var))
  else if is_zero var_std then Raise (ValueError (StdEqualZero var))
  else
    real_var <- bound rv ;;
    col <- getitem (fst st) real_var ;;
    d <- dtypes (fst st) real_var ;;
    centred <- series_sub col var_mean ;;
    col' <- series_div centred var_std ;;
    Ok (setitem (fst st) real_var (float_dtype d) col', rv).

Definition Normalize_apply (self : component) (df_master : DataFrame)
  : result DataFrame :=
  st <- for_each (Normalize_step self) (apply_list self) (df_master, None) ;;
  Ok (fst st).

Definition Scale_fit (self : component) (df_master : DataFrame) : result component :=
  df_ref <- fit_statistics (config self) (apply_list self) df_master
                           series_min series_max ;;
  ref <- merge_left (config self) "Min" "Max" set_Min_Max df_ref ;;
  Ok (with_reference self ref).

Definition Scale_step (self : component) (st : DataFrame * option string)
           (var : string) : result (DataFrame * option string) :=
  rv <- resolve_real_var (config self) var (snd st) ;;
  var_min <- first_where (reference self) "Min" Min var ;;
  var_max <- first_where (reference self) "Max" Max var ;;
  if isnull var_min || isnull var_max then Raise (ValueError (NotFoundMaxMin var))
  else
    range <- value_sub var_max var_min ;;
    if is_zero range then Raise (ValueError (MaxEqualMin var))
    else
      real_var <- bound rv ;;
      col <- getitem (fst st) real_var ;;
      d <- dtypes (fst st) real_var ;;
      shifted <- series_sub col var_min ;;
      scaled <- series_div shifted range ;;
      above <- series_gt scaled (Finite 1%Qc) ;;
      let capped := np_where above (Num 1%Qc) scaled in
      below <- series_lt capped (Finite 0%Qc) ;;
      Ok (setitem (fst st) real_var (float_dtype d)
                  (np_where below (Num 0%Qc) capped), rv).

Definition Scale_apply (self : component) (df_master : DataFrame) : result DataFrame :=
  st <- for_each (Scale_step self) (apply_list self) (df_master, None) ;;
  Ok (fst st).

(* ------------------------------------------------------------------ *)
(** ** Woe *)

Record woe_component : Type := mk_woe_component {
  w_config : Table;
  w_reference : option WoeTable;     (* [None] until fitted or supplied *)
  w_target : option string;
  w_apply_list : list string
}.

Definition mem (x : string) (l : list string) : bool := existsb (String.eqb x) l.

Definition Woe_init (df_config : Table) (target : option string)
           (woe_ref : option WoeTable) (apply_list : option (list string))
  : result woe_component :=
  match apply_list with
  | Some l => Ok (mk_woe_component df_config woe_ref target l)
  | None =>
      l <- in_model_with df_config "Ind_WOE" Ind_WOE ;;
      Ok (mk_woe_component df_config woe_ref target l)
  end.

(** The dtype of [series.apply(f)] for a series of dtype [d]: pandas
    infers it from the cells [f] returns, float64 when they all are floats
    and object otherwise; an empty series keeps its dtype. *)
Definition inferred_dtype (d : dtype) (s : Series) : dtype :=
  match s with
  | [] => d
  | _ => if forallb (fun v => match v with Flt _ => true | _ => false end) s
         then float64 else object
  end.

(** [series.unique()]: the values in order of first appearance. *)
Fixpoint unique (l : list string) : list string :=
  match l with
  | [] => []
  | x :: l' => x :: filter (fun y => negb (String.eqb y x)) (unique l')
  end.

(** A Python dict built from pairs: a repeated key keeps its first place
    and takes the last value. *)
Fixpoint dict_set {V : Type} (d : list (string * V)) (k : string) (v : V)
  : list (string * V) :=
  match d with
  | [] => [(k, v)]
  | (k', v') :: d' =>
      if String.eqb k' k then (k', v) :: d' else (k', v') :: dict_set d' k v
  end.

Definition to_dict {V : Type} (kvs : list (string * V)) : list (string * V) :=
  fold_left (fun d kv => dict_set d (fst kv) (snd kv)) kvs [].

Fixpoint dict_get {V : Type} (d : list (string * V)) (k : string) : option V :=
  match d with
  | [] => None
  | (k', v) :: d' => if String.eqb k' k then Some v else dict_get d' k
  end.

(** [Woe.fit].  The files and folders it writes are left out; the frame is
    returned with the reference because the categorical columns are
    rewritten in place by [str_convert]. *)
Definition Woe_fit (self : woe_component) (df_master : DataFrame)
  : result (woe_component * DataFrame) :=
  names <- column (w_config self) "Var_Name" Var_Name ;;
  let df_woe_config :=
    filter (fun r => mem (Var_Name r) (w_apply_list self)) (rows (w_config self)) in
  _ <- column (w_config self) "Var_Type" Var_Type ;;
  let num_vars_list :=
    map Var_Name (filter (fun r => String.eqb (Var_Type r) "numerical") df_woe_config) in
  let cag_vars_list :=
    map Var_Name (filter (fun r => String.eqb (Var_Type r) "categorical") df_woe_config) in
  _ <- column (w_config self) "WOE_Bin" WOE_Bin ;;
  let dict_woe_bin :=
    to_dict (map (fun r => (Var_Name r, WOE_Bin r))
                 (filter (fun r => String.eqb (Var_Type r) "numerical"
                                   && negb (isnull (WOE_Bin r)))
                         df_woe_config)) in
  num_dict_woe_bin <-
    mapM (fun kv : string * value =>
            match snd kv with
            | Str s =>
                match parse_bins L s with
                | Some bins => Ok (fst kv, bins)
                | None => Raise (ValueError (CouldNotConvert s))
                end
            | _ => Raise (AttributeError "split")
            end) dict_woe_bin ;;
  let df_ref_num :=
    flat_map (fun var =>
                match dict_get num_dict_woe_bin var with
                | Some bins => numwoe_aptbinning L df_master var bins (w_target self)
                | None => numwoe_autobinning L df_master var (w_target self)
                end) num_vars_list in
  st <- for_each
          (fun (st : DataFrame * WoeTable) var =>
             col <- getitem (fst st) var ;;
             d <- dtypes (fst st) var ;;
             let col' := map (str_convert L) col in
             let df := setitem (fst st) var (inferred_dtype d col') col' in
             Ok (df, (snd st ++ catwoe_autobinning L df var (w_target self))%list))
          cag_vars_list (df_master, []) ;;
  let df_woe_ref := (df_ref_num ++ snd st)%list in
  Ok (mk_woe_component (w_config self) (Some df_woe_ref) (w_target self)
                       (w_apply_list self),
      fst st).

(** [Woe.apply]: works on a copy, lets the engine substitute each variable
    that has rows in the reference table, and keeps the columns whose name
    is not in [apply_list].

    A reference table without rows stops it.  The list of booleans that
    [self.reference[[...]]] is indexed with is then empty, and pandas
    takes an empty list for a selection of no columns: the columns
    [Var_Name], [Var_Value], [Ref_Value] asked for next are not there
    ([KeyError]).  When the table has no columns either, as the one
    [Woe.fit] returns for no variable, reading [Var_Name] fails before
    that, with the same kind of error. *)
Definition Woe_apply (self : woe_component) (df_master : DataFrame)
  : result DataFrame :=
  match w_reference self with
  | None => Raise (ValueError ReferenceTableMissing)
  | Some [] => Raise (KeyError "Var_Name")
  | Some ref =>
      let df_return := df_master in
      let df_woe_ref := filter (fun r => mem (W_Var_Name r) (w_apply_list self)) ref in
      let df_ref_num :=
        filter (fun r => String.eqb (W_Var_Type r) "numerical") df_woe_ref in
      let df_ref_cag :=
        filter (fun r => String.eqb (W_Var_Type r) "categorical") df_woe_ref in
      let df_return :=
        if (0 <? List.length df_ref_num)%nat then
          fold_left
            (fun df var =>
               numwoe_apply L df
                 (filter (fun r => String.eqb (W_Var_Name r) var) df_ref_num) var)
            (unique (map W_Var_Name df_ref_num)) df_return
        else df_return in
      let df_return :=
        if (0 <? List.length df_ref_cag)%nat then
          fold_left
            (fun df var =>
               catwoe_apply L df
                 (filter (fun r => String.eqb (W_Var_Name r) var) df_ref_cag) var)
            (unique (map W_Var_Name df_ref_cag)) df_return
        else df_return in
      Ok (filter (fun c : string * (dtype * Series) =>
                    negb (mem (fst c) (w_apply_list self)))
                 df_return)
  end.

(* ------------------------------------------------------------------ *)
(** ** Tactic *)

(** The component classes a process list can hold. *)
Inductive operation : Type :=
| Cap | Floor | MissingImpute | Woe | Normalize | Scale.

Definition operation_eqb (a b : operation) : bool :=
  match a, b with
  | Cap, Cap | Floor, Floor | MissingImpute, MissingImpute
  | Woe, Woe | Normalize, Normalize | Scale, Scale => true
  | _, _ => false
  end.

Record tactic : Type := mk_tactic {
  t_config : Table;
  t_reference : Table;
  process_list : list operation;
  target : option string;
  woe_reference : option WoeTable
}.

Definition Tactic_init (df_config : Table) (process_list : option (list operation))
           (target : option string) (woe_ref : option WoeTable) : tactic :=
  {| t_config := df_config;
     t_reference := df_config;
     process_list := match process_list with Some l => l | None => [] end;
     target := target;
     woe_reference := woe_ref |}.

Definition with_t_reference (self : tactic) (ref : Table) : tactic :=
  {| t_config := t_config self; t_reference := ref;
     process_list := process_list self; target := target self;
     woe_reference := woe_reference self |}.

Definition with_woe_reference (self : tactic) (ref : option WoeTable) : tactic :=
  {| t_config := t_config self; t_reference := t_reference self;
     process_list := process_list self; target := target self;
     woe_reference := ref |}.

(** [__check_attribute] *)
Definition check_attribute (self : tactic) : result unit :=
  if existsb (operation_eqb Woe) (process_list self)
     && match target self with None => true | Some _ => false end
  then Raise (ValueError TargetNeeded)
  else Ok tt.

(** A component object built by [__complie]. *)
Inductive instance : Type :=
| Plain (op : operation) (c : component)
| WoeInstance (w : woe_component).

Definition compile (self : tactic) (op : operation) : result instance :=
  match op with
  | Woe =>
      w <- Woe_init (t_reference self) (target self) (woe_reference self) None ;;
      Ok (WoeInstance w)
  | Cap => c <- Cap_init (t_reference self) None ;; Ok (Plain Cap c)
  | Floor => c <- Floor_init (t_reference self) None ;; Ok (Plain Floor c)
  | MissingImpute =>
      c <- MissingImpute_init (t_reference self) None ;; Ok (Plain MissingImpute c)
  | Normalize => c <- Normalize_init (t_reference self) None ;; Ok (Plain Normalize c)
  | Scale => c <- Scale_init (t_reference self) None ;; Ok (Plain Scale c)
  end.

Definition component_fit (op : operation) (c : component) (df : DataFrame)
  : result component :=
  match op with
  | Cap => Cap_fit c df
  | Floor => Floor_fit c df
  | MissingImpute => MissingImpute_fit c df
  | Normalize => Normalize_fit c df
  | Scale => Scale_fit c df
  | Woe => Ok c
  end.

Definition component_apply (op : operation) (c : component) (df : DataFrame)
  : result DataFrame :=
  match op with
  | Cap => Cap_apply c df
  | Floor => Floor_apply c df
  | MissingImpute => MissingImpute_apply c df
  | Normalize => Normalize_apply c df
  | Scale => Scale_apply c df
  | Woe => Ok df
  end.

Definition instance_apply (i : instance) (df : DataFrame) : result DataFrame :=
  match i with
  | Plain op c => component_apply op c df
  | WoeInstance w => Woe_apply w df
  end.

(** [d in num_type_list] and [d in cag_type_list] for the dtype [d] of a
    column.  NumPy compares a dtype with a type by the dtype of that type:
    of the entries [int, float, np.int64, ..., np.float32] the dtypes of
    the model equal [int], [float], [np.int64] and [np.float64]; of
    [str, np.object] an object column equals [np.object]. *)
Definition in_num_type_list (d : dtype) : bool :=
  match d with
  | float64 => true
  | int64 => true
  | _ => false
  end.
Definition in_cag_type_list (d : dtype) : bool :=
  match d with
  | object => true
  | _ => false
  end.

Definition allow_header : list string :=
  ["Var_Name"; "Var_Type"; "Preicesion"; "Ind_Model"; "Ind_Cap"; "Cap_Value";
   "Ind_Floor"; "Floor_Value"; "Missing_Impute"; "Ind_WOE"; "WOE_Bin"; "Ind_Norm";
   "Ind_Scale"].

(** What a Python name can be bound to in [check_config_file]. *)
Inductive pyobj : Type :=
| ObjValue (v : value)
| ObjSeries (s : Series).

(** [type(o) == str] *)
Definition type_is_str (o : pyobj) : bool :=
  match o with
  | ObjValue (Str _) => true
  | _ => false
  end.

(** [o not in ['mean', 'median']], read only when [o] is a string. *)
Definition not_mean_median (o : pyobj) : bool :=
  match o with
  | ObjValue (Str s) => negb (mem s ["mean"; "median"])
  | _ => true
  end.

Definition nonempty {A : Type} (l : list A) : bool :=
  match l with [] => false | _ => true end.

(** [check_config_file]: the number of errors found.  The diagnostics it
    prints are left out; the line [print("...").format(var)] of the first
    type check is read as the Python 2 statement it is written as, which
    prints and goes on to count. *)
Definition check_config_file (self : tactic) (df_master : DataFrame) : result Z :=
  let cfg := t_config self in
  let cnt_error := 0%Z in
  (* header *)
  let wrong_header := filter (fun c => negb (mem c allow_header)) (header cfg) in
  let cnt_error := if nonempty wrong_header then (cnt_error + 1)%Z else cnt_error in
  (* variable names *)
  var_list_config <- column cfg "Var_Name" Var_Name ;;
  let var_list_master := columns df_master in
  let wrong_var_name :=
    filter (fun var => negb (mem var var_list_master)) var_list_config in
  let cnt_error := if nonempty wrong_var_name then (cnt_error + 1)%Z else cnt_error in
  (* variable types *)
  _ <- column cfg "Var_Type" Var_Type ;;
  let num_var_list :=
    map Var_Name (filter (fun r => String.eqb (Var_Type r) "numerical") (rows cfg)) in
  let cag_var_list :=
    map Var_Name (filter (fun r => String.eqb (Var_Type r) "categorical") (rows cfg)) in
  cnt_error <-
    for_each
      (fun cnt var =>
         if negb (mem var num_var_list) && negb (mem var cag_var_list) then
           Ok (cnt + 1)%Z
         else
           wrong_num <-
             (if mem var num_var_list then
                d <- dtypes df_master var ;; Ok (negb (in_num_type_list d))
              else Ok false) ;;
           if wrong_num then Ok (cnt + 1)%Z
           else
             wrong_cag <-
               (if mem var cag_var_list then
                  d <- dtypes df_master var ;; Ok (negb (in_cag_type_list d))
                else Ok false) ;;
             if wrong_cag then Ok (cnt + 1)%Z else Ok cnt)
      var_list_config cnt_error ;;
  (* cap and floor on categorical variables *)
  cnt_error <-
    for_each
      (fun cnt var =>
         ind_cap <- first_where cfg "Ind_Cap" Ind_Cap var ;;
         if Z.eqb ind_cap 1 then Ok (cnt + 1)%Z
         else
           ind_floor <- first_where cfg "Ind_Floor" Ind_Floor var ;;
           if Z.eqb ind_floor 1 then Ok (cnt + 1)%Z else Ok cnt)
      cag_var_list cnt_error ;;
  (* imputation tokens: [impute_value] is the selected part of the column,
     a Series, not its first cell *)
  cnt_error <-
    for_each
      (fun cnt var =>
         col <- column cfg "Missing_Impute" Missing_Impute ;;
         let impute_value := ObjSeries (map Missing_Impute (rows_of cfg var)) in
         if type_is_str impute_value && not_mean_median impute_value
         then Ok (cnt + 1)%Z else Ok cnt)
      num_var_list cnt_error ;;
  Ok cnt_error.

(** A call of a component's method, recorded when the call is made. *)
Inductive event : Type :=
| FitCalled (op : operation)
| ApplyCalled (op : operation).

(** What a call of the orchestrator can change: the orchestrator, the
    caller's frame, and the record of the component calls made. *)
Record world : Type := mk_world {
  self : tactic;
  master : DataFrame;
  trace : list event
}.

Definition log (w : world) (e : event) : world :=
  {| self := self w; master := master w; trace := (trace w ++ [e])%list |}.

Definition with_self (w : world) (t : tactic) : world :=
  {| self := t; master := master w; trace := trace w |}.

Definition with_master (w : world) (df : DataFrame) : world :=
  {| self := self w; master := df; trace := trace w |}.

(** The loop of [Tactic.fit] over the working copy [df_tmp]. *)
Fixpoint fit_loop (ops : list operation) (df_tmp : DataFrame) (w : world)
  : result Table * world :=
  match ops with
  | [] => (Ok (t_reference (self w)), w)
  | op :: ops' =>
      match compile (self w) op with
      | Raise e => (Raise e, w)
      | Ok (WoeInstance i) =>
          let w := log w (FitCalled op) in
          match Woe_fit i df_tmp with
          | Raise e => (Raise e, w)
          | Ok (i', df_tmp) =>
              let w := with_self w (with_woe_reference (self w) (w_reference i')) in
              let w := log w (ApplyCalled op) in
              match Woe_apply i' df_tmp with
              | Raise e => (Raise e, w)
              | Ok df_tmp => fit_loop ops' df_tmp w
              end
          end
      | Ok (Plain _ c) =>
          let w := log w (FitCalled op) in
          match component_fit op c df_tmp with
          | Raise e => (Raise e, w)
          | Ok c' =>
              let w := with_self w (with_t_reference (self w) (reference c')) in
              let w := log w (ApplyCalled op) in
              match component_apply op c' df_tmp with
              | Raise e => (Raise e, w)
              | Ok df_tmp => fit_loop ops' df_tmp w
              end
          end
      end
  end.

Definition Tactic_fit (w : world) : result Table * world :=
  let df_tmp := master w in
  match check_config_file (self w) (master w) with
  | Raise e => (Raise e, w)
  | Ok error_cnt =>
      if (0 <? error_cnt)%Z then (Raise (TypeError MustPassConfigCheck), w)
      else
        match check_attribute (self w) with
        | Raise e => (Raise e, w)
        | Ok _ => fit_loop (process_list (self w)) df_tmp w
        end
  end.

(** The loop of [Tactic.apply].  [df_return] starts as the caller's frame
    itself, so what the in-place components do reaches it ([aliased]);
    [Woe.apply] returns a copy, and from then on the caller's frame is left
    alone.  A frame abandoned by an exception is not tracked. *)
Fixpoint apply_loop (ops : list operation) (df_return : DataFrame) (aliased : bool)
         (w : world) : result DataFrame * world :=
  match ops with
  | [] => (Ok df_return, w)
  | op :: ops' =>
      match compile (self w) op with
      | Raise e => (Raise e, w)
      | Ok i =>
          let w := log w (ApplyCalled op) in
          match instance_apply i df_return with
          | Raise e => (Raise e, w)
          | Ok df =>
              let aliased := aliased && negb (operation_eqb op Woe) in
              apply_loop ops' df aliased (if aliased then with_master w df else w)
          end
      end
  end.

Definition Tactic_apply (w : world) : result DataFrame * world :=
  apply_loop (process_list (self w)) (master w) true w.

(** [add_variables] and [drop_variables] with the default column and a
    list of names.  In a column [Ind_Model] that the assignment creates,
    the cells of the other rows are NaN; they hold 0 here, which like NaN
    fails the one test the code makes of the column, [== 1].  The only
    exception, for a reference table without the column [Var_Name], comes
    in the first iteration, before anything is written. *)
Definition add_variables (self : tactic) (add_list : list string) : result tactic :=
  ref <- for_each
           (fun ref var =>
              set_where ref "Ind_Model" (set_Ind_Model 1) (set_Ind_Model 0) var)
           add_list (t_reference self) ;;
  Ok (with_t_reference self ref).

Definition drop_variables (self : tactic) (drop_list : list string) : result tactic :=
  ref <- for_each
           (fun ref var =>
              set_where ref "Ind_Model" (set_Ind_Model 0) (set_Ind_Model 0) var)
           drop_list (t_reference self) ;;
  Ok (with_t_reference self ref).

End Components.

(* ------------------------------------------------------------------ *)
(** ** Managing the process list *)

Definition with_process_list (self : tactic) (l : list operation) : tactic :=
  {| t_config := t_config self; t_reference := t_reference self;
     process_list := l; target := target self;
     woe_reference := woe_reference self |}.

Definition with_target (self : tactic) (t : option string) : tactic :=
  {| t_config := t_config self; t_reference := t_reference self;
     process_list := process_list self; target := t;
     woe_reference := woe_reference self |}.

(** What [add_process] is given as [operation]: a component class, or a
    list of them. *)
Inductive operation_arg : Type :=
| OneClass (op : operation)
| ClassList (l : list operation).

(** The body of the loop of [add_process]: a component that is not yet in
    the list is appended; when it is Woe, the reference table and the
    target given with the call are taken if the orchestrator has none.  A
    component already in the list is only reported. *)
Definition add_one (new_target : option string) (woe_ref : option WoeTable)
           (self : tactic) (op : operation) : tactic :=
  if negb (existsb (operation_eqb op) (process_list self)) then
    let self := with_process_list self (process_list self ++ [op])%list in
    if operation_eqb op Woe then
      let self :=
        match woe_reference self with
        | None => with_woe_reference self woe_ref
        | Some _ => self
        end in
      match target self with
      | None => with_target self new_target
      | Some _ => self
      end
    else self
  else self.

(** [add_process].  An argument that is not a list goes through
    [list(operation)]; a class is not iterable, so that call raises
    [TypeError] ([None] here) before anything is changed. *)
Definition add_process (self : tactic) (operation : operation_arg)
           (new_target : option string) (woe_ref : option WoeTable) : option tactic :=
  match operation with
  | OneClass _ => None
  | ClassList l => Some (fold_left (add_one new_target woe_ref) l self)
  end.

Definition clear_process_list (self : tactic) : tactic :=
  with_process_list self [].

End Preprocess.

(* ================================================================== *)
(** * utils/data_filter.py *)

Module DataFilter.

(** A cell of a numeric frame; [None] is NaN. *)
Definition cell := option Qc.

(** The value the filter writes over an eliminated row and column. *)
Definition sentinel : cell := Some (qz (-1)).

(** [c != -1]; NaN differs from every number. *)
Definition ne_sentinel (c : cell) : bool :=
  match c with
  | Some x => negb (Qceqb x (qz (-1)))
  | None => true
  end.

(** [c > thresh]; NaN compares false. *)
Definition gt (c : cell) (thresh : Qc) : bool :=
  match c with
  | Some x => Qcltb thresh x
  | None => false
  end.

(** A frame of numbers, row by row, with its column names. *)
Record Frame : Type := mk_frame {
  columns : list string;
  data : list (list cell)
}.

(** [(df != -1).T.any()]: per row, whether some cell differs from -1. *)
Definition keep_row (row : list cell) : bool := existsb ne_sentinel row.

(** [df.loc[(df != -1).T.any(), :]] *)
Definition drop_sentinel_rows (df : Frame) : Frame :=
  {| columns := columns df; data := filter keep_row (data df) |}.

Definition transform (x : cell) : cell :=
  match x with
  | Some q =>
      if Qceqb q 1%Qc then Some 0%Qc
      else if Qcltb q 0%Qc then Some (- q)%Qc
      else Some q
  | None => None
  end.

(** A correlation matrix: [labels] names both its rows and its columns,
    in the order of the columns of the frame it was computed from (a name
    can occur more than once there); [cells] holds its rows. *)
Record Corr : Type := mk_corr {
  labels : list string;
  cells : list (list cell)
}.

Definition applymap (f : cell -> cell) (c : Corr) : Corr :=
  {| labels := labels c; cells := map (map f) (cells c) |}.

Section GenCorr.

(** [DataFrame.corr], pandas' pairwise correlation of the columns. *)
Variable corr : Frame -> Corr.

Definition gen_corr (df : Frame) : Corr :=
  let df := drop_sentinel_rows df in
  applymap transform (corr df).

End GenCorr.

Definition matrix := list (list cell).

Fixpoint mapi_from {A B : Type} (f : nat -> A -> B) (k : nat) (l : list A) : list B :=
  match l with
  | [] => []
  | x :: l' => f k x :: mapi_from f (S k) l'
  end.

Definition mapi {A B : Type} (f : nat -> A -> B) (l : list A) : list B :=
  mapi_from f 0 l.

(** [corr.loc[idx, col]] *)
Definition get (m : matrix) (idx col : nat) : cell :=
  nth col (nth idx m []) None.

(** [corr.loc[idx, :] = -1] *)
Definition set_row (idx : nat) (m : matrix) : matrix :=
  mapi (fun r row => if Nat.eqb r idx then map (fun _ => sentinel) row else row) m.

(** [corr.loc[:, idx] = -1] *)
Definition set_col (idx : nat) (m : matrix) : matrix :=
  map (mapi (fun c x => if Nat.eqb c idx then sentinel else x)) m.

(** Whether the label at position [k] names one row (and one column). *)
Definition names_one (ls : list string) (k : nat) : bool :=
  match nth_error ls k with
  | Some name => Nat.eqb (List.length (filter (String.eqb name) ls)) 1
  | None => false
  end.

(** [corr.loc[idx, col] > thresh] as the condition of the [if].  [.loc]
    gives the cell when each of the two labels names one row and one
    column.  With a repeated label it gives a Series or a frame; the
    comparison of that has no truth value, and the [if] raises
    [ValueError]: [None]. *)
Definition exceeds (thresh : Qc) (ls : list string) (m : matrix) (idx col : nat)
  : option bool :=
  if names_one ls idx && names_one ls col then Some (gt (get m idx col) thresh)
  else None.

(** The body of the inner loop at the cell [(idx, col)], the rows and
    columns taken by position.  The two assignments are reached only for
    a label [idx] that names one row and one column. *)
Definition visit (thresh : Qc) (ls : list string) (m : matrix) (cell_at : nat * nat)
  : matrix :=
  let idx := fst cell_at in
  let col := snd cell_at in
  match exceeds thresh ls m idx col with
  | Some true => set_col idx (set_row idx m)
  | Some false => m
  | None => m                             (* [except: pass] *)
  end.

(** The cells in the order the two loops reach them:
    [for col in corr.columns: for idx in corr.index]. *)
Definition scan_order (n : nat) : list (nat * nat) :=
  flat_map (fun col => map (fun idx => (idx, col)) (seq 0 n)) (seq 0 n).

Definition scan (thresh : Qc) (ls : list string) (cells_in_order : list (nat * nat))
           (m : matrix) : matrix :=
  fold_left (visit thresh ls) cells_in_order m.

(** [(corr != -1).any()]: per column, whether some cell differs from -1. *)
Definition picked (n : nat) (m : matrix) : list bool :=
  map (fun col => existsb (fun row => ne_sentinel (nth col row None)) m) (seq 0 n).

(** Selection by a boolean mask. *)
Definition select {A : Type} (mask : list bool) (l : list A) : list A :=
  map snd (filter fst (combine mask l)).

Definition filt_corr (c : Corr) (thresh : Qc) : Corr :=
  let n := List.length (labels c) in
  let m := scan thresh (labels c) (scan_order n) (cells c) in
  let p := picked n m in
  {| labels := select p (labels c);
     cells := map (select p) (select p m) |}.

(** The positions the scan has eliminated, kept beside the matrix: the
    same loop as [scan], with the row labels it marks collected. *)
Definition visit_marking (thresh : Qc) (ls : list string) (st : matrix * list nat)
           (cell_at : nat * nat) : matrix * list nat :=
  match exceeds thresh ls (fst st) (fst cell_at) (snd cell_at) with
  | Some true =>
      (set_col (fst cell_at) (set_row (fst cell_at) (fst st)), fst cell_at :: snd st)
  | Some false => st
  | None => st
  end.

Definition scan_marking (thresh : Qc) (ls : list string)
           (cells_in_order : list (nat * nat)) (m : matrix) : matrix * list nat :=
  fold_left (visit_marking thresh ls) cells_in_order (m, []).

Definition marked (c : Corr) (thresh : Qc) : list nat :=
  snd (scan_marking thresh (labels c) (scan_order (List.length (labels c))) (cells c)).

End DataFilter.

(* ================================================================== *)
(** * Comparisons and loops *)

Lemma Qcltb_true (x y : Qc) : Qcltb x y = true <-> (x < y)%Qc.
Proof.
  unfold Qcltb. destruct (Qclt_le_dec x y) as [H | H]; split; intro K;
    try reflexivity; try assumption; try discriminate.
  exfalso. exact (Qcle_not_lt _ _ H K).
Qed.

Lemma Qcltb_false (x y : Qc) : Qcltb x y = false <-> (y <= x)%Qc.
Proof.
  unfold Qcltb. destruct (Qclt_le_dec x y) as [H | H]; split; intro K;
    try reflexivity; try assumption; try discriminate.
  exfalso. exact (Qcle_not_lt _ _ K H).
Qed.

Lemma Qceqb_true (x y : Qc) : Qceqb x y = true <-> x = y.
Proof.
  unfold Qceqb. destruct (Qc_eq_dec x y); split; intro K;
    try reflexivity; try assumption; try discriminate; contradiction.
Qed.

Lemma Qceqb_false (x y : Qc) : Qceqb x y = false <-> x <> y.
Proof.
  unfold Qceqb. destruct (Qc_eq_dec x y); split; intro K;
    try reflexivity; try assumption; try discriminate; contradiction.
Qed.


Lemma bind_Ok_inv {A B : Type} (m : result A) (k : A -> result B) (b : B) :
  bind m k = Ok b -> exists a, m = Ok a /\ k a = Ok b.
Proof. destruct m as [a | e]; simpl; intro H; [eauto | discriminate]. Qed.

Lemma for_each_app {A S : Type} (body : S -> A -> result S) (xs ys : list A) (s : S) :
  for_each body (xs ++ ys) s = (s' <- for_each body xs s ;; for_each body ys s').
Proof.
  revert s. induction xs as [| x xs IH]; intro s; simpl; [reflexivity |].
  destruct (body s x) as [s' | e]; simpl; [apply IH | reflexivity].
Qed.

(** An invariant kept by every successful iteration holds at the end. *)
Lemma for_each_invariant {A S : Type} (P : S -> Prop) (body : S -> A -> result S)
      (xs : list A) :
  (forall s x s', In x xs -> P s -> body s x = Ok s' -> P s') ->
  forall s s', P s -> for_each body xs s = Ok s' -> P s'.
Proof.
  induction xs as [| x xs IH]; intros Hstep s s' Hs Hrun; simpl in Hrun.
  - injection Hrun as <-. exact Hs.
  - apply bind_Ok_inv in Hrun as (s1 & H1 & H2).
    apply (IH (fun s0 y s0' Hin => Hstep s0 y s0' (or_intror Hin)) s1 s'); [| exact H2].
    apply (Hstep s x s1); [left; reflexivity | exact Hs | exact H1].
Qed.

(* ================================================================== *)
(** * Properties of the preprocessing components *)

Module PreprocessFacts.

Import Preprocess.

(** ** Frames *)

Lemma getitem_setitem_same (df : DataFrame) (var : string) (d : dtype) (col : Series) :
  getitem (setitem df var d col) var = Ok col.
Proof.
  induction df as [| [name old] df IH]; simpl.
  - rewrite String.eqb_refl. reflexivity.
  - destruct (String.eqb name var) eqn:E; simpl; rewrite E; [reflexivity | exact IH].
Qed.

Lemma getitem_setitem_other (df : DataFrame) (var other : string) (d : dtype)
      (col : Series) :
  other <> var -> getitem (setitem df var d col) other = getitem df other.
Proof.
  intro Hne. induction df as [| [name old] df IH]; simpl.
  - destruct (String.eqb var other) eqn:E; [| reflexivity].
    apply String.eqb_eq in E. congruence.
  - destruct (String.eqb name var) eqn:E; simpl.
    + apply String.eqb_eq in E. subst name.
      destruct (String.eqb var other) eqn:E'; [| reflexivity].
      apply String.eqb_eq in E'. congruence.
    + rewrite IH. reflexivity.
Qed.

Lemma dtypes_setitem_same (df : DataFrame) (var : string) (d : dtype) (col : Series) :
  dtypes (setitem df var d col) var = Ok d.
Proof.
  induction df as [| [name old] df IH]; simpl.
  - rewrite String.eqb_refl. reflexivity.
  - destruct (String.eqb name var) eqn:E; simpl; rewrite E; [reflexivity | exact IH].
Qed.

Lemma dtypes_setitem_other (df : DataFrame) (var other : string) (d : dtype)
      (col : Series) :
  other <> var -> dtypes (setitem df var d col) other = dtypes df other.
Proof.
  intro Hne. induction df as [| [name old] df IH]; simpl.
  - destruct (String.eqb var other) eqn:E; [| reflexivity].
    apply String.eqb_eq in E. congruence.
  - destruct (String.eqb name var) eqn:E; simpl.
    + apply String.eqb_eq in E. subst name.
      destruct (String.eqb var other) eqn:E'; [| reflexivity].
      apply String.eqb_eq in E'. congruence.
    + rewrite IH. reflexivity.
Qed.

(** A column that can be read has a dtype, and the other way round. *)
Lemma getitem_dtypes (df : DataFrame) (var : string) (col : Series) :
  getitem df var = Ok col -> exists d, dtypes df var = Ok d.
Proof.
  induction df as [| [name [d old]] df IH]; simpl; [discriminate |].
  destruct (String.eqb name var); [eauto | exact IH].
Qed.

Lemma dtypes_getitem (df : DataFrame) (var : string) (d : dtype) :
  dtypes df var = Ok d -> exists col, getitem df var = Ok col.
Proof.
  induction df as [| [name [d' old]] df IH]; simpl; [discriminate |].
  destruct (String.eqb name var); [eauto | exact IH].
Qed.

Lemma setitem_same (df : DataFrame) (var : string) (d : dtype) (col : Series) :
  getitem df var = Ok col -> dtypes df var = Ok d -> setitem df var d col = df.
Proof.
  induction df as [| [name [d' old]] df IH]; simpl; [discriminate |].
  destruct (String.eqb name var) eqn:E.
  - intros H K. injection H as ->. injection K as ->. reflexivity.
  - intros H K. rewrite (IH H K). reflexivity.
Qed.

Lemma mem_In (x : string) (l : list string) : mem x l = true <-> In x l.
Proof.
  unfold mem. rewrite existsb_exists. split.
  - intros (y & Hy & E). apply String.eqb_eq in E. subst y. exact Hy.
  - intro H. exists x. split; [exact H | apply String.eqb_refl].
Qed.

Lemma in_split_first (x : string) (l : list string) :
  In x l -> exists l1 l2, l = (l1 ++ x :: l2)%list /\ ~ In x l1.
Proof.
  induction l as [| y l IH]; intro H; [contradiction |].
  destruct (string_dec y x) as [-> | Hne].
  - exists [], l. split; [reflexivity | intros []].
  - destruct H as [-> | H]; [congruence |].
    destruct (IH H) as (l1 & l2 & -> & Hnot).
    exists (y :: l1), l2. split; [reflexivity |].
    intros [E | Hin]; [congruence | contradiction].
Qed.

Lemma mapM_Forall2 {A B : Type} (f : A -> result B) (xs : list A) (ys : list B) :
  mapM f xs = Ok ys -> Forall2 (fun x y => f x = Ok y) xs ys.
Proof.
  revert ys. induction xs as [| x xs IH]; intros ys H; simpl in H.
  - injection H as <-. constructor.
  - apply bind_Ok_inv in H as (y & Hy & H).
    apply bind_Ok_inv in H as (ys' & Hys & H).
    injection H as <-. constructor; [exact Hy | apply IH; exact Hys].
Qed.

Lemma Forall2_np_where (P : value -> value -> Prop) (test : value -> result bool)
      (c : value) (s : Series) (mask : list bool) :
  mapM test s = Ok mask ->
  (forall v, test v = Ok true -> P v c) ->
  (forall v, test v = Ok false -> P v v) ->
  Forall2 P s (np_where mask c s).
Proof.
  intros Hmask Hyes Hno. apply mapM_Forall2 in Hmask.
  unfold np_where.
  induction Hmask as [| v b s mask Hv _ IH]; simpl; constructor; [| exact IH].
  destruct b; [apply Hyes | apply Hno]; exact Hv.
Qed.

Lemma Forall2_nth_error {A B : Type} (P : A -> B -> Prop) (l : list A) (l' : list B) :
  Forall2 P l l' ->
  forall i x, nth_error l i = Some x -> exists y, nth_error l' i = Some y /\ P x y.
Proof.
  induction 1 as [| a b l l' Hab _ IH]; intros [| i] x Hx; simpl in *; try discriminate.
  - injection Hx as <-. eauto.
  - apply IH. exact Hx.
Qed.

Lemma Forall2_map_left {A B C : Type} (P : B -> C -> Prop) (f : A -> B)
      (l : list A) (l' : list C) :
  Forall2 P (map f l) l' <-> Forall2 (fun a c => P (f a) c) l l'.
Proof.
  revert l'. induction l as [| a l IH]; intros l'; simpl; split; intro H;
    inversion H; subst; constructor; try assumption; apply IH; assumption.
Qed.

(** ** Floats *)

(** The finite numbers are those between the two largest doubles. *)
Lemma overflow_cases (x : Qc) :
  (overflow x = Infinite false /\ (max_float < x)%Qc)
  \/ (overflow x = Infinite true /\ (x < - max_float)%Qc)
  \/ (overflow x = Finite x /\ (- max_float <= x)%Qc /\ (x <= max_float)%Qc).
Proof.
  unfold overflow.
  destruct (Qcltb max_float x) eqn:E1.
  - left. split; [reflexivity | apply Qcltb_true; exact E1].
  - destruct (Qcltb x (- max_float)) eqn:E2.
    + right. left. split; [reflexivity | apply Qcltb_true; exact E2].
    + right. right. split; [reflexivity |].
      split; [apply Qcltb_false; exact E2 | apply Qcltb_false; exact E1].
Qed.


Lemma overflow_not_NaN (x : Qc) : overflow x <> NaN.
Proof.
  destruct (overflow_cases x) as [[-> _] | [[-> _] | [-> _]]]; discriminate.
Qed.


Lemma max_float_positive : (0 < max_float)%Qc.
Proof. apply Qcltb_true. vm_compute. reflexivity. Qed.



Lemma float_lt_irrefl (x : float) : float_lt x x = false.
Proof.
  destruct x as [q | [|] |]; simpl; try reflexivity.
  apply Qcltb_false. apply Qcle_refl.
Qed.

(** The conversion of an integer to a float is exact up to [2^53]. *)
Lemma float64_of_Z_small (z : Z) :
  (Z.abs z <= 2 ^ 53)%Z -> float64_of_Z z = z.
Proof.
  intro Hz. unfold float64_of_Z.
  destruct (Z.leb_spec (Z.log2 (Z.abs z) - 52) 0) as [_ | He]; [reflexivity |].
  assert (Hpos : (0 < Z.abs z)%Z).
  { destruct (Z.eq_dec (Z.abs z) 0) as [E | Hne]; [rewrite E in He; simpl in He; lia |].
    pose proof (Z.abs_nonneg z). lia. }
  assert (Hlog : Z.log2 (Z.abs z) = 53%Z).
  { pose proof (Z.log2_le_mono _ _ Hz) as H.
    change (Z.log2 (2 ^ 53)) with 53%Z in H. lia. }
  assert (Habs : Z.abs z = (2 ^ 53)%Z).
  { pose proof (Z.log2_spec _ Hpos) as [H _]. rewrite Hlog in H. lia. }
  rewrite Habs.
  change (Z.sgn z * 2 ^ 53 = z)%Z.
  rewrite <- Habs, Z.mul_comm. apply Z.abs_sgn.
Qed.

Lemma qz_parts (z : Z) : Qnum (qz z) = z /\ Qden (qz z) = 1%positive.
Proof.
  assert (E : Qred (inject_Z z) = inject_Z z).
  { apply Qred_identity. simpl. apply Z.gcd_1_r. }
  unfold qz, Q2Qc. cbn [this]. rewrite E. split; reflexivity.
Qed.

(** The conversion of the cells of a column. *)
Lemma as_float64_other (d : dtype) (v : value) : d <> int64 -> as_float64 d v = v.
Proof. intro H. destruct d; try reflexivity. contradiction. Qed.

Lemma as_float64_float_dtype (d : dtype) (v : value) : as_float64 (float_dtype d) v = v.
Proof. destruct d; reflexivity. Qed.

Lemma float_dtype_idem (d : dtype) : float_dtype (float_dtype d) = float_dtype d.
Proof. destruct d; reflexivity. Qed.

Lemma as_float64_integer (z : Z) :
  as_float64 int64 (Num (qz z)) = Num (qz (float64_of_Z z)).
Proof.
  unfold as_float64. destruct (qz_parts z) as [-> ->]. reflexivity.
Qed.

Lemma as_float64_small_integer (z : Z) :
  (Z.abs z <= 2 ^ 53)%Z -> as_float64 int64 (Num (qz z)) = Num (qz z).
Proof. intro H. rewrite as_float64_integer, float64_of_Z_small by exact H. reflexivity. Qed.

Lemma as_float64_float (d : dtype) (x : float) :
  exists x', as_float64 d (Flt x) = Flt x'.
Proof.
  destruct d; try (exists x; reflexivity).
  destruct x as [q | s |]; try (eexists; reflexivity).
  unfold as_float64. destruct (Pos.eqb (Qden q) 1); eexists; reflexivity.
Qed.

Lemma as_float64_null (d : dtype) (v : value) :
  isnull v = true -> as_float64 d v = v.
Proof.
  destruct d; try reflexivity.
  destruct v as [[q | s |] | str |]; simpl; intro H; try discriminate; reflexivity.
Qed.

Lemma as_float64_string (d : dtype) (s : string) : as_float64 d (Str s) = Str s.
Proof. destruct d; reflexivity. Qed.

(** ** Cap *)

(** What [Cap.apply] does to one cell, as it is read, given the fitted
    cap. *)
Inductive capped (cap : float) : value -> value -> Prop :=
| capped_above (x : float) : float_lt cap x = true -> capped cap (Flt x) (Flt cap)
| capped_within (x : float) : float_lt cap x = false -> capped cap (Flt x) (Flt x)
| capped_none : capped cap PyNone PyNone.

Lemma capped_once (cap : float) (s : Series) (mask : list bool) :
  series_gt s cap = Ok mask -> Forall2 (capped cap) s (np_where mask (Flt cap) s).
Proof.
  intro H. apply (Forall2_np_where (capped cap) (gt_cell cap)); [exact H | |].
  - intros [x | str |] Hv; simpl in Hv; try discriminate.
    injection Hv as Hv. constructor. exact Hv.
  - intros [x | str |] Hv; simpl in Hv; try discriminate.
    + injection Hv as Hv. constructor. exact Hv.
    + constructor.
Qed.

(** Capping a capped column changes nothing more. *)
Lemma capped_again (cap : float) (a b c : value) :
  capped cap a b -> capped cap b c -> capped cap a c.
Proof.
  intros Hab Hbc. destruct Hab; inversion Hbc; subst; constructor; assumption.
Qed.

Lemma Forall2_capped_again (cap : float) (s1 s2 s3 : Series) :
  Forall2 (capped cap) s1 s2 -> Forall2 (capped cap) s2 s3 ->
  Forall2 (capped cap) s1 s3.
Proof.
  intro H. revert s3. induction H as [| a b s1 s2 Hab _ IH]; intros s3 H23;
    inversion H23; subst; constructor.
  - eapply capped_again; eassumption.
  - apply IH. assumption.
Qed.

Section CapFacts.

Variable L : Library.
Variable self : component.
Variable var : string.
Variable cap : float.
Variable fitted : value.
Hypothesis reference_has_cap :
  first_where (reference self) "Cap_Value" Cap_Value var = Ok fitted.
Hypothesis cap_is_float : py_float L fitted = Ok cap.

Let body := fun (df : DataFrame) (v : string) =>
  x <- first_where (reference self) "Cap_Value" Cap_Value v ;;
  cap_value <- py_float L x ;;
  if isnull (Flt cap_value) then Raise (ValueError (NotFoundCap v))
  else
    col <- getitem df v ;;
    d <- dtypes df v ;;
    let col := map (as_float64 d) col in
    mask <- series_gt col cap_value ;;
    Ok (setitem df v (float_dtype d) (np_where mask (Flt cap_value) col)).

Lemma Cap_body_var (df df' : DataFrame) (d : dtype) (col : Series) :
  getitem df var = Ok col -> dtypes df var = Ok d -> body df var = Ok df' ->
  exists col',
    getitem df' var = Ok col' /\ dtypes df' var = Ok (float_dtype d) /\
    Forall2 (capped cap) (map (as_float64 d) col) col'.
Proof.
  intros Hcol Hd Hrun. unfold body in Hrun.
  rewrite reference_has_cap in Hrun. cbn [bind] in Hrun.
  rewrite cap_is_float in Hrun. cbn [bind] in Hrun.
  destruct (isnull (Flt cap)); [discriminate |].
  rewrite Hcol in Hrun. cbn [bind] in Hrun. rewrite Hd in Hrun. cbn [bind] in Hrun.
  apply bind_Ok_inv in Hrun as (mask & Hmask & Hrun). injection Hrun as <-.
  eexists. split; [apply getitem_setitem_same |].
  split; [apply dtypes_setitem_same | apply capped_once; exact Hmask].
Qed.

Lemma Cap_body_other (df df' : DataFrame) (v : string) :
  v <> var -> body df v = Ok df' ->
  getitem df' var = getitem df var /\ dtypes df' var = dtypes df var.
Proof.
  intros Hne Hrun. unfold body in Hrun.
  apply bind_Ok_inv in Hrun as (x & _ & Hrun).
  apply bind_Ok_inv in Hrun as (c & _ & Hrun).
  destruct (isnull (Flt c)); [discriminate |].
  apply bind_Ok_inv in Hrun as (col & _ & Hrun).
  apply bind_Ok_inv in Hrun as (d & _ & Hrun).
  apply bind_Ok_inv in Hrun as (mask & _ & Hrun). injection Hrun as <-.
  split; [apply getitem_setitem_other | apply dtypes_setitem_other]; congruence.
Qed.

(** The state of the column once it has been capped: it has the dtype of
    the combination, and its cells are those read from [col0], capped. *)
Definition capped_column (d0 : dtype) (col0 : Series) (df : DataFrame) : Prop :=
  exists c, getitem df var = Ok c /\ dtypes df var = Ok (float_dtype d0)
            /\ Forall2 (capped cap) (map (as_float64 d0) col0) c.

(** Once the column is capped it stays capped, whatever the rest of the
    loop does. *)
Lemma Cap_loop_keeps (d0 : dtype) (col0 : Series) (l : list string)
      (df df' : DataFrame) :
  capped_column d0 col0 df -> for_each body l df = Ok df' -> capped_column d0 col0 df'.
Proof.
  intros Hstart Hrun.
  apply (for_each_invariant (capped_column d0 col0) body l) with (s := df);
    [| exact Hstart | exact Hrun].
  intros d v d' _ (c & Hc & Hd & Hcap) Hstep.
  destruct (string_dec v var) as [-> | Hne].
  - destruct (Cap_body_var d d' _ c Hc Hd Hstep) as (c' & Hc' & Hd' & Hcap').
    exists c'. split; [exact Hc' |]. split; [rewrite Hd', float_dtype_idem; reflexivity |].
    eapply Forall2_capped_again; [exact Hcap |].
    rewrite (map_ext _ (fun v => v)) in Hcap'
      by (intro; apply as_float64_float_dtype).
    rewrite map_id in Hcap'. exact Hcap'.
  - destruct (Cap_body_other d d' v Hne Hstep) as [E1 E2].
    exists c. rewrite E1, E2. auto.
Qed.

Lemma Cap_loop_before (d0 : dtype) (col : Series) (l : list string)
      (df df' : DataFrame) :
  ~ In var l -> getitem df var = Ok col -> dtypes df var = Ok d0 ->
  for_each body l df = Ok df' ->
  getitem df' var = Ok col /\ dtypes df' var = Ok d0.
Proof.
  intros Hnot Hcol Hd Hrun.
  apply (for_each_invariant
           (fun d => getitem d var = Ok col /\ dtypes d var = Ok d0) body l)
    with (s := df); [| split; assumption | exact Hrun].
  intros d v d' Hin [Hc Hdt] Hstep.
  destruct (Cap_body_other d d' v) as [E1 E2]; [| exact Hstep |].
  - intros ->. contradiction.
  - rewrite E1, E2. auto.
Qed.

Lemma Cap_apply_column (df df' : DataFrame) (d : dtype) (col : Series) :
  In var (apply_list self) ->
  getitem df var = Ok col -> dtypes df var = Ok d ->
  Cap_apply L self df = Ok df' ->
  capped_column d col df'.
Proof.
  intros Hin Hcol Hd Hrun. unfold Cap_apply in Hrun. fold body in Hrun.
  destruct (in_split_first var (apply_list self) Hin) as (l1 & l2 & Hsplit & Hfirst).
  rewrite Hsplit in Hrun. rewrite for_each_app in Hrun.
  apply bind_Ok_inv in Hrun as (d1 & H1 & Hrun). simpl in Hrun.
  apply bind_Ok_inv in Hrun as (d2 & H2 & Hrun).
  destruct (Cap_loop_before d col l1 df d1 Hfirst Hcol Hd H1) as [Hc1 Hd1].
  apply (Cap_loop_keeps d col l2 d2 df'); [| exact Hrun].
  exact (Cap_body_var d1 d2 d col Hc1 Hd1 H2).
Qed.

End CapFacts.

(** [Cap.apply] returns when every variable of the apply list has a fitted
    cap that is a float other than NaN and a column without string
    cells. *)
Definition numeric (v : value) : Prop :=
  match v with Str _ => False | _ => True end.

Lemma numeric_as_float64 (d : dtype) (v : value) : numeric v -> numeric (as_float64 d v).
Proof.
  destruct v as [x | s |]; simpl; intro H; try contradiction.
  - destruct (as_float64_float d x) as (x' & ->). exact I.
  - rewrite as_float64_null by reflexivity. exact I.
Qed.

Lemma series_gt_numeric (s : Series) (c : float) :
  Forall numeric s ->
  exists mask, series_gt s c = Ok mask /\ Forall numeric (np_where mask (Flt c) s).
Proof.
  unfold series_gt, np_where.
  induction 1 as [| v s Hv _ (mask & Hmask & Hall)]; simpl.
  - exists []. split; [reflexivity | constructor].
  - destruct v as [x | str |]; simpl in *; try contradiction; rewrite Hmask; simpl.
    + eexists. split; [reflexivity |]. constructor; [| exact Hall].
      simpl. destruct (float_lt c x); exact I.
    + eexists. split; [reflexivity |]. constructor; [exact I | exact Hall].
Qed.

Lemma for_each_returns {A S : Type} (P : S -> Prop) (body : S -> A -> result S)
      (xs : list A) :
  (forall s x, In x xs -> P s -> exists s', body s x = Ok s' /\ P s') ->
  forall s, P s -> exists s', for_each body xs s = Ok s' /\ P s'.
Proof.
  induction xs as [| x xs IH]; intros Hstep s Hs; simpl; [eauto |].
  destruct (Hstep s x (or_introl eq_refl) Hs) as (s1 & -> & Hs1). simpl.
  apply IH; [| exact Hs1]. intros s0 y Hy. apply Hstep. right. exact Hy.
Qed.

Lemma Cap_apply_returns (L : Library) (self : component) (df : DataFrame) :
  (forall v, In v (apply_list self) ->
             exists fitted cap,
               first_where (reference self) "Cap_Value" Cap_Value v = Ok fitted /\
               py_float L fitted = Ok cap /\ cap <> NaN) ->
  (forall v, In v (apply_list self) ->
             exists col, getitem df v = Ok col /\ Forall numeric col) ->
  exists df', Cap_apply L self df = Ok df'.
Proof.
  intros Hcaps Hcols. unfold Cap_apply.
  destruct (for_each_returns
              (fun d => forall v, In v (apply_list self) ->
                                  exists col, getitem d v = Ok col /\ Forall numeric col)
              (fun d v =>
                 x <- first_where (reference self) "Cap_Value" Cap_Value v ;;
                 cap_value <- py_float L x ;;
                 if isnull (Flt cap_value) then Raise (ValueError (NotFoundCap v))
                 else
                   col <- getitem d v ;;
                   dt <- dtypes d v ;;
                   let col := map (as_float64 dt) col in
                   mask <- series_gt col cap_value ;;
                   Ok (setitem d v (float_dtype dt)
                               (np_where mask (Flt cap_value) col)))
              (apply_list self)) with (s := df) as (df' & Hrun & _);
    [| exact Hcols | exists df'; exact Hrun].
  intros d v Hv Hd.
  destruct (Hcaps v Hv) as (fitted & cap & -> & Hcap & Hnan). cbn [bind].
  rewrite Hcap. cbn [bind].
  assert (Hnull : isnull (Flt cap) = false)
    by (destruct cap; [reflexivity | reflexivity | contradiction Hnan; reflexivity]).
  rewrite Hnull.
  destruct (Hd v Hv) as (col & Hcol & Hnum). rewrite Hcol. cbn [bind].
  destruct (getitem_dtypes d v col Hcol) as (dt & ->). cbn [bind].
  assert (Hnum' : Forall numeric (map (as_float64 dt) col)).
  { apply Forall_map. eapply Forall_impl; [| exact Hnum].
    intro a. apply numeric_as_float64. }
  destruct (series_gt_numeric _ cap Hnum') as (mask & -> & Hres). cbn [bind].
  eexists. split; [reflexivity |].
  intros u Hu. destruct (string_dec u v) as [-> | Hne].
  - rewrite getitem_setitem_same. eauto.
  - rewrite getitem_setitem_other by exact Hne. apply Hd. exact Hu.
Qed.

(** A library instance to run the model on concrete tables: the order
    statistics answer NaN, [float] reads no string, the engine returns
    empty tables, and the two substitutions write the prefixed column with
    the weight of the first reference row (missing when there is none). *)
Definition sample_library : Library :=
  {| quantile := fun _ _ => NA;
     median := fun _ => NA;
     mode := fun s => s;
     std := fun _ => NA;
     float_of_string := fun _ => None;
     parse_bins := fun _ => None;
     str_convert := fun v => v;
     numwoe_aptbinning := fun _ _ _ _ => [];
     numwoe_autobinning := fun _ _ _ => [];
     catwoe_autobinning := fun _ _ _ => [];
     numwoe_apply := fun df ref var =>
       setitem df ("nwoe_" ++ var) float64
         (match getitem df var with
          | Ok col => map (fun _ => match ref with r :: _ => Ref_Value r | [] => NA end) col
          | Raise _ => []
          end);
     catwoe_apply := fun df ref var =>
       setitem df ("cwoe_" ++ var) float64
         (match getitem df var with
          | Ok col => map (fun _ => match ref with r :: _ => Ref_Value r | [] => NA end) col
          | Raise _ => []
          end) |}.

Definition full_header : list string :=
  ["Var_Name"; "Var_Type"; "Ind_Model"; "Ind_Cap"; "Cap_Value"; "Ind_Floor";
   "Floor_Value"; "Missing_Impute"; "Ind_WOE"; "WOE_Bin"; "Ind_Norm"; "Ind_Scale"].

(** A numerical in-model variable with every transformation switched off. *)
Definition plain_row (name : string) : config_row :=
  {| Var_Name := name; Var_Type := "numerical"; Ind_Model := 1;
     Ind_Cap := 0; Cap_Value := NA; Ind_Floor := 0; Floor_Value := NA;
     Missing_Impute := NA; Ind_WOE := 0; WOE_Bin := NA; Ind_Norm := 0; Ind_Scale := 0;
     Mean := NA; Std := NA; Min := NA; Max := NA |}.

Lemma float_lt_NaN (c : float) : float_lt c NaN = false.
Proof. destruct c as [q | [|] |]; reflexivity. Qed.

(** C6 (amended): let [var] be a variable of Cap's apply list whose fitted
    cap reads as the float [cap], and let its column have the dtype [d].
    When [Cap.apply] returns, the cap is not NaN, and the column has become
    a float column (an object column stays one).  A cell that is a float is
    first read as NumPy combines it with the cap, and then replaced by the
    cap when what was read exceeds it; NaN and [None] stay as they are.
    What is read is the cell itself in every column but an int64 one, and
    there for every integer of at most [2^53] in absolute value; a larger
    integer is read as the nearest float.  So for a finite cap a number
    that is read as itself is left alone when it is at most the cap, and
    becomes the cap when it is above. *)
Theorem Cap_apply_clamps (L : Library) (self : component) (var : string)
        (fitted : value) (cap : float) (df df' : DataFrame) (d : dtype)
        (col : Series) :
  In var (apply_list self) ->
  first_where (reference self) "Cap_Value" Cap_Value var = Ok fitted ->
  py_float L fitted = Ok cap ->
  getitem df var = Ok col ->
  dtypes df var = Ok d ->
  Cap_apply L self df = Ok df' ->
  cap <> NaN
  /\ exists col',
      getitem df' var = Ok col' /\
      dtypes df' var = Ok (float_dtype d) /\
      List.length col' = List.length col /\
      (forall i x, nth_error col i = Some (Flt x) ->
         exists x', as_float64 d (Flt x) = Flt x' /\
                    nth_error col' i = Some (Flt (if float_lt cap x' then cap else x'))) /\
      (forall i, nth_error col i = Some NA -> nth_error col' i = Some NA) /\
      (forall i, nth_error col i = Some PyNone -> nth_error col' i = Some PyNone) /\
      (d <> int64 -> forall v, as_float64 d v = v) /\
      (forall z, as_float64 int64 (Num (qz z)) = Num (qz (float64_of_Z z))) /\
      (forall z, (Z.abs z <= 2 ^ 53)%Z -> float64_of_Z z = z) /\
      (forall i q c, cap = Finite c -> nth_error col i = Some (Num q) ->
                     as_float64 d (Num q) = Num q ->
                     ((q <= c)%Qc -> nth_error col' i = Some (Num q)) /\
                     ((c < q)%Qc -> nth_error col' i = Some (Num c))).
Proof.
  intros Hin Href Hcap Hcol Hd Hrun.
  assert (Hnan : cap <> NaN).
  { intros ->. unfold Cap_apply in Hrun.
    destruct (in_split_first var (apply_list self) Hin) as (l1 & l2 & Hsplit & _).
    rewrite Hsplit, for_each_app in Hrun.
    apply bind_Ok_inv in Hrun as (d1 & _ & Hrun). simpl in Hrun.
    rewrite Href in Hrun. cbn [bind] in Hrun. rewrite Hcap in Hrun. discriminate. }
  split; [exact Hnan |].
  destruct (Cap_apply_column L self var cap fitted Href Hcap df df' d col Hin Hcol Hd Hrun)
    as (col' & Hcol' & Hd' & Hall).
  apply (proj1 (Forall2_map_left (capped cap) (as_float64 d) col col')) in Hall.
  assert (Hcell : forall i x, nth_error col i = Some (Flt x) ->
            exists x', as_float64 d (Flt x) = Flt x' /\
                       nth_error col' i
                       = Some (Flt (if float_lt cap x' then cap else x'))).
  { intros i x Hx.
    destruct (Forall2_nth_error _ _ _ Hall i _ Hx) as (y & Hy & Hc).
    destruct (as_float64_float d x) as (x' & Ex). exists x'. split; [exact Ex |].
    rewrite Ex in Hc. inversion Hc; subst.
    - rewrite H0. exact Hy.
    - rewrite H0. exact Hy. }
  exists col'. split; [exact Hcol' |]. split; [exact Hd' |]. split.
  { symmetry. eapply Forall2_length. exact Hall. }
  split; [exact Hcell |]. split.
  { intros i Hna. destruct (Hcell i NaN Hna) as (x' & Ex & Hy).
    rewrite as_float64_null in Ex by reflexivity. injection Ex as <-.
    rewrite float_lt_NaN in Hy. exact Hy. }
  split.
  { intros i Hnone.
    destruct (Forall2_nth_error _ _ _ Hall i _ Hnone) as (y & Hy & Hc).
    rewrite as_float64_null in Hc by reflexivity. inversion Hc; subst. exact Hy. }
  split; [intros Hne v; apply as_float64_other; exact Hne |].
  split; [exact as_float64_integer |].
  split; [exact float64_of_Z_small |].
  intros i q c -> Hq Hsame.
  destruct (Hcell i (Finite q) Hq) as (x' & Ex & Hy).
  rewrite Hsame in Ex. injection Ex as <-. simpl in Hy. split; intro Hord.
  - apply Qcltb_false in Hord. rewrite Hord in Hy. exact Hy.
  - apply Qcltb_true in Hord. rewrite Hord in Hy. exact Hy.
Qed.

Definition cap_example : component :=
  let t := {| header := full_header;
              rows := [set_Cap_Value (Num (qz 5)) (plain_row "x")] |} in
  {| config := t; reference := t; apply_list := ["x"] |}.

Lemma Cap_apply_clamps_witness :
  Finite (qz 5) <> NaN
  /\ exists col',
      getitem [("x", (float64, [Num (qz 3); Num (qz 5); Num (qz 5); NA]))] "x" = Ok col'
      /\ nth_error col' 1 = Some (Num (qz 5)).
Proof.
  destruct (Cap_apply_clamps sample_library cap_example "x" (Num (qz 5)) (Finite (qz 5))
              [("x", (float64, [Num (qz 3); Num (qz 9); Num (qz 5); NA]))]
              [("x", (float64, [Num (qz 3); Num (qz 5); Num (qz 5); NA]))]
              float64 [Num (qz 3); Num (qz 9); Num (qz 5); NA])
    as (Hnan & col' & Hcol' & _ & _ & Hcell & _).
  - simpl. left. reflexivity.
  - reflexivity.
  - reflexivity.
  - reflexivity.
  - reflexivity.
  - vm_compute. reflexivity.
  - split; [exact Hnan |]. exists col'. split; [exact Hcol' |].
    destruct (Hcell 1 (Finite (qz 9)) eq_refl) as (x' & Ex & Hy).
    injection Ex as <-. exact Hy.
Defined.

(** C6 as stated fails for a column of integers: with the cap [2^60], the
    integer [2^53 + 3] of an int64 column, which is below the cap, comes
    back as [2^53 + 4]. *)
Definition cap_large : component :=
  let t := {| header := full_header;
              rows := [set_Cap_Value (Num (qz (2 ^ 60))) (plain_row "x")] |} in
  {| config := t; reference := t; apply_list := ["x"] |}.

Lemma Cap_apply_increases_large_integer :
  (forall L : Library,
      Cap_apply L cap_large [("x", (int64, [Num (qz 9007199254740995)]))]
      = Ok [("x", (float64, [Num (qz 9007199254740996)]))])
  /\ first_where (reference cap_large) "Cap_Value" Cap_Value "x" = Ok (Num (qz (2 ^ 60)))
  /\ (qz 9007199254740995 <= qz (2 ^ 60))%Qc
  /\ (qz 9007199254740995 < qz 9007199254740996)%Qc
  /\ 9007199254740995%Z = (2 ^ 53 + 3)%Z.
Proof.
  split; [intro L; vm_compute; reflexivity |].
  split; [reflexivity |].
  split; [apply Qcltb_false; vm_compute; reflexivity |].
  split; [apply Qcltb_true; vm_compute; reflexivity | reflexivity].
Qed.

(** ** Floor *)

(** [Floor.apply] never writes to the frame: when it returns, it returns
    the frame it was given. *)
Lemma Floor_apply_identity (L : Library) (self : component) (df df' : DataFrame) :
  Floor_apply L self df = Ok df' -> df' = df.
Proof.
  unfold Floor_apply. intro Hrun.
  eapply (for_each_invariant (fun d => d = df)); [| reflexivity | exact Hrun].
  intros d v d' _ -> Hstep.
  apply bind_Ok_inv in Hstep as (x & _ & Hstep).
  apply bind_Ok_inv in Hstep as (c & _ & Hstep).
  destruct (isnull (Flt c)); [discriminate |].
  injection Hstep as <-. reflexivity.
Qed.

Definition floor_example : component :=
  let t := {| header := full_header;
              rows := [set_Floor_Value (Num 0%Qc) (plain_row "x")] |} in
  {| config := t; reference := t; apply_list := ["x"] |}.

(** C1: with the fitted floor 0 for [x], [Floor.apply] returns the column
    [-5, 3, missing] as it is: the value below the floor is not raised to
    the floor. *)
Theorem Floor_apply_does_not_clamp (L : Library) :
  Floor_apply L floor_example [("x", (float64, [Num (qz (-5)); Num (qz 3); NA]))]
  = Ok [("x", (float64, [Num (qz (-5)); Num (qz 3); NA]))]
  /\ first_where (reference floor_example) "Floor_Value" Floor_Value "x" = Ok (Num 0%Qc)
  /\ py_float L (Num 0%Qc) = Ok (Finite 0%Qc)
  /\ (qz (-5) < 0)%Qc.
Proof.
  repeat split.
Qed.

(** ** Scale *)


Lemma Forall2_impl {A B : Type} (P Q : A -> B -> Prop) (l1 : list A) (l2 : list B) :
  (forall a b, P a b -> Q a b) -> Forall2 P l1 l2 -> Forall2 Q l1 l2.
Proof. intros HPQ H. induction H; constructor; auto. Qed.



(** The same for a finite minimum and maximum whose difference is finite:
    the exact quotient decides. *)
Inductive scaled (lo hi : Qc) : value -> value -> Prop :=
| scaled_above (x : Qc) :
    (1 < (x - lo) / (hi - lo))%Qc -> scaled lo hi (Num x) (Num 1%Qc)
| scaled_below (x : Qc) :
    ((x - lo) / (hi - lo) < 0)%Qc -> scaled lo hi (Num x) (Num 0%Qc)
| scaled_within (x : Qc) :
    (0 <= (x - lo) / (hi - lo))%Qc -> ((x - lo) / (hi - lo) <= 1)%Qc ->
    scaled lo hi (Num x) (Num ((x - lo) / (hi - lo))%Qc)
| scaled_infinite (s : bool) :
    scaled lo hi (Inf s)
           (Num (if xorb s (Qcltb (hi - lo) 0%Qc) then 0%Qc else 1%Qc))
| scaled_missing : scaled lo hi NA NA.

(** A cell of a scaled column: NaN, or a number of [[0, 1]]. *)
Definition in_unit_interval (v : value) : Prop :=
  v = NA \/ exists y, v = Num y /\ (0 <= y)%Qc /\ (y <= 1)%Qc.

Lemma Qc_0_le_1 : (0 <= 1)%Qc.
Proof. apply Qcltb_false. reflexivity. Qed.





(** *** Quotients and their sign *)




Lemma Qcopp_lt_compat (x y : Qc) : (x < y)%Qc -> (- y < - x)%Qc.
Proof.
  intro H. apply (proj2 (Qclt_minus_iff (- y) (- x))).
  replace (- x + - - y)%Qc with (y + - x)%Qc by ring.
  apply (proj1 (Qclt_minus_iff x y)). exact H.
Qed.








Lemma scaled_in_unit_interval (lo hi : Qc) (a b : value) :
  scaled lo hi a b -> in_unit_interval b.
Proof.
  intros [x H | x H | x H0 H1 | s |]; [right | right | right | right | left; reflexivity].
  - exists 1%Qc. repeat split; [exact Qc_0_le_1 | apply Qcle_refl].
  - exists 0%Qc. repeat split; [apply Qcle_refl | exact Qc_0_le_1].
  - eexists. repeat split; assumption.
  - destruct (xorb s (Qcltb (hi - lo) 0)).
    + exists 0%Qc. repeat split; [apply Qcle_refl | exact Qc_0_le_1].
    + exists 1%Qc. repeat split; [exact Qc_0_le_1 | apply Qcle_refl].
Qed.




Section ScaleFacts.

Variable self : component.
Variable var name : string.
Variable lo hi : Qc.
Hypothesis fitted_min : first_where (reference self) "Min" Min var = Ok (Num lo).
Hypothesis fitted_max : first_where (reference self) "Max" Max var = Ok (Num hi).
Hypothesis column_of_var :
  forall prev, resolve_real_var (config self) var prev = Ok (Some name).







End ScaleFacts.


Definition scale_example : component :=
  let t := {| header := (full_header ++ ["Min"; "Max"])%list;
              rows := [set_Min_Max (Num 0%Qc) (Num (qz 10)) (plain_row "x")] |} in
  {| config := t; reference := t; apply_list := ["x"] |}.

Definition scale_example_input : DataFrame :=
  [("x", (float64, [Num (qz 5); Num (qz 20); Num (qz (-3)); NA]));
   ("y", (object, [Str "a"]))].





(** ** The checks before the divisions of Normalize and Scale *)

(** [never bad r]: the outcome [r] is not the exception [bad]. *)
Definition never {A : Type} (bad : exn) (r : result A) : Prop := r <> Raise bad.

Lemma never_Ok {A : Type} (bad : exn) (a : A) : never bad (Ok a).
Proof. discriminate. Qed.

Lemma never_bind {A B : Type} (bad : exn) (m : result A) (k : A -> result B) :
  never bad m -> (forall a, m = Ok a -> never bad (k a)) -> never bad (bind m k).
Proof.
  intros Hm Hk. destruct m as [a | e]; simpl; [apply Hk; reflexivity |].
  intro H. apply Hm. injection H as ->. reflexivity.
Qed.








Lemma never_number_of (bad : exn) (v : value) :
  bad <> TypeError BadOperand -> never bad (number_of v).
Proof. intros Hbad. destruct v; simpl; unfold never; congruence. Qed.

Lemma never_value_sub (bad : exn) (a b : value) :
  bad <> TypeError BadOperand -> never bad (value_sub a b).
Proof.
  intro Hbad. unfold value_sub.
  apply never_bind; [apply never_number_of; exact Hbad |]. intros x _.
  apply never_bind; [apply never_number_of; exact Hbad |]. intros y _.
  apply never_Ok.
Qed.


























(** ** Comparing computed tables

    Two numbers computed along different paths are equal as soon as their
    reduced fractions are: the comparison below decides equality of cells,
    columns and frames. *)

Definition float_eqb (a b : float) : bool :=
  match a, b with
  | Finite x, Finite y => Qceqb x y
  | Infinite s, Infinite s' => Bool.eqb s s'
  | NaN, NaN => true
  | _, _ => false
  end.

Definition value_eqb (a b : value) : bool :=
  match a, b with
  | Flt x, Flt y => float_eqb x y
  | Str s, Str s' => String.eqb s s'
  | PyNone, PyNone => true
  | _, _ => false
  end.

Definition dtype_eqb (a b : dtype) : bool :=
  match a, b with
  | float64, float64 | int64, int64 | bool_, bool_ | object, object => true
  | _, _ => false
  end.

Fixpoint Series_eqb (a b : Series) : bool :=
  match a, b with
  | [], [] => true
  | x :: a', y :: b' => value_eqb x y && Series_eqb a' b'
  | _, _ => false
  end.

Fixpoint DataFrame_eqb (a b : DataFrame) : bool :=
  match a, b with
  | [], [] => true
  | (n, (d, c)) :: a', (n', (d', c')) :: b' =>
      String.eqb n n' && dtype_eqb d d' && Series_eqb c c' && DataFrame_eqb a' b'
  | _, _ => false
  end.

Lemma float_eqb_eq (a b : float) : float_eqb a b = true -> a = b.
Proof.
  destruct a, b; simpl; intro H; try discriminate; try reflexivity.
  - apply Qceqb_true in H. congruence.
  - apply Bool.eqb_prop in H. congruence.
Qed.

Lemma value_eqb_eq (a b : value) : value_eqb a b = true -> a = b.
Proof.
  destruct a, b; simpl; intro H; try discriminate; try reflexivity.
  - apply float_eqb_eq in H. congruence.
  - apply String.eqb_eq in H. congruence.
Qed.

Lemma dtype_eqb_eq (a b : dtype) : dtype_eqb a b = true -> a = b.
Proof. destruct a, b; simpl; intro H; try discriminate; reflexivity. Qed.

Lemma Series_eqb_eq (a b : Series) : Series_eqb a b = true -> a = b.
Proof.
  revert b. induction a as [| x a IH]; intros [| y b] H; simpl in H;
    try discriminate; try reflexivity.
  apply andb_true_iff in H as [Hx Ha].
  apply value_eqb_eq in Hx. apply IH in Ha. congruence.
Qed.

Lemma DataFrame_eqb_eq (a b : DataFrame) : DataFrame_eqb a b = true -> a = b.
Proof.
  revert b. induction a as [| [n [d c]] a IH]; intros [| [n' [d' c']] b] H; simpl in H;
    try discriminate; try reflexivity.
  apply andb_true_iff in H as [H Ha]. apply andb_true_iff in H as [H Hc].
  apply andb_true_iff in H as [Hn Hd].
  apply String.eqb_eq in Hn. apply dtype_eqb_eq in Hd. apply Series_eqb_eq in Hc.
  apply IH in Ha. congruence.
Qed.

Lemma returns_frame (r : result DataFrame) (d : DataFrame) :
  match r with Ok d' => DataFrame_eqb d' d | Raise _ => false end = true ->
  r = Ok d.
Proof.
  destruct r as [d' | e]; intro H; [| discriminate].
  apply DataFrame_eqb_eq in H. congruence.
Qed.

Lemma returns_value (r : result value) (v : value) :
  match r with Ok v' => value_eqb v' v | Raise _ => false end = true ->
  r = Ok v.
Proof.
  destruct r as [v' | e]; intro H; [| discriminate].
  apply value_eqb_eq in H. congruence.
Qed.

(** ** Imputation by the mean, end to end *)

(** One numerical in-model variable [x] without cap, floor, WOE,
    normalisation or scaling, to be imputed by its mean. *)
Definition mean_config : Table :=
  {| header := full_header;
     rows := [set_Missing_Impute (Str "mean") (plain_row "x")] |}.

Definition mean_data : DataFrame :=
  [("x", (float64, [Num (qz 1); Num (qz 2); NA; Num (qz 4)]))].

Definition mean_imputed : DataFrame :=
  [("x", (float64, [Num (qz 1); Num (qz 2); Num (qfrac 7 3); Num (qz 4)]))].

(** C9: on the column [1, 2, missing, 4] with [Missing_Impute = 'mean'],
    [fit] resolves the imputation value to 7/3 and [apply] returns
    [1, 2, 7/3, 4]; this holds for the MissingImpute component on its own
    and for a Tactic whose process list is that component. *)
Theorem mean_imputation_end_to_end (L : Library) :
  (exists c fitted,
      MissingImpute_init mean_config None = Ok c /\
      MissingImpute_fit L c mean_data = Ok fitted /\
      first_where (reference fitted) "Missing_Impute" Missing_Impute "x"
      = Ok (Num (qfrac 7 3)) /\
      MissingImpute_apply L fitted mean_data = Ok mean_imputed)
  /\ (exists ref w',
         Tactic_fit L {| self := Tactic_init mean_config (Some [MissingImpute]) None None;
                         master := mean_data; trace := [] |}
         = (Ok ref, w') /\
         first_where ref "Missing_Impute" Missing_Impute "x" = Ok (Num (qfrac 7 3)) /\
         master w' = mean_data /\
         fst (Tactic_apply L w') = Ok mean_imputed).
Proof.
  split.
  - eexists. eexists. split; [reflexivity |]. split; [vm_compute; reflexivity |].
    split.
    + apply returns_value. vm_compute. reflexivity.
    + apply returns_frame. vm_compute. reflexivity.
  - eexists. eexists. split; [vm_compute; reflexivity |]. split; [| split].
    + apply returns_value. vm_compute. reflexivity.
    + reflexivity.
    + apply returns_frame. vm_compute. reflexivity.
Qed.

(** ** Woe *)





Section EngineLoop.

Variable apply_one : DataFrame -> WoeTable -> string -> DataFrame.
Variable prefix : string.
Variable rows_for : string -> WoeTable.
Hypothesis writes :
  forall df ref v c,
    In c (columns (apply_one df ref v)) <-> In c (columns df) \/ c = prefix ++ v.





End EngineLoop.







Definition woe_example (ref : WoeTable) : woe_component :=
  {| w_config := {| header := full_header;
                    rows := [plain_row "x"; plain_row "y"; plain_row "z"] |};
     w_reference := Some ref;
     w_target := Some "target";
     w_apply_list := ["x"; "z"] |}.




(** A reference table without rows: [Woe.apply] raises although a
    reference table is present. *)
Lemma Woe_apply_empty_reference (L : Library) (df : DataFrame) :
  Woe_apply L (woe_example []) df = Raise (KeyError "Var_Name").
Proof. reflexivity. Qed.

(** ** Tactic *)

(** The loop over the imputation tokens never counts an error: the object
    it tests is a Series, whose type is not [str]. *)
Lemma imputation_loop_counts_nothing (cfg : Table) (vars : list string) (cnt : Z) :
  has_column cfg "Missing_Impute" = true ->
  for_each
    (fun cnt var =>
       col <- column cfg "Missing_Impute" Missing_Impute ;;
       let impute_value := ObjSeries (map Missing_Impute (rows_of cfg var)) in
       if type_is_str impute_value && not_mean_median impute_value
       then Ok (cnt + 1)%Z else Ok cnt)
    vars cnt
  = Ok cnt.
Proof.
  intro Hcol. induction vars as [| v vars IH]; simpl; [reflexivity |].
  unfold column at 1. rewrite Hcol. simpl. exact IH.
Qed.

Definition bad_token_config : Table :=
  {| header := full_header;
     rows := [set_Missing_Impute (Str "abc") (plain_row "x")] |}.

(** C3: for the numerical variable [x] with [Missing_Impute = 'abc'],
    present in the frame with a numeric column, [check_config_file]
    returns 0: the string that is neither [mean] nor [median] adds no
    error to the count. *)
Theorem check_config_file_accepts_bad_token :
  check_config_file (Tactic_init bad_token_config None None None)
                    [("x", (float64, [Num (qz 1); Num (qz 2)]))]
  = Ok 0%Z
  /\ first_where bad_token_config "Var_Type" Var_Type "x" = Ok "numerical"
  /\ first_where bad_token_config "Missing_Impute" Missing_Impute "x" = Ok (Str "abc")
  /\ mem "abc" ["mean"; "median"] = false.
Proof. repeat split. Qed.

(** C7: when [check_config_file] reports an error, [Tactic.fit] raises,
    and nothing has changed: no component method has been called, the
    caller's frame and the orchestrator, its reference table included, are
    as before. *)
Theorem Tactic_fit_rejects_config_errors (L : Library) (w : world) (n : Z) :
  check_config_file (self w) (master w) = Ok n ->
  (0 < n)%Z ->
  Tactic_fit L w = (Raise (TypeError MustPassConfigCheck), w)
  /\ trace (snd (Tactic_fit L w)) = trace w
  /\ master (snd (Tactic_fit L w)) = master w
  /\ t_reference (self (snd (Tactic_fit L w))) = t_reference (self w).
Proof.
  intros Hcheck Hn.
  assert (E : Tactic_fit L w = (Raise (TypeError MustPassConfigCheck), w)).
  { unfold Tactic_fit. rewrite Hcheck.
    apply Z.ltb_lt in Hn. rewrite Hn. reflexivity. }
  rewrite E. repeat split.
Qed.

(** A categorical variable with the cap switched on: one error. *)
Definition capped_category_world : world :=
  {| self :=
       Tactic_init
         {| header := full_header;
            rows := [mk_row "x" "categorical" 1 1 NA 0 NA NA 0 NA 0 0 NA NA NA NA] |}
         (Some [Cap; MissingImpute]) None None;
     master := [("x", (object, [Str "a"; Str "b"]))];
     trace := [] |}.

Lemma Tactic_fit_rejects_config_errors_witness :
  check_config_file (self capped_category_world) (master capped_category_world) = Ok 1%Z
  /\ Tactic_fit sample_library capped_category_world
     = (Raise (TypeError MustPassConfigCheck), capped_category_world).
Proof.
  split; [reflexivity |].
  apply (Tactic_fit_rejects_config_errors sample_library capped_category_world 1%Z);
    [reflexivity | reflexivity].
Defined.

(** Without a configuration error the components do run: each one is
    fitted, then applied. *)
Lemma Tactic_fit_calls_components (L : Library) :
  trace (snd (Tactic_fit L {| self := Tactic_init mean_config
                                        (Some [Cap; MissingImpute]) None None;
                              master := mean_data; trace := [] |}))
  = [FitCalled Cap; ApplyCalled Cap; FitCalled MissingImpute; ApplyCalled MissingImpute].
Proof. vm_compute. reflexivity. Qed.

(** ** More on Cap *)

(** A cell that a cap leaves alone. *)
Definition within (cap : float) (v : value) : Prop :=
  match v with
  | Flt x => float_lt cap x = false
  | PyNone => True
  | Str _ => False
  end.

Lemma capped_gives_within (cap : float) (a b : value) : capped cap a b -> within cap b.
Proof. intros [x H | x H |]; simpl; [apply float_lt_irrefl | exact H | exact I]. Qed.

Lemma Forall2_capped_within (cap : float) (s s' : Series) :
  Forall2 (capped cap) s s' -> Forall (within cap) s'.
Proof.
  induction 1 as [| a b s s' Hab _ IH]; constructor; [| exact IH].
  eapply capped_gives_within. exact Hab.
Qed.

Lemma cap_within_unchanged (cap : float) (s : Series) :
  Forall (within cap) s ->
  exists mask, series_gt s cap = Ok mask /\ np_where mask (Flt cap) s = s.
Proof.
  unfold series_gt, np_where.
  induction 1 as [| v s Hv _ (mask & Hmask & Hsame)]; simpl.
  - exists []. split; reflexivity.
  - destruct v as [x | str |]; simpl in Hv; try contradiction; simpl; rewrite Hmask; simpl.
    + rewrite Hv. eexists. split; [reflexivity |].
      simpl. rewrite Hsame. reflexivity.
    + eexists. split; [reflexivity |]. simpl. rewrite Hsame. reflexivity.
Qed.

(** After a successful [Cap.apply] every variable of the apply list has a
    cap in the reference table that is not NaN, and a float or object
    column within that cap. *)
Lemma Cap_apply_result_within (L : Library) (self : component) (df df' : DataFrame)
      (v : string) :
  Cap_apply L self df = Ok df' -> In v (apply_list self) ->
  exists fitted cap col d,
    first_where (reference self) "Cap_Value" Cap_Value v = Ok fitted /\
    py_float L fitted = Ok cap /\ isnull (Flt cap) = false /\
    getitem df' v = Ok col /\ dtypes df' v = Ok d /\ float_dtype d = d /\
    Forall (within cap) col.
Proof.
  intros Hrun Hin. unfold Cap_apply in Hrun.
  destruct (in_split_first v (apply_list self) Hin) as (l1 & l2 & Hsplit & _).
  rewrite Hsplit, for_each_app in Hrun.
  apply bind_Ok_inv in Hrun as (d1 & _ & Hrun). cbn [for_each] in Hrun.
  apply bind_Ok_inv in Hrun as (d2 & Hstep & Hrest).
  pose proof Hstep as Hstep'.
  apply bind_Ok_inv in Hstep' as (fitted & Hfit & Hstep').
  apply bind_Ok_inv in Hstep' as (cap & Hcap & Hstep').
  destruct (isnull (Flt cap)) eqn:Hnull; [discriminate |].
  apply bind_Ok_inv in Hstep' as (col1 & Hcol1 & Hstep').
  apply bind_Ok_inv in Hstep' as (dt & Hdt & _).
  exists fitted, cap.
  destruct (Cap_loop_keeps L self v cap fitted Hfit Hcap dt col1 l2 d2 df')
    as (c & Hc & Hd & Hall).
  - apply (Cap_body_var L self v cap fitted Hfit Hcap d1 d2 dt col1 Hcol1 Hdt Hstep).
  - exact Hrest.
  - exists c, (float_dtype dt). repeat split; try assumption.
    + apply float_dtype_idem.
    + eapply Forall2_capped_within. exact Hall.
Qed.

(** X6: [Cap.apply] can be replayed: applied to the frame it returned, it
    returns that frame again. *)
Theorem Cap_apply_idempotent (L : Library) (self : component) (df df' : DataFrame) :
  Cap_apply L self df = Ok df' -> Cap_apply L self df' = Ok df'.
Proof.
  intro Hrun.
  pose proof (fun v => Cap_apply_result_within L self df df' v Hrun) as Hall.
  unfold Cap_apply. clear Hrun.
  induction (apply_list self) as [| v l IH]; [reflexivity |].
  cbn [for_each].
  destruct (Hall v (or_introl eq_refl))
    as (fitted & cap & col & d & -> & Hcap & Hnull & Hcol & Hd & Hfloat & Hwithin).
  cbn [bind]. rewrite Hcap. cbn [bind]. rewrite Hnull, Hcol. cbn [bind].
  rewrite Hd. cbn [bind].
  rewrite (map_ext (as_float64 d) (fun x => x))
    by (intro x; rewrite <- Hfloat; apply as_float64_float_dtype).
  rewrite map_id.
  destruct (cap_within_unchanged cap col Hwithin) as (mask & Hmask & Hsame).
  rewrite Hmask. cbn [bind]. rewrite Hsame, Hfloat, (setitem_same df' v d col Hcol Hd).
  apply IH. intros u Hu. apply Hall. right. exact Hu.
Qed.

Lemma Cap_apply_idempotent_witness :
  Cap_apply sample_library cap_example
            [("x", (float64, [Num (qz 3); Num (qz 5); Num (qz 5); NA]))]
  = Ok [("x", (float64, [Num (qz 3); Num (qz 5); Num (qz 5); NA]))].
Proof.
  apply (Cap_apply_idempotent sample_library cap_example
           [("x", (int64, [Num (qz 3); Num (qz 9); Num (qz 5); NA]))]).
  vm_compute. reflexivity.
Defined.

(** X7: A variable of the apply list whose cap in the reference table is
    missing stops [Cap.apply]: it never returns a frame.  As soon as the
    variables before it have been processed it raises the missing-value
    error for that variable when the cap is NaN, and the type error of
    [float] when the cap is [None]. *)
Theorem Cap_apply_missing_reference (L : Library) (cfg ref : Table)
        (l1 l2 : list string) (v : string) (df : DataFrame) (fitted : value) :
  first_where ref "Cap_Value" Cap_Value v = Ok fitted ->
  isnull fitted = true ->
  (forall df', Cap_apply L (mk_component cfg ref (l1 ++ v :: l2)) df <> Ok df')
  /\ (forall d1, Cap_apply L (mk_component cfg ref l1) df = Ok d1 ->
                 (fitted = NA ->
                  Cap_apply L (mk_component cfg ref (l1 ++ v :: l2)) df
                  = Raise (ValueError (NotFoundCap v)))
                 /\ (fitted = PyNone ->
                     Cap_apply L (mk_component cfg ref (l1 ++ v :: l2)) df
                     = Raise (TypeError FloatArgument)))
  /\ (fitted = NA \/ fitted = PyNone).
Proof.
  intros Href Hnull.
  assert (Hcases : fitted = NA \/ fitted = PyNone).
  { destruct fitted as [[q | s |] | str |]; try discriminate; auto. }
  split; [| split; [| exact Hcases]].
  - intros df' Hrun.
    destruct (Cap_apply_result_within L _ df df' v Hrun)
      as (fitted' & cap & col & d & Hfit & Hcap & Hn & _).
    + simpl. apply in_or_app. right. left. reflexivity.
    + simpl in Hfit. rewrite Href in Hfit. injection Hfit as <-.
      destruct Hcases as [-> | ->]; simpl in Hcap; [| discriminate].
      injection Hcap as <-. discriminate.
  - intros d1 Hrun. unfold Cap_apply in *. simpl in *.
    rewrite for_each_app, Hrun. simpl. rewrite Href.
    split; intros ->; reflexivity.
Qed.

Lemma Cap_apply_missing_reference_witness :
  Cap_apply sample_library
            (mk_component mean_config mean_config ([] ++ "x" :: ["y"])) mean_data
  = Raise (ValueError (NotFoundCap "x")).
Proof.
  apply (proj1 (proj1 (proj2 (Cap_apply_missing_reference sample_library mean_config
                  mean_config [] ["y"] "x" mean_data NA eq_refl eq_refl)) mean_data
                  eq_refl)).
  reflexivity.
Defined.

(** ** The loops of the [fit] methods

    [Cap.fit], [Floor.fit] and [MissingImpute.fit] share one shape: for
    each variable a value is computed from the configuration and the
    frame, and written into one column of the rows of that variable.  When
    the reference table lacks that column, the first assignment creates
    it, with NaN in the rows of the other names. *)

Lemma has_column_app (t : Table) (name : string) (extra : list string) (rs : list config_row) :
  has_column {| header := (header t ++ extra)%list; rows := rs |} name
  = has_column t name || existsb (String.eqb name) extra.
Proof. unfold has_column. simpl. apply existsb_app. Qed.

Section FitLoop.

Variable compute : string -> result value.
Variable name : string.
Variable getter : config_row -> value.
Variable setter : value -> config_row -> config_row.
Hypothesis get_set : forall v r, getter (setter v r) = v.
Hypothesis set_set : forall v w r, setter v (setter w r) = setter v r.
Hypothesis set_get : forall r, setter (getter r) r = r.
Hypothesis name_set : forall v r, Var_Name (setter v r) = Var_Name r.

Let body := fun (ref : Table) (var : string) =>
  cv <- compute var ;; set_where ref name (setter cv) (setter NA) var.

(** The loop creates the column when the table lacks it and there is a
    variable to process. *)
Definition creates (ref0 : Table) (l : list string) : bool :=
  negb (has_column ref0 name) && nonempty l.

(** What the loop has done to a row. *)
Definition updated (created : bool) (l : list string) (r r' : config_row) : Prop :=
  r' = setter (getter r') r
  /\ (~ In (Var_Name r) l -> r' = if created then setter NA r else r).

Lemma fit_loop_header (l : list string) (ref0 ref' : Table) :
  for_each body l ref0 = Ok ref' ->
  header ref' = (if creates ref0 l then header ref0 ++ [name] else header ref0)%list.
Proof.
  unfold creates.
  revert ref'. induction l as [| x l IH] using rev_ind; intros ref' Hrun.
  - injection Hrun as <-. rewrite andb_false_r. reflexivity.
  - rewrite for_each_app in Hrun. apply bind_Ok_inv in Hrun as (ref1 & H1 & Hx).
    cbn [for_each] in Hx. apply bind_Ok_inv in Hx as (ref2 & Hx & Hret).
    injection Hret as <-.
    unfold body in Hx. apply bind_Ok_inv in Hx as (cv & _ & Hx).
    specialize (IH ref1 H1).
    assert (Hne : nonempty (l ++ [x]) = true) by (destruct l; reflexivity).
    rewrite Hne, andb_true_r.
    unfold set_where in Hx.
    destruct (has_column ref1 "Var_Name"); [| discriminate].
    assert (Hhas : has_column ref1 name = has_column ref0 name || nonempty l).
    { unfold has_column at 1. rewrite IH.
      destruct (has_column ref0 name) eqn:E0; simpl.
      - exact E0.
      - destruct l as [| y l]; simpl; [exact E0 |].
        rewrite existsb_app. simpl. rewrite String.eqb_refl.
        rewrite orb_true_r. reflexivity. }
    destruct (has_column ref1 name) eqn:E1; injection Hx as <-; simpl.
    + rewrite IH. destruct (has_column ref0 name); simpl in *; [reflexivity |].
      rewrite <- Hhas. reflexivity.
    + symmetry in Hhas. apply orb_false_elim in Hhas as [E0 El].
      rewrite IH, E0, El. reflexivity.
Qed.

Lemma fit_loop_has_column (l : list string) (ref0 ref' : Table) :
  for_each body l ref0 = Ok ref' -> l <> [] -> has_column ref' name = true.
Proof.
  intros Hrun Hl. unfold has_column. rewrite (fit_loop_header l ref0 ref' Hrun).
  unfold creates. destruct (has_column ref0 name) eqn:E0; simpl; [exact E0 |].
  destruct l as [| y l]; [contradiction Hl; reflexivity |]. simpl.
  rewrite existsb_app. simpl. rewrite String.eqb_refl. apply orb_true_r.
Qed.

Lemma fit_loop_rows (l : list string) (ref0 ref' : Table) :
  for_each body l ref0 = Ok ref' ->
  Forall2 (updated (creates ref0 l) l) (rows ref0) (rows ref').
Proof.
  revert ref'. induction l as [| x l IH] using rev_ind; intros ref' Hrun.
  - injection Hrun as <-. unfold creates. rewrite andb_false_r.
    induction (rows ref0); constructor; [| assumption].
    split; [symmetry; apply set_get | reflexivity].
  - rewrite for_each_app in Hrun. apply bind_Ok_inv in Hrun as (ref1 & H1 & Hx).
    cbn [for_each] in Hx. apply bind_Ok_inv in Hx as (ref2 & Hx & Hret).
    injection Hret as <-.
    unfold body in Hx. apply bind_Ok_inv in Hx as (cv & _ & Hx).
    pose proof (IH ref1 H1) as Hrows.
    assert (Hne : creates ref0 (l ++ [x]) = negb (has_column ref0 name)).
    { unfold creates. destruct l; simpl; apply andb_true_r. }
    rewrite Hne.
    unfold set_where in Hx.
    destruct (has_column ref1 "Var_Name"); [| discriminate].
    destruct (has_column ref1 name) eqn:E1; injection Hx as <-; simpl.
    + assert (Hc : creates ref0 l = true -> has_column ref0 name = false).
      { unfold creates. intro H. apply andb_prop in H as [H _].
        apply negb_true_iff in H. exact H. }
      assert (Hc' : creates ref0 l = false -> l <> [] -> has_column ref0 name = true).
      { unfold creates. intros H Hl. apply andb_false_elim in H as [H | H].
        - apply negb_false_iff in H. exact H.
        - destruct l; [contradiction Hl; reflexivity | discriminate]. }
      assert (Hl0 : l = [] -> has_column ref0 name = true).
      { intros ->. injection H1 as ->. exact E1. }
      clear IH. revert Hrows.
      generalize (rows ref0) as rs0. generalize (rows ref1) as rs1'.
      intros rs1' rs0 Hrows.
      induction Hrows as [| r r1 rs rs1 [Hr Hout] _ IHrows]; simpl; constructor;
        [| exact IHrows].
      destruct (String.eqb (Var_Name r1) x) eqn:E.
      * split.
        -- rewrite get_set, Hr, set_set. reflexivity.
        -- intro Hnot. exfalso. apply Hnot. apply in_or_app. right. left.
           apply String.eqb_eq in E. rewrite <- E, Hr, name_set. reflexivity.
      * split; [exact Hr |]. intro Hnot.
        rewrite Hout by (intro Hin; apply Hnot; apply in_or_app; left; exact Hin).
        destruct (creates ref0 l) eqn:Ec.
        -- rewrite (Hc eq_refl). reflexivity.
        -- destruct l as [| y l']; [rewrite (Hl0 eq_refl) |
                                    rewrite (Hc' eq_refl) by discriminate];
             reflexivity.
    + assert (Hl : l = []).
      { destruct l as [| y l']; [reflexivity |].
        rewrite (fit_loop_has_column (y :: l') ref0 ref1 H1) in E1 by discriminate.
        discriminate. }
      subst l. injection H1 as ->. rewrite E1. simpl.
      clear Hrows IH Hne.
      induction (rows ref1) as [| r rs IHrs]; simpl; constructor; [| exact IHrs].
      destruct (String.eqb (Var_Name r) x) eqn:E.
      * split; [rewrite get_set; reflexivity |].
        intro Hnot. exfalso. apply Hnot. left. apply String.eqb_eq in E. auto.
      * split; [rewrite get_set; reflexivity | reflexivity].
Qed.

Lemma fit_loop_values (l : list string) (ref0 ref' : Table) (var : string) :
  for_each body l ref0 = Ok ref' -> In var l ->
  exists cv, compute var = Ok cv
             /\ forall r', In r' (rows ref') -> Var_Name r' = var -> getter r' = cv.
Proof.
  revert ref'. induction l as [| x l IH] using rev_ind; intros ref' Hrun Hin;
    [contradiction |].
  rewrite for_each_app in Hrun. apply bind_Ok_inv in Hrun as (ref1 & H1 & Hx).
  cbn [for_each] in Hx. apply bind_Ok_inv in Hx as (ref2 & Hx & Hret).
  injection Hret as <-.
  unfold body in Hx. apply bind_Ok_inv in Hx as (cv & Hcv & Hx).
  assert (Hrows' : exists blank,
             rows ref2 = map (fun r => if String.eqb (Var_Name r) x then setter cv r
                                       else blank r) (rows ref1)
             /\ (l <> [] -> forall r, blank r = r)
             /\ forall r, Var_Name (blank r) = Var_Name r).
  { unfold set_where in Hx.
    destruct (has_column ref1 "Var_Name"); [| discriminate].
    destruct (has_column ref1 name) eqn:E1; injection Hx as <-; simpl.
    - exists (fun r => r). auto.
    - exists (setter NA). split; [reflexivity |]. split; [| intro; apply name_set].
      intro Hl. rewrite (fit_loop_has_column l ref0 ref1 H1 Hl) in E1. discriminate. }
  destruct Hrows' as (blank & Hrows2 & Hblank & Hbname).
  destruct (string_dec var x) as [-> | Hne].
  - exists cv. split; [exact Hcv |]. intros r' Hr' Hname. rewrite Hrows2 in Hr'.
    apply in_map_iff in Hr' as (r1 & <- & _).
    destruct (String.eqb (Var_Name r1) x) eqn:E; [apply get_set |].
    apply String.eqb_neq in E. rewrite Hbname in Hname. congruence.
  - apply in_app_or in Hin as [Hin | [-> | []]]; [| congruence].
    destruct (IH ref1 H1 Hin) as (cv' & Hcv' & Hrows).
    exists cv'. split; [exact Hcv' |]. intros r' Hr' Hname. rewrite Hrows2 in Hr'.
    apply in_map_iff in Hr' as (r1 & <- & Hr1).
    assert (Hl : l <> []) by (intros ->; contradiction).
    destruct (String.eqb (Var_Name r1) x) eqn:E.
    + apply String.eqb_eq in E. rewrite name_set in Hname. congruence.
    + rewrite (Hblank Hl) in *. apply Hrows; assumption.
Qed.

End FitLoop.

Lemma first_where_row {X : Type} (t : Table) (name : string)
      (proj : config_row -> X) (var : string) (x : X) :
  first_where t name proj var = Ok x ->
  exists r, In r (rows t) /\ Var_Name r = var /\ proj r = x.
Proof.
  unfold first_where. destruct (has_column t name); [| discriminate].
  destruct (has_column t "Var_Name"); [| discriminate].
  destruct (rows_of t var) as [| r rest] eqn:E; [discriminate |].
  intro H. injection H as <-. exists r.
  assert (Hin : In r (rows_of t var)) by (rewrite E; left; reflexivity).
  unfold rows_of in Hin. apply filter_In in Hin as [Hin Hname].
  apply String.eqb_eq in Hname. repeat split; assumption.
Qed.

Lemma first_of_rows_row {X : Type} (t : Table) (name : string)
      (proj : config_row -> X) (var : string) (x : X) :
  first_of_rows t name proj var = Ok x ->
  first_where t name proj var = Ok x.
Proof.
  unfold first_of_rows, first_where. destruct (has_column t name);
    destruct (has_column t "Var_Name"); try discriminate. auto.
Qed.

Lemma for_each_ext {A S : Type} (body body' : S -> A -> result S) (xs : list A) (s : S) :
  (forall s' x, body s' x = body' s' x) -> for_each body xs s = for_each body' xs s.
Proof.
  intro H. revert s. induction xs as [| x xs IH]; intro s; simpl; [reflexivity |].
  rewrite H. destruct (body' s x); simpl; [apply IH | reflexivity].
Qed.

(** The value [Cap.fit] computes for a variable. *)
Definition cap_value_of (L : Library) (cfg : Table) (df : DataFrame) (var : string)
  : result value :=
  cfg_value <- first_of_rows cfg "Cap_Value" Cap_Value var ;;
  if isnull cfg_value then
    col <- getitem df var ;; Ok (quantile L (dropna col) (qfrac 99 100))
  else
    x <- py_float L cfg_value ;; Ok (Flt x).

(** X8: [Cap.fit] keeps the rows of the reference table and their order and
    changes nothing but [Cap_Value], and that only in the rows of the
    apply list, when the reference table has that column; when it has
    not, the column is added, with NaN in the other rows.  The cap
    [Cap.apply] will read for a variable of the apply list is the value
    given in the configuration when there is one, and the 99th percentile
    of the non-missing values otherwise. *)
Theorem Cap_fit_reference (L : Library) (self self' : component) (df : DataFrame) :
  Cap_fit L self df = Ok self' ->
  config self' = config self /\ apply_list self' = apply_list self
  /\ (has_column (reference self) "Cap_Value" = true ->
      header (reference self') = header (reference self)
      /\ Forall2 (fun r r' => r' = set_Cap_Value (Cap_Value r') r
                              /\ (~ In (Var_Name r) (apply_list self) -> r' = r))
                 (rows (reference self)) (rows (reference self')))
  /\ (has_column (reference self) "Cap_Value" = false ->
      header (reference self')
      = (if nonempty (apply_list self) then header (reference self) ++ ["Cap_Value"]
         else header (reference self))%list
      /\ Forall2 (fun r r' => r' = set_Cap_Value (Cap_Value r') r
                              /\ (~ In (Var_Name r) (apply_list self) ->
                                  apply_list self <> [] -> Cap_Value r' = NA))
                 (rows (reference self)) (rows (reference self')))
  /\ forall var x,
       In var (apply_list self) ->
       first_where (reference self') "Cap_Value" Cap_Value var = Ok x ->
       exists cfg_value,
         first_where (config self) "Cap_Value" Cap_Value var = Ok cfg_value
         /\ ((isnull cfg_value = true
              /\ exists col, getitem df var = Ok col
                             /\ x = quantile L (dropna col) (qfrac 99 100))
             \/ (isnull cfg_value = false
                 /\ exists f, py_float L cfg_value = Ok f /\ x = Flt f)).
Proof.
  unfold Cap_fit. intro Hrun.
  apply bind_Ok_inv in Hrun as (ref & Hloop & Hret). injection Hret as <-. simpl.
  split; [reflexivity |]. split; [reflexivity |].
  rewrite (for_each_ext _
             (fun ref var =>
                cv <- cap_value_of L (config self) df var ;;
                set_where ref "Cap_Value" (set_Cap_Value cv) (set_Cap_Value NA) var))
    in Hloop
    by (intros ref0 var; unfold cap_value_of;
        destruct (first_of_rows (config self) "Cap_Value" Cap_Value var) as [c |];
        [| reflexivity]; cbn [bind]; destruct (isnull c); [| reflexivity];
        destruct (getitem df var); reflexivity).
  pose proof (fit_loop_header (cap_value_of L (config self) df) "Cap_Value"
                set_Cap_Value (apply_list self) (reference self) ref Hloop) as Hhead.
  assert (Hrows : Forall2 (updated Cap_Value set_Cap_Value
                                   (creates "Cap_Value" (reference self) (apply_list self))
                                   (apply_list self))
                          (rows (reference self)) (rows ref)).
  { apply (fit_loop_rows (cap_value_of L (config self) df) "Cap_Value"
                         Cap_Value set_Cap_Value); try reflexivity; try exact Hloop.
    intros []. reflexivity. }
  unfold creates in *.
  split; [| split].
  - intro Hhas. rewrite Hhas in *. simpl in *. split; [exact Hhead |].
    eapply Forall2_impl; [| exact Hrows]. intros r r' [H1 H2]. split; assumption.
  - intro Hhas. rewrite Hhas in *. simpl in *. split; [exact Hhead |].
    eapply Forall2_impl; [| exact Hrows]. intros r r' [H1 H2]. split; [exact H1 |].
    intros Hnot Hne. rewrite (H2 Hnot).
    destruct (apply_list self); [contradiction Hne; reflexivity | reflexivity].
  - intros var x Hin Hx.
    destruct (fit_loop_values (cap_value_of L (config self) df) "Cap_Value"
                              Cap_Value set_Cap_Value) with (l := apply_list self)
      (ref0 := reference self) (ref' := ref) (var := var)
      as (cv & Hcv & Hvals); try reflexivity; try assumption.
    apply first_where_row in Hx as (r & Hr & Hname & <-).
    rewrite (Hvals r Hr Hname).
    unfold cap_value_of in Hcv.
    apply bind_Ok_inv in Hcv as (cfg_value & Hcfg & Hcv).
    exists cfg_value. split; [apply first_of_rows_row; exact Hcfg |].
    destruct (isnull cfg_value) eqn:Hnull.
    + left. split; [reflexivity |].
      apply bind_Ok_inv in Hcv as (col & Hcol & Hcv). injection Hcv as <-.
      exists col. split; [exact Hcol | reflexivity].
    + right. split; [reflexivity |].
      apply bind_Ok_inv in Hcv as (f & Hf & Hcv). injection Hcv as <-.
      exists f. split; [exact Hf | reflexivity].
Qed.

Definition cap_example_fitted : component :=
  Eval vm_compute in
    match Cap_fit sample_library cap_example
                  [("x", (float64, [Num (qz 3); Num (qz 9)]))] with
    | Ok c => c
    | Raise _ => cap_example
    end.

Lemma Cap_fit_reference_witness :
  config cap_example_fitted = config cap_example
  /\ apply_list cap_example_fitted = apply_list cap_example.
Proof.
  destruct (Cap_fit_reference sample_library cap_example cap_example_fitted
                              [("x", (float64, [Num (qz 3); Num (qz 9)]))])
    as (H1 & H2 & _).
  - vm_compute. reflexivity.
  - split; assumption.
Defined.

(** ** Floor.fit *)

Lemma first_where_of_rows {X : Type} (t : Table) (name : string)
      (proj : config_row -> X) (var : string) (x : X) :
  first_where t name proj var = Ok x ->
  first_of_rows t name proj var = Ok x.
Proof.
  unfold first_of_rows, first_where. destruct (has_column t name);
    destruct (has_column t "Var_Name"); try discriminate. auto.
Qed.

Definition floor_value_of (L : Library) (cfg : Table) (df : DataFrame) (var : string)
  : result value :=
  cfg_value <- first_of_rows cfg "Floor_Value" Floor_Value var ;;
  if isnull cfg_value then
    col <- getitem df var ;;
    Ok (floor_of_quantile (quantile L (dropna col) (qfrac 1 100)))
  else
    x <- py_float L cfg_value ;; Ok (Flt x).

Lemma floor_of_quantile_nonpositive (q : value) :
  exists f, floor_of_quantile q = Flt f
            /\ float_lt (Finite 0%Qc) f = false
            /\ (f = NaN \/ f = Infinite true \/ exists y, f = Finite y /\ (y <= 0)%Qc).
Proof.
  destruct q as [x | str |]; cbn [floor_of_quantile];
    [| exists NaN; auto | exists NaN; auto].
  destruct (float_lt (Finite 0%Qc) (float_mul (Finite (qz 5)) x)) eqn:E.
  - exists (Finite 0%Qc). split; [reflexivity |]. split; [reflexivity |].
    right. right. exists 0%Qc. split; [reflexivity | apply Qcle_refl].
  - exists (float_mul (Finite (qz 5)) x). split; [reflexivity |]. split; [exact E |].
    destruct (float_mul (Finite (qz 5)) x) as [y | [|] |]; auto.
    + right. right. exists y. split; [reflexivity |]. apply Qcltb_false. exact E.
    + discriminate.
Qed.

(** X9: A floor that [Floor.fit] derives from the data, for a variable of the
    apply list without a configured value, is never above 0: it is five
    times the 1st percentile when that is negative, 0 when it is not, and
    missing when the percentile is.  Five times the percentile is taken
    in floating point: beyond the largest double it is minus infinity. *)
Theorem Floor_fit_derived_floor (L : Library) (self self' : component)
        (df : DataFrame) (var : string) (cfg_value x : value) :
  Floor_fit L self df = Ok self' ->
  In var (apply_list self) ->
  first_where (config self) "Floor_Value" Floor_Value var = Ok cfg_value ->
  isnull cfg_value = true ->
  first_where (reference self') "Floor_Value" Floor_Value var = Ok x ->
  (exists col, getitem df var = Ok col
               /\ x = floor_of_quantile (quantile L (dropna col) (qfrac 1 100)))
  /\ (exists f, x = Flt f
                /\ float_lt (Finite 0%Qc) f = false
                /\ (f = NaN \/ f = Infinite true
                    \/ exists y, f = Finite y /\ (y <= 0)%Qc))
  /\ (forall q, floor_of_quantile (Num q)
                = if Qcltb 0 (qz 5 * q) then Num 0%Qc
                  else Flt (overflow (qz 5 * q)))
  /\ floor_of_quantile NA = NA.
Proof.
  unfold Floor_fit. intros Hrun Hin Hcfg Hnull Hx.
  apply bind_Ok_inv in Hrun as (ref & Hloop & Hret). injection Hret as <-.
  simpl in Hx.
  rewrite (for_each_ext _
             (fun ref var =>
                cv <- floor_value_of L (config self) df var ;;
                set_where ref "Floor_Value" (set_Floor_Value cv) (set_Floor_Value NA)
                          var)) in Hloop
    by (intros ref0 v; unfold floor_value_of;
        destruct (first_of_rows (config self) "Floor_Value" Floor_Value v) as [c |];
        [| reflexivity]; cbn [bind]; destruct (isnull c); [| reflexivity];
        destruct (getitem df v); reflexivity).
  destruct (fit_loop_values (floor_value_of L (config self) df) "Floor_Value"
                            Floor_Value set_Floor_Value) with (l := apply_list self)
    (ref0 := reference self) (ref' := ref) (var := var)
    as (cv & Hcv & Hrows); try reflexivity; try assumption.
  apply first_where_row in Hx as (r & Hr & Hname & <-).
  rewrite (Hrows r Hr Hname).
  unfold floor_value_of in Hcv.
  rewrite (first_where_of_rows _ _ _ _ _ Hcfg) in Hcv. cbn [bind] in Hcv.
  rewrite Hnull in Hcv.
  apply bind_Ok_inv in Hcv as (col & Hcol & Hcv). injection Hcv as <-.
  split; [exists col; split; [exact Hcol | reflexivity] |].
  split; [apply floor_of_quantile_nonpositive |].
  split; [| reflexivity].
  intro q. cbn [floor_of_quantile float_mul].
  unfold overflow.
  destruct (Qcltb 0 (qz 5 * q)) eqn:E0.
  - destruct (Qcltb max_float (qz 5 * q)); [reflexivity |].
    destruct (Qcltb (qz 5 * q) (- max_float)) eqn:E1.
    + exfalso. apply Qcltb_true in E0, E1.
      pose proof max_float_positive as Hpos.
      apply (Qclt_not_eq 0 0); [| reflexivity].
      eapply Qclt_trans; [exact E0 |]. eapply Qclt_trans; [exact E1 |].
      apply Qcopp_lt_compat in Hpos.
      replace (- 0)%Qc with 0%Qc in Hpos by ring. exact Hpos.
    + cbn [float_lt]. rewrite E0. reflexivity.
  - destruct (Qcltb max_float (qz 5 * q)) eqn:E2.
    + exfalso. apply Qcltb_true in E2. apply Qcltb_false in E0.
      pose proof max_float_positive as Hpos.
      apply (Qcle_not_lt _ _ E0). eapply Qclt_trans; [exact Hpos | exact E2].
    + destruct (Qcltb (qz 5 * q) (- max_float)); [reflexivity |].
      cbn [float_lt]. rewrite E0. reflexivity.
Qed.

(** A library whose percentile is the smallest number of the column. *)
Definition smallest_library : Library :=
  {| quantile := fun s _ => match series_min s with Ok v => v | Raise _ => NA end;
     median := median sample_library;
     mode := mode sample_library;
     std := std sample_library;
     float_of_string := float_of_string sample_library;
     parse_bins := parse_bins sample_library;
     str_convert := str_convert sample_library;
     numwoe_aptbinning := numwoe_aptbinning sample_library;
     numwoe_autobinning := numwoe_autobinning sample_library;
     catwoe_autobinning := catwoe_autobinning sample_library;
     numwoe_apply := numwoe_apply sample_library;
     catwoe_apply := catwoe_apply sample_library |}.

Definition floor_unfitted : component :=
  let t := {| header := full_header; rows := [plain_row "x"] |} in
  {| config := t; reference := t; apply_list := ["x"] |}.

Definition floor_fitted : component :=
  Eval vm_compute in
    match Floor_fit smallest_library floor_unfitted
                    [("x", (float64, [Num (qz (-2)); NA; Num (qz 7)]))] with
    | Ok c => c
    | Raise _ => floor_unfitted
    end.

Lemma Floor_fit_derived_floor_witness :
  exists f, Num (qz (-10)) = Flt f
            /\ float_lt (Finite 0%Qc) f = false
            /\ (f = NaN \/ f = Infinite true \/ exists y, f = Finite y /\ (y <= 0)%Qc).
Proof.
  apply (Floor_fit_derived_floor smallest_library floor_unfitted floor_fitted
           [("x", (float64, [Num (qz (-2)); NA; Num (qz 7)]))] "x" NA (Num (qz (-10)))).
  - vm_compute. reflexivity.
  - left. reflexivity.
  - reflexivity.
  - reflexivity.
  - apply returns_value. vm_compute. reflexivity.
Defined.

(** ** MissingImpute.fit *)

(** X10: [MissingImpute.fit] returns only if every in-model variable, in the
    apply list or not, is typed numerical or categorical; a configuration
    whose first in-model variable has another type makes it raise the type
    error for that variable. *)
Theorem MissingImpute_fit_unknown_type (L : Library) (self : component) (df : DataFrame) :
  (forall self' r,
      MissingImpute_fit L self df = Ok self' ->
      In r (rows (config self)) -> Ind_Model r = 1%Z ->
      first_where (config self) "Var_Type" Var_Type (Var_Name r) = Ok "numerical"
      \/ first_where (config self) "Var_Type" Var_Type (Var_Name r) = Ok "categorical")
  /\ (forall v rest vt,
         in_model (config self) = Ok (v :: rest) ->
         first_where (config self) "Var_Type" Var_Type v = Ok vt ->
         vt <> "numerical" -> vt <> "categorical" ->
         MissingImpute_fit L self df = Raise (TypeError (WrongTypeFor v))).
Proof.
  split.
  - intros self' r Hrun Hr Hmodel. unfold MissingImpute_fit in Hrun.
    apply bind_Ok_inv in Hrun as (vars & Hvars & Hrun).
    apply bind_Ok_inv in Hrun as (ref & Hloop & _).
    assert (Hin : In (Var_Name r) vars).
    { unfold in_model in Hvars.
      destruct (has_column (config self) "Var_Name"); [| discriminate].
      destruct (has_column (config self) "Ind_Model"); [| discriminate].
      injection Hvars as <-. apply in_map. apply filter_In. split; [exact Hr |].
      apply Z.eqb_eq. exact Hmodel. }
    destruct (fit_loop_values (impute_value_of L (config self) df) "Missing_Impute"
                              Missing_Impute set_Missing_Impute) with (l := vars)
      (ref0 := reference self) (ref' := ref) (var := Var_Name r)
      as (cv & Hcv & _); try reflexivity; try assumption.
    unfold impute_value_of in Hcv.
    apply bind_Ok_inv in Hcv as (vt & Hvt & Hcv).
    rewrite (first_of_rows_row _ _ _ _ _ Hvt).
    destruct (String.eqb vt "numerical") eqn:En;
      [apply String.eqb_eq in En; subst; left; reflexivity |].
    destruct (String.eqb vt "categorical") eqn:Ec;
      [apply String.eqb_eq in Ec; subst; right; reflexivity | discriminate].
  - intros v rest vt Hvars Hvt Hn Hc. unfold MissingImpute_fit. rewrite Hvars.
    cbn [bind for_each].
    unfold impute_value_of at 1. rewrite (first_where_of_rows _ _ _ _ _ Hvt).
    cbn [bind].
    apply String.eqb_neq in Hn, Hc. rewrite Hn, Hc. reflexivity.
Qed.

(** A variable typed [timestamp], in the model. *)
Definition timestamp_config : Table :=
  {| header := full_header;
     rows := [ {| Var_Name := "t"; Var_Type := "timestamp"; Ind_Model := 1;
                  Ind_Cap := 0; Cap_Value := NA; Ind_Floor := 0; Floor_Value := NA;
                  Missing_Impute := NA; Ind_WOE := 0; WOE_Bin := NA; Ind_Norm := 0;
                  Ind_Scale := 0; Mean := NA; Std := NA; Min := NA; Max := NA |} ] |}.

Lemma MissingImpute_fit_unknown_type_witness :
  MissingImpute_init timestamp_config None
  = Ok (mk_component timestamp_config timestamp_config [])
  /\ MissingImpute_fit sample_library
                       (mk_component timestamp_config timestamp_config [])
                       [("t", (object, [NA]))]
     = Raise (TypeError (WrongTypeFor "t")).
Proof.
  split; [reflexivity |].
  apply (proj2 (MissingImpute_fit_unknown_type
                  sample_library (mk_component timestamp_config timestamp_config [])
                  [("t", (object, [NA]))]) "t" [] "timestamp").
  - reflexivity.
  - reflexivity.
  - discriminate.
  - discriminate.
Defined.

(** ** MissingImpute.apply *)

(** What [MissingImpute.apply] can do to a cell: leave it, or put a value
    in the place of a missing one. *)
Definition filled (a b : value) : Prop := b = a \/ (isnull a = true /\ isnull b = false).

Lemma has_missing_fillna (s : Series) (v : value) :
  isnull v = false -> has_missing (fillna s v) = false.
Proof.
  intro Hv. unfold has_missing, fillna.
  induction s as [| x s IH]; simpl; [reflexivity |]. rewrite IH.
  destruct (isnull x) eqn:E; [rewrite Hv | rewrite E]; reflexivity.
Qed.

Lemma Forall2_filled_refl (s : Series) : Forall2 filled s s.
Proof. induction s; constructor; [left; reflexivity | assumption]. Qed.

Lemma Forall2_filled_fillna (s s' : Series) (v : value) :
  isnull v = false -> Forall2 filled s s' -> Forall2 filled s (fillna s' v).
Proof.
  intros Hv H. induction H as [| a b s s' Hab _ IH]; simpl; constructor; [| exact IH].
  destruct (isnull b) eqn:E.
  - right. destruct Hab as [<- | [_ Hb]]; [| congruence].
    split; assumption.
  - exact Hab.
Qed.

Lemma Forall2_filled_no_missing (s s' : Series) :
  has_missing s = false -> Forall2 filled s s' -> s' = s.
Proof.
  intros Hs H. induction H as [| a b s s' Hab _ IH]; [reflexivity |].
  unfold has_missing in Hs. simpl in Hs. apply orb_false_iff in Hs as [Ha Hs].
  rewrite (IH Hs). destruct Hab as [-> | [Hnull _]]; [reflexivity | congruence].
Qed.

Lemma not_in_missing_vars (df : DataFrame) (v : string) (col : Series) :
  existsb (String.eqb v) (missing_vars df) = false ->
  getitem df v = Ok col -> has_missing col = false.
Proof.
  unfold missing_vars. induction df as [| [name [d c]] df IH]; simpl; [discriminate |].
  destruct (has_missing c) eqn:Hc; simpl.
  - destruct (String.eqb name v) eqn:E.
    + apply String.eqb_eq in E. subst. rewrite String.eqb_refl. discriminate.
    + intros H. apply orb_false_iff in H as [_ H]. apply IH. exact H.
  - destruct (String.eqb name v) eqn:E.
    + intros _ H. injection H as <-. exact Hc.
    + apply IH.
Qed.

Lemma columns_setitem_same (df : DataFrame) (v : string) (d : dtype) (col col' : Series) :
  getitem df v = Ok col -> columns (setitem df v d col') = columns df.
Proof.
  unfold columns. induction df as [| [name [d0 c]] df IH]; simpl; [discriminate |].
  destruct (String.eqb name v); simpl; [reflexivity |].
  intro H. rewrite (IH H). reflexivity.
Qed.

Section MissingImputeApply.

Variable L : Library.
Variable self : component.
Variable df0 : DataFrame.

Let body := fun (df : DataFrame) (var : string) =>
  if negb (existsb (String.eqb var) (missing_vars df0)) then Ok df
  else
    var_type <- first_where (reference self) "Var_Type" Var_Type var ;;
    token <- first_where (reference self) "Missing_Impute" Missing_Impute var ;;
    impute_value <-
      (if String.eqb var_type "numerical" then
         x <- py_float L token ;; Ok (Flt x)
       else Ok token) ;;
    if isnull impute_value then Raise (ValueError (NotFoundImpute var))
    else
      col <- getitem df var ;;
      d <- dtypes df var ;;
      Ok (setitem df var (fillna_dtype d impute_value) (fillna col impute_value)).

(** How the frame of the loop relates to the frame given. *)
Definition imputed (df : DataFrame) : Prop :=
  columns df = columns df0
  /\ forall v col, getitem df0 v = Ok col ->
                   exists col', getitem df v = Ok col' /\ Forall2 filled col col'.

Lemma imputed_start : imputed df0.
Proof.
  split; [reflexivity |]. intros v col H. exists col.
  split; [exact H | apply Forall2_filled_refl].
Qed.

(** A step either leaves the frame or fills one of its columns. *)
Lemma body_cases (df df' : DataFrame) (var : string) :
  body df var = Ok df' ->
  (df' = df /\ existsb (String.eqb var) (missing_vars df0) = false)
  \/ exists col d iv, isnull iv = false /\ getitem df var = Ok col
                      /\ dtypes df var = Ok d
                      /\ df' = setitem df var (fillna_dtype d iv) (fillna col iv).
Proof.
  unfold body. destruct (existsb (String.eqb var) (missing_vars df0)); simpl.
  - intro H. right.
    apply bind_Ok_inv in H as (vt & _ & H).
    apply bind_Ok_inv in H as (token & _ & H).
    apply bind_Ok_inv in H as (iv & _ & H).
    destruct (isnull iv) eqn:E; [discriminate |].
    apply bind_Ok_inv in H as (col & Hcol & H).
    apply bind_Ok_inv in H as (d & Hd & H). injection H as <-.
    exists col, d, iv. repeat split; assumption.
  - intro H. injection H as <-. left. split; reflexivity.
Qed.

Lemma body_imputed (df df' : DataFrame) (var : string) :
  imputed df -> body df var = Ok df' -> imputed df'.
Proof.
  intros [Hcols Hrel] H.
  apply body_cases in H as [[-> _] | (col & d & iv & Hiv & Hcol & Hd & ->)];
    [split; assumption |].
  split.
  - rewrite (columns_setitem_same df var _ col _ Hcol). exact Hcols.
  - intros v c Hc. destruct (Hrel v c Hc) as (c' & Hc' & Hfilled).
    destruct (string_dec v var) as [-> | Hne].
    + rewrite getitem_setitem_same. eexists. split; [reflexivity |].
      rewrite Hcol in Hc'. injection Hc' as ->.
      apply Forall2_filled_fillna; assumption.
    + rewrite getitem_setitem_other by exact Hne. exists c'. split; assumption.
Qed.

Lemma body_keeps_complete (df df' : DataFrame) (var v : string) :
  (forall col, getitem df v = Ok col -> has_missing col = false) ->
  body df var = Ok df' ->
  forall col, getitem df' v = Ok col -> has_missing col = false.
Proof.
  intros Hv H.
  apply body_cases in H as [[-> _] | (col & d & iv & Hiv & Hcol & Hd & ->)];
    [exact Hv |].
  intros c Hc. destruct (string_dec v var) as [-> | Hne].
  - rewrite getitem_setitem_same in Hc. injection Hc as <-.
    apply has_missing_fillna. exact Hiv.
  - rewrite getitem_setitem_other in Hc by exact Hne. apply Hv. exact Hc.
Qed.

Lemma body_completes (df df' : DataFrame) (var : string) :
  imputed df -> body df var = Ok df' ->
  forall col, getitem df' var = Ok col -> has_missing col = false.
Proof.
  intros [Hcols Hrel] H.
  apply body_cases in H as [[-> Hnot] | (col & d & iv & Hiv & Hcol & Hd & ->)].
  - intros c Hc. destruct (getitem df0 var) as [c0 | e] eqn:E0.
    + destruct (Hrel var c0 E0) as (c' & Hc' & Hfilled).
      rewrite Hc in Hc'. injection Hc' as <-.
      pose proof (not_in_missing_vars df0 var c0 Hnot E0) as Hc0.
      rewrite (Forall2_filled_no_missing c0 c Hc0 Hfilled). exact Hc0.
    + exfalso. clear - Hcols Hc E0.
      assert (Hin : In var (columns df)).
      { clear - Hc. unfold columns. induction df as [| [n [t c']] d IH]; simpl in *;
          [discriminate |].
        destruct (String.eqb n var) eqn:E; [left; apply String.eqb_eq; exact E |].
        right. apply IH. exact Hc. }
      rewrite Hcols in Hin. clear - Hin E0. unfold columns in Hin.
      induction df0 as [| [n [t c']] d IH]; simpl in *; [contradiction |].
      destruct (String.eqb n var) eqn:E; [discriminate |].
      destruct Hin as [-> | Hin]; [rewrite String.eqb_refl in E; discriminate |].
      apply IH; assumption.
  - intros c Hc. rewrite getitem_setitem_same in Hc. injection Hc as <-.
    apply has_missing_fillna. exact Hiv.
Qed.

End MissingImputeApply.

(** X11: When [MissingImpute.apply] returns, the frame has the columns it had,
    no column of a variable of the apply list holds a missing value, and
    cell by cell every column is what it was except that missing cells may
    have been given a value. *)
Theorem MissingImpute_apply_fills (L : Library) (self : component) (df df' : DataFrame) :
  MissingImpute_apply L self df = Ok df' ->
  columns df' = columns df
  /\ (forall v col, In v (apply_list self) -> getitem df' v = Ok col ->
                    has_missing col = false)
  /\ (forall v col, getitem df v = Ok col ->
                    exists col', getitem df' v = Ok col' /\ Forall2 filled col col').
Proof.
  unfold MissingImpute_apply. intro Hrun.
  assert (Himp : imputed df df').
  { refine (for_each_invariant (imputed df) _ _ _ _ _ (imputed_start df) Hrun).
    intros d v d' _ Hd Hstep. eapply (body_imputed L self df); eassumption. }
  destruct Himp as [Hcols Hrel]. split; [exact Hcols |]. split; [| exact Hrel].
  intros v col Hin.
  destruct (in_split_first v (apply_list self) Hin) as (l1 & l2 & Hsplit & _).
  rewrite Hsplit, for_each_app in Hrun.
  apply bind_Ok_inv in Hrun as (d1 & H1 & Hrun). cbn [for_each] in Hrun.
  apply bind_Ok_inv in Hrun as (d2 & Hv & H2).
  assert (Hd1 : imputed df d1).
  { refine (for_each_invariant (imputed df) _ _ _ _ _ (imputed_start df) H1).
    intros d u d' _ Hd Hstep. eapply (body_imputed L self df); eassumption. }
  revert col.
  refine (for_each_invariant
            (fun d => forall col, getitem d v = Ok col -> has_missing col = false)
            _ _ _ _ _ _ H2).
  - intros d u d' _ Hd Hstep. eapply (body_keeps_complete L self df); eassumption.
  - eapply (body_completes L self df); eassumption.
Qed.

Definition impute_example : component :=
  let t := {| header := full_header;
              rows := [set_Missing_Impute (Num 0%Qc) (plain_row "x")] |} in
  {| config := t; reference := t; apply_list := ["x"] |}.

Lemma MissingImpute_apply_fills_witness :
  columns [("x", (float64, [Num (qz 1); Num 0%Qc])); ("y", (float64, [NA]))]
  = columns [("x", (float64, [Num (qz 1); NA])); ("y", (float64, [NA]))].
Proof.
  apply (MissingImpute_apply_fills sample_library impute_example
           [("x", (float64, [Num (qz 1); NA])); ("y", (float64, [NA]))]
           [("x", (float64, [Num (qz 1); Num 0%Qc])); ("y", (float64, [NA]))]).
  reflexivity.
Defined.

(** ** Membership of the pipeline *)

(** The variables a component object works on. *)
Definition instance_apply_list (i : instance) : list string :=
  match i with
  | Plain _ c => apply_list c
  | WoeInstance w => w_apply_list w
  end.

Definition dropped (l : list string) (r : config_row) : config_row :=
  if mem (Var_Name r) l then set_Ind_Model 0 r else r.

Lemma drop_loop (l : list string) (ref : Table) :
  has_column ref "Var_Name" = true ->
  has_column ref "Ind_Model" = true ->
  for_each (fun ref var => set_where ref "Ind_Model" (set_Ind_Model 0)
                                     (set_Ind_Model 0) var) l ref
  = Ok {| header := header ref; rows := map (dropped l) (rows ref) |}.
Proof.
  revert ref. induction l as [| var l IH]; intros ref Hname Hcol; cbn [for_each].
  - unfold dropped. simpl. rewrite map_id. destruct ref. reflexivity.
  - unfold set_where at 1. rewrite Hname, Hcol. cbn [bind].
    rewrite IH by assumption.
    cbn [header rows]. f_equal. f_equal.
    rewrite map_map. apply map_ext. intro r. unfold dropped, mem. simpl.
    destruct (String.eqb (Var_Name r) var) eqn:E; simpl; [| reflexivity].
    destruct (existsb (String.eqb (Var_Name r)) l); reflexivity.
Qed.

Lemma filter_dropped (l : list string) (q : config_row -> bool) (rs : list config_row) :
  (forall z r, q (set_Ind_Model z r) = q r) ->
  map Var_Name (filter (fun r => Z.eqb (Ind_Model r) 1 && q r) (map (dropped l) rs))
  = filter (fun v => negb (mem v l))
           (map Var_Name (filter (fun r => Z.eqb (Ind_Model r) 1 && q r) rs)).
Proof.
  intro Hq. induction rs as [| r rs IH]; [reflexivity |].
  cbn [map filter].
  destruct (mem (Var_Name r) l) eqn:E.
  - assert (Hd : dropped l r = set_Ind_Model 0 r) by (unfold dropped; rewrite E; reflexivity).
    rewrite Hd. cbn [Ind_Model set_Ind_Model Z.eqb andb]. rewrite IH.
    destruct (Z.eqb (Ind_Model r) 1 && q r); cbn [map filter]; [rewrite E |];
      reflexivity.
  - assert (Hd : dropped l r = r) by (unfold dropped; rewrite E; reflexivity).
    rewrite Hd.
    destruct (Z.eqb (Ind_Model r) 1 && q r); cbn [map filter]; [rewrite E |];
      cbn [negb]; rewrite IH; reflexivity.
Qed.

Lemma in_model_with_dropped (t : Table) (l : list string) (flag : string)
      (proj : config_row -> Z) (vars : list string) :
  (forall z r, proj (set_Ind_Model z r) = proj r) ->
  in_model_with t flag proj = Ok vars ->
  in_model_with {| header := header t; rows := map (dropped l) (rows t) |} flag proj
  = Ok (filter (fun v => negb (mem v l)) vars).
Proof.
  intros Hproj. unfold in_model_with.
  change (has_column {| header := header t; rows := map (dropped l) (rows t) |})
    with (has_column t).
  destruct (has_column t "Var_Name"); [| discriminate].
  destruct (has_column t "Ind_Model"); [| discriminate].
  destruct (has_column t flag); [| discriminate].
  intro H. injection H as <-. f_equal. cbn [rows].
  apply (filter_dropped l (fun r => Z.eqb (proj r) 1)).
  intros z r. rewrite Hproj. reflexivity.
Qed.

Lemma compile_needs_Ind_Model (self : tactic) (op : operation) (i : instance) :
  compile self op = Ok i -> has_column (t_reference self) "Ind_Model" = true.
Proof.
  destruct (has_column (t_reference self) "Ind_Model") eqn:E; [reflexivity |].
  destruct op; unfold compile, Cap_init, Floor_init, MissingImpute_init, Normalize_init,
    Scale_init, Woe_init, init_with, in_model_with; rewrite E;
    destruct (has_column (t_reference self) "Var_Name"); simpl; discriminate.
Qed.

Lemma compile_needs_Var_Name (self : tactic) (op : operation) (i : instance) :
  compile self op = Ok i -> has_column (t_reference self) "Var_Name" = true.
Proof.
  destruct (has_column (t_reference self) "Var_Name") eqn:E; [reflexivity |].
  destruct op; unfold compile, Cap_init, Floor_init, MissingImpute_init, Normalize_init,
    Scale_init, Woe_init, init_with, in_model_with; rewrite E; simpl; discriminate.
Qed.

(** X14: [drop_variables] takes exactly the named variables out of the pipeline:
    a component built afterwards works on the variables it would have
    worked on, in the same order, without the dropped ones. *)
Theorem drop_variables_excludes (self : tactic) (drop_list : list string)
        (op : operation) (i : instance) :
  compile self op = Ok i ->
  exists self' i',
    drop_variables self drop_list = Ok self'
    /\ compile self' op = Ok i'
    /\ instance_apply_list i'
       = filter (fun v => negb (mem v drop_list)) (instance_apply_list i)
    /\ forall v, In v drop_list -> ~ In v (instance_apply_list i').
Proof.
  intro Hc.
  assert (Hlist : forall i', instance_apply_list i'
                             = filter (fun v => negb (mem v drop_list))
                                      (instance_apply_list i) ->
                             forall v, In v drop_list -> ~ In v (instance_apply_list i')).
  { intros i' -> v Hv Hin. apply filter_In in Hin as [_ Hin].
    apply negb_true_iff in Hin. apply mem_In in Hv. congruence. }
  pose proof (compile_needs_Ind_Model self op i Hc) as Hcol.
  pose proof (compile_needs_Var_Name self op i Hc) as Hname.
  unfold drop_variables. rewrite (drop_loop _ _ Hname Hcol). cbn [bind].
  eexists.
  cut (exists i',
          compile (with_t_reference self
                     {| header := header (t_reference self);
                        rows := map (dropped drop_list) (rows (t_reference self)) |})
                  op = Ok i'
          /\ instance_apply_list i'
             = filter (fun v => negb (mem v drop_list)) (instance_apply_list i)).
  { intros (i' & H1 & H2). exists i'. split; [reflexivity |]. split; [exact H1 |].
    split; [exact H2 | apply Hlist; exact H2]. }
  unfold compile in *. destruct op; simpl in *.
  - unfold Cap_init, init_with in *.
    apply bind_Ok_inv in Hc as (c & Hc & Hi). injection Hi as <-.
    apply bind_Ok_inv in Hc as (vars & Hvars & Hc). injection Hc as <-.
    rewrite (in_model_with_dropped _ drop_list "Ind_Cap" Ind_Cap vars
               (fun z r => eq_refl) Hvars).
    simpl. eexists. split; reflexivity.
  - unfold Floor_init, init_with in *.
    apply bind_Ok_inv in Hc as (c & Hc & Hi). injection Hi as <-.
    apply bind_Ok_inv in Hc as (vars & Hvars & Hc). injection Hc as <-.
    rewrite (in_model_with_dropped _ drop_list "Ind_Floor" Ind_Floor vars
               (fun z r => eq_refl) Hvars).
    simpl. eexists. split; reflexivity.
  - unfold MissingImpute_init, init_with in *.
    change (has_column {| header := header (t_reference self);
                          rows := map (dropped drop_list) (rows (t_reference self)) |})
      with (has_column (t_reference self)).
    rewrite Hcol, Hname in *.
    destruct (has_column (t_reference self) "Missing_Impute"); [| discriminate].
    cbn [bind rows] in *. injection Hc as <-.
    rewrite (filter_dropped drop_list (fun r => negb (isnull (Missing_Impute r))))
      by reflexivity.
    eexists. split; reflexivity.
  - unfold Woe_init in *.
    apply bind_Ok_inv in Hc as (c & Hc & Hi). injection Hi as <-.
    apply bind_Ok_inv in Hc as (vars & Hvars & Hc). injection Hc as <-.
    rewrite (in_model_with_dropped _ drop_list "Ind_WOE" Ind_WOE vars
               (fun z r => eq_refl) Hvars).
    simpl. eexists. split; reflexivity.
  - unfold Normalize_init, init_with in *.
    apply bind_Ok_inv in Hc as (c & Hc & Hi). injection Hi as <-.
    apply bind_Ok_inv in Hc as (vars & Hvars & Hc). injection Hc as <-.
    rewrite (in_model_with_dropped _ drop_list "Ind_Norm" Ind_Norm vars
               (fun z r => eq_refl) Hvars).
    simpl. eexists. split; reflexivity.
  - unfold Scale_init, init_with in *.
    apply bind_Ok_inv in Hc as (c & Hc & Hi). injection Hi as <-.
    apply bind_Ok_inv in Hc as (vars & Hvars & Hc). injection Hc as <-.
    rewrite (in_model_with_dropped _ drop_list "Ind_Scale" Ind_Scale vars
               (fun z r => eq_refl) Hvars).
    simpl. eexists. split; reflexivity.
Qed.

Lemma drop_variables_excludes_witness :
  exists self' i',
    drop_variables (Tactic_init mean_config None None None) ["x"] = Ok self'
    /\ compile self' MissingImpute = Ok i'
    /\ instance_apply_list i' = filter (fun v => negb (mem v ["x"])) ["x"]
    /\ forall v, In v ["x"] -> ~ In v (instance_apply_list i').
Proof.
  apply (drop_variables_excludes (Tactic_init mean_config None None None) ["x"]
           MissingImpute
           (Plain MissingImpute (mk_component mean_config mean_config ["x"]))).
  reflexivity.
Defined.

(** ** What the orchestrator changes *)

Lemma fit_loop_facts (L : Library) (ops : list operation) (df_tmp : DataFrame) (w : world) :
  let out := fit_loop L ops df_tmp w in
  master (snd out) = master w
  /\ t_config (self (snd out)) = t_config (self w)
  /\ process_list (self (snd out)) = process_list (self w)
  /\ target (self (snd out)) = target (self w)
  /\ (forall ref, fst out = Ok ref ->
                  ref = t_reference (self (snd out))
                  /\ trace (snd out)
                     = (trace w ++ flat_map (fun op => [FitCalled op; ApplyCalled op]) ops)%list).
Proof.
  revert df_tmp w. induction ops as [| op ops IH]; intros df_tmp w; cbn zeta.
  - simpl. do 4 (split; [reflexivity |]). intros ref H. injection H as <-.
    split; [reflexivity | rewrite app_nil_r; reflexivity].
  - simpl. destruct (compile (self w) op) as [[op' c | i] | e]; simpl.
    + destruct (component_fit L op c df_tmp) as [c' | e]; simpl;
        [| repeat split; congruence].
      destruct (component_apply L op c' df_tmp) as [df_tmp' | e]; simpl;
        [| repeat split; congruence].
      match goal with |- context [fit_loop L ops df_tmp' ?w1] =>
        destruct (IH df_tmp' w1) as (H1 & H2 & H3 & H4 & H5) end.
      simpl in *. repeat split; try assumption.
      * apply H5. assumption.
      * destruct (H5 ref H) as [_ ->]. rewrite <- !app_assoc. reflexivity.
    + destruct (Woe_fit L i df_tmp) as [[i' df_tmp'] | e]; simpl;
        [| repeat split; congruence].
      destruct (Woe_apply L i' df_tmp') as [df_tmp'' | e]; simpl;
        [| repeat split; congruence].
      match goal with |- context [fit_loop L ops df_tmp'' ?w1] =>
        destruct (IH df_tmp'' w1) as (H1 & H2 & H3 & H4 & H5) end.
      simpl in *. repeat split; try assumption.
      * apply H5. assumption.
      * destruct (H5 ref H) as [_ ->]. rewrite <- !app_assoc. reflexivity.
    + repeat split; congruence.
Qed.

(** X15: [Tactic.fit] never touches the caller's frame, the configuration, the
    process list or the target, whatever its outcome.  When it returns, the
    configuration check had found no error, a target is set if Woe is in
    the process list, the table returned is the orchestrator's reference
    table, and every component of the process list has been fitted and
    then applied, one after the other, in the order of the list. *)
Theorem Tactic_fit_effects (L : Library) (w : world) :
  master (snd (Tactic_fit L w)) = master w
  /\ t_config (self (snd (Tactic_fit L w))) = t_config (self w)
  /\ process_list (self (snd (Tactic_fit L w))) = process_list (self w)
  /\ target (self (snd (Tactic_fit L w))) = target (self w)
  /\ (forall ref,
         fst (Tactic_fit L w) = Ok ref ->
         (exists n, check_config_file (self w) (master w) = Ok n /\ (n <= 0)%Z)
         /\ (In Woe (process_list (self w)) -> target (self w) <> None)
         /\ ref = t_reference (self (snd (Tactic_fit L w)))
         /\ trace (snd (Tactic_fit L w))
            = (trace w ++ flat_map (fun op => [FitCalled op; ApplyCalled op])
                                   (process_list (self w)))%list).
Proof.
  unfold Tactic_fit.
  destruct (check_config_file (self w) (master w)) as [n | e] eqn:Hcheck;
    [| simpl; repeat split; congruence].
  destruct (0 <? n)%Z eqn:Hn; [simpl; repeat split; congruence |].
  destruct (check_attribute (self w)) as [[] | e] eqn:Hattr;
    [| simpl; repeat split; congruence].
  destruct (fit_loop_facts L (process_list (self w)) (master w) w)
    as (H1 & H2 & H3 & H4 & H5).
  do 4 (split; [assumption |]). intros ref Href.
  split; [exists n; split; [reflexivity | apply Z.ltb_ge; exact Hn] |].
  split; [| apply H5; exact Href].
  intros Hwoe Htarget. unfold check_attribute in Hattr. rewrite Htarget in Hattr.
  assert (E : existsb (operation_eqb Woe) (process_list (self w)) = true).
  { apply existsb_exists. exists Woe. split; [exact Hwoe | reflexivity]. }
  rewrite E in Hattr. discriminate.
Qed.

Lemma Tactic_fit_effects_witness :
  trace (snd (Tactic_fit sample_library
                {| self := Tactic_init mean_config (Some [MissingImpute]) None None;
                   master := mean_data; trace := [] |}))
  = [FitCalled MissingImpute; ApplyCalled MissingImpute].
Proof.
  destruct (Tactic_fit_effects
              sample_library
              {| self := Tactic_init mean_config (Some [MissingImpute]) None None;
                 master := mean_data; trace := [] |}) as (_ & _ & _ & _ & H).
  destruct (fst (Tactic_fit sample_library
                   {| self := Tactic_init mean_config (Some [MissingImpute]) None None;
                      master := mean_data; trace := [] |})) as [ref | e] eqn:E.
  - exact (proj2 (proj2 (proj2 (H ref eq_refl)))).
  - vm_compute in E. discriminate E.
Defined.

Lemma apply_loop_facts (L : Library) (ops : list operation) (df : DataFrame)
      (aliased : bool) (w : world) :
  let out := apply_loop L ops df aliased w in
  self (snd out) = self w
  /\ (forall df', fst out = Ok df' ->
                  trace (snd out) = (trace w ++ map ApplyCalled ops)%list
                  /\ (aliased = false -> master (snd out) = master w)
                  /\ (aliased = true -> master w = df -> ~ In Woe ops ->
                      master (snd out) = df')).
Proof.
  revert df aliased w. induction ops as [| op ops IH]; intros df aliased w; cbn zeta.
  - simpl. split; [reflexivity |]. intros df' H. injection H as <-.
    rewrite app_nil_r. repeat split; auto.
  - simpl. destruct (compile (self w) op) as [i | e]; simpl;
      [| split; [reflexivity | intros df' H; discriminate]].
    destruct (instance_apply L i df) as [df1 | e]; simpl;
      [| split; [reflexivity | intros df' H; discriminate]].
    match goal with |- context [apply_loop L ops df1 ?a ?w1] =>
      destruct (IH df1 a w1) as (H1 & H2) end.
    split.
    + rewrite H1. destruct (aliased && negb (operation_eqb op Woe)); reflexivity.
    + intros df' H. destruct (H2 df' H) as (Ht & Hno & Hyes).
      split; [| split].
      * rewrite Ht. destruct (aliased && negb (operation_eqb op Woe)); simpl;
          rewrite <- app_assoc; reflexivity.
      * intros ->. simpl in *. apply Hno. reflexivity.
      * intros -> Hm Hwoe. simpl in *.
        assert (E : operation_eqb op Woe = false).
        { destruct op; try reflexivity. exfalso. apply Hwoe. left. reflexivity. }
        rewrite E in *. simpl in *. apply Hyes; auto.
Qed.

(** X16: [Tactic.apply] fits nothing: it leaves the orchestrator as it is and
    calls only the [apply] of each component, in the order of the process
    list.  Without Woe in the list the frame it returns is what the
    caller's frame has become; when Woe comes first, the caller's frame is
    left as it was. *)
Theorem Tactic_apply_effects (L : Library) (w : world) :
  self (snd (Tactic_apply L w)) = self w
  /\ (forall df',
         fst (Tactic_apply L w) = Ok df' ->
         trace (snd (Tactic_apply L w))
         = (trace w ++ map ApplyCalled (process_list (self w)))%list
         /\ (~ In Woe (process_list (self w)) -> master (snd (Tactic_apply L w)) = df')
         /\ (forall ops, process_list (self w) = Woe :: ops ->
                         master (snd (Tactic_apply L w)) = master w)).
Proof.
  unfold Tactic_apply.
  destruct (apply_loop_facts L (process_list (self w)) (master w) true w) as (H1 & H2).
  split; [exact H1 |]. intros df' H. destruct (H2 df' H) as (Ht & _ & Hyes).
  split; [exact Ht |]. split; [intro Hwoe; apply Hyes; auto |].
  intros ops Hops. clear H2 Ht Hyes H1. rewrite Hops in *. cbn [apply_loop] in *.
  destruct (compile (self w) Woe) as [i | e]; cbn [fst snd] in *; [| discriminate].
  destruct (instance_apply L i (master w)) as [df1 | e]; cbn [fst snd] in *;
    [| discriminate].
  cbn [andb operation_eqb negb] in *.
  match goal with |- context [apply_loop L ops df1 false ?w1] =>
    destruct (apply_loop_facts L ops df1 false w1) as (_ & H2) end.
  destruct (H2 df' H) as (_ & Hno & _). rewrite Hno; reflexivity.
Qed.

Lemma Tactic_apply_effects_witness :
  Tactic_apply sample_library
               {| self := Tactic_init (config impute_example) (Some [MissingImpute])
                                      None None;
                  master := [("x", (float64, [Num (qz 1); NA]))]; trace := [] |}
  = (Ok [("x", (float64, [Num (qz 1); Num 0%Qc]))],
     {| self := Tactic_init (config impute_example) (Some [MissingImpute]) None None;
        master := [("x", (float64, [Num (qz 1); Num 0%Qc]))];
        trace := [ApplyCalled MissingImpute] |})
  /\ master (snd (Tactic_apply sample_library
                    {| self := Tactic_init (config impute_example)
                                           (Some [MissingImpute]) None None;
                       master := [("x", (float64, [Num (qz 1); NA]))]; trace := [] |}))
     = [("x", (float64, [Num (qz 1); Num 0%Qc]))].
Proof.
  split; [reflexivity |].
  destruct (Tactic_apply_effects
              sample_library
              {| self := Tactic_init (config impute_example) (Some [MissingImpute])
                                     None None;
                 master := [("x", (float64, [Num (qz 1); NA]))]; trace := [] |}) as (_ & H).
  destruct (H [("x", (float64, [Num (qz 1); Num 0%Qc]))] eq_refl) as (_ & Hmaster & _).
  apply Hmaster. simpl. intros [E | []]. discriminate E.
Defined.

(** ** The configuration check *)

(** A loop that counts the variables for which a test answers yes. *)
Definition counting (errs : string -> result bool) :=
  fun (cnt : Z) (var : string) =>
    b <- errs var ;; Ok (if b then (cnt + 1)%Z else cnt).

Lemma counting_grows (errs : string -> result bool) (vars : list string) (c c' : Z) :
  for_each (counting errs) vars c = Ok c' ->
  (c <= c')%Z /\ (c' = c -> forall v, In v vars -> errs v = Ok false).
Proof.
  revert c. induction vars as [| x vars IH]; intros c H; simpl in H.
  - injection H as <-. split; [lia | intros _ v []].
  - apply bind_Ok_inv in H as (c1 & Hx & H). unfold counting in Hx.
    apply bind_Ok_inv in Hx as (b & Hb & Hx). injection Hx as <-.
    destruct (IH _ H) as [Hle Hzero]. destruct b.
    + split; [lia | intro E; lia].
    + split; [exact Hle |]. intros E v [<- | Hv]; [exact Hb | apply Hzero; assumption].
Qed.

Lemma counting_nothing (errs : string -> result bool) (vars : list string) (c : Z) :
  (forall v, In v vars -> errs v = Ok false) ->
  for_each (counting errs) vars c = Ok c.
Proof.
  induction vars as [| x vars IH]; intro H; simpl; [reflexivity |].
  unfold counting at 1. rewrite (H x (or_introl eq_refl)). simpl.
  apply IH. intros v Hv. apply H. right. exact Hv.
Qed.

(** The loop raises what the first failing test raises. *)
Lemma counting_raises (errs : string -> result bool) (P : exn -> Prop)
      (vars : list string) (c : Z) :
  (forall v e, In v vars -> errs v = Raise e -> P e) ->
  (exists v e, In v vars /\ errs v = Raise e) ->
  exists e, for_each (counting errs) vars c = Raise e /\ P e.
Proof.
  revert c. induction vars as [| x vars IH]; intros c HP (v & e & Hv & He);
    [contradiction |].
  simpl. unfold counting at 1.
  destruct (errs x) as [b | e'] eqn:Hx; simpl.
  - apply IH.
    + intros u eu Hu. apply HP. right. exact Hu.
    + destruct Hv as [-> | Hv]; [congruence |]. exists v, e. split; assumption.
  - exists e'. split; [reflexivity |]. apply (HP x e' (or_introl eq_refl) Hx).
Qed.

(** The test of the type loop for one variable. *)
Definition type_error (num_var_list cag_var_list : list string) (df : DataFrame)
           (var : string) : result bool :=
  if negb (mem var num_var_list) && negb (mem var cag_var_list) then Ok true
  else
    wrong_num <-
      (if mem var num_var_list then
         d <- dtypes df var ;; Ok (negb (in_num_type_list d))
       else Ok false) ;;
    if wrong_num then Ok true
    else
      if mem var cag_var_list then
        d <- dtypes df var ;; Ok (negb (in_cag_type_list d))
      else Ok false.

(** The test of the cap and floor loop for one categorical variable. *)
Definition cap_floor_error (cfg : Table) (var : string) : result bool :=
  ind_cap <- first_where cfg "Ind_Cap" Ind_Cap var ;;
  if Z.eqb ind_cap 1 then Ok true
  else ind_floor <- first_where cfg "Ind_Floor" Ind_Floor var ;;
       Ok (Z.eqb ind_floor 1).

Definition numerical_names (cfg : Table) : list string :=
  map Var_Name (filter (fun r => String.eqb (Var_Type r) "numerical") (rows cfg)).

Definition categorical_names (cfg : Table) : list string :=
  map Var_Name (filter (fun r => String.eqb (Var_Type r) "categorical") (rows cfg)).

Definition header_errors (cfg : Table) : Z :=
  if nonempty (filter (fun c => negb (mem c allow_header)) (header cfg)) then 1%Z else 0%Z.

Definition name_errors (cfg : Table) (df : DataFrame) : Z :=
  if nonempty (filter (fun var => negb (mem var (columns df))) (map Var_Name (rows cfg)))
  then 1%Z else 0%Z.

(** [check_config_file] as the sum of its stages, for a table that has the
    columns the check reads. *)
Lemma check_config_file_stages (self : tactic) (df : DataFrame) :
  has_column (t_config self) "Var_Name" = true ->
  has_column (t_config self) "Var_Type" = true ->
  has_column (t_config self) "Missing_Impute" = true ->
  check_config_file self df =
  (c1 <- for_each (counting (type_error (numerical_names (t_config self))
                                        (categorical_names (t_config self)) df))
                  (map Var_Name (rows (t_config self)))
                  (header_errors (t_config self) + name_errors (t_config self) df)%Z ;;
   for_each (counting (cap_floor_error (t_config self)))
            (categorical_names (t_config self)) c1).
Proof.
  intros Hn Ht Hm. unfold check_config_file, column. rewrite Hn, Ht. cbn [bind].
  fold (numerical_names (t_config self)). fold (categorical_names (t_config self)).
  assert (E0 : (if nonempty
                     (filter (fun var => negb (mem var (columns df)))
                             (map Var_Name (rows (t_config self))))
                then ((if nonempty (filter (fun c => negb (mem c allow_header))
                                           (header (t_config self)))
                       then 0 + 1 else 0) + 1)%Z
                else (if nonempty (filter (fun c => negb (mem c allow_header))
                                          (header (t_config self)))
                      then (0 + 1)%Z else 0%Z))
               = (header_errors (t_config self) + name_errors (t_config self) df)%Z).
  { unfold header_errors, name_errors.
    destruct (nonempty (filter (fun var => negb (mem var (columns df))) _));
      destruct (nonempty (filter (fun c => negb (mem c allow_header)) _)); reflexivity. }
  rewrite E0.
  rewrite (for_each_ext _ (counting (type_error (numerical_names (t_config self))
                                                (categorical_names (t_config self)) df))).
  2:{ intros cnt var. unfold counting, type_error.
      destruct (negb (mem var (numerical_names (t_config self)))
                && negb (mem var (categorical_names (t_config self)))); [reflexivity |].
      destruct (mem var (numerical_names (t_config self)));
        destruct (mem var (categorical_names (t_config self)));
        destruct (dtypes df var) as [[] | e]; reflexivity. }
  destruct (for_each _ (map Var_Name (rows (t_config self))) _) as [c1 | e];
    [| reflexivity].
  cbn [bind].
  rewrite (for_each_ext _ (counting (cap_floor_error (t_config self)))).
  2:{ intros cnt var. unfold counting, cap_floor_error.
      destruct (first_where (t_config self) "Ind_Cap" Ind_Cap var) as [ic | e];
        [| reflexivity].
      cbn [bind]. destruct (Z.eqb ic 1); [reflexivity |].
      destruct (first_where (t_config self) "Ind_Floor" Ind_Floor var) as [fl | e];
        [| reflexivity].
      cbn [bind]. destruct (Z.eqb fl 1); reflexivity. }
  destruct (for_each _ (categorical_names (t_config self)) c1) as [c2 | e];
    [| reflexivity].
  cbn [bind]. unfold numerical_names.
  pose proof (imputation_loop_counts_nothing (t_config self)
                (map Var_Name (filter (fun r => String.eqb (Var_Type r) "numerical")
                                      (rows (t_config self)))) c2 Hm) as Himp.
  cbv zeta in Himp. unfold column in Himp. rewrite Himp. reflexivity.
Qed.

Lemma dtypes_Raise (df : DataFrame) (v : string) (e : exn) :
  dtypes df v = Raise e -> e = KeyError v /\ ~ In v (columns df).
Proof.
  unfold columns. induction df as [| [n [t c]] df IH]; simpl.
  - intro H. injection H as <-. split; [reflexivity | intros []].
  - destruct (String.eqb n v) eqn:E; [discriminate |]. intro H.
    destruct (IH H) as [-> Hnot]. split; [reflexivity |].
    intros [-> | Hin]; [rewrite String.eqb_refl in E; discriminate | contradiction].
Qed.

Lemma dtypes_absent (df : DataFrame) (v : string) :
  ~ In v (columns df) -> dtypes df v = Raise (KeyError v).
Proof.
  unfold columns. induction df as [| [n [t c]] df IH]; simpl; [reflexivity |].
  intro H. destruct (String.eqb n v) eqn:E.
  - exfalso. apply H. left. apply String.eqb_eq. exact E.
  - apply IH. intro Hin. apply H. right. exact Hin.
Qed.

Lemma dtypes_present (df : DataFrame) (v : string) (d : dtype) :
  dtypes df v = Ok d -> In v (columns df).
Proof.
  unfold columns. induction df as [| [n [t c]] df IH]; simpl; [discriminate |].
  destruct (String.eqb n v) eqn:E; [left; apply String.eqb_eq; exact E |].
  intro H. right. apply IH. exact H.
Qed.

Lemma type_error_Raise (num cag : list string) (df : DataFrame) (v : string) (e : exn) :
  type_error num cag df v = Raise e -> e = KeyError v /\ ~ In v (columns df).
Proof.
  unfold type_error.
  destruct (negb (mem v num) && negb (mem v cag)); [discriminate |].
  destruct (dtypes df v) as [d | e'] eqn:Hcol.
  - destruct (mem v num); simpl.
    + destruct (negb (in_num_type_list d)); [discriminate |].
      destruct (mem v cag); discriminate.
    + destruct (mem v cag); discriminate.
  - apply dtypes_Raise in Hcol as [-> Hnot].
    destruct (mem v num); simpl; [intro H; injection H as <-; split; auto |].
    destruct (mem v cag); simpl; [intro H; injection H as <-; split; auto |].
    discriminate.
Qed.

Lemma type_error_absent (num cag : list string) (df : DataFrame) (v : string) :
  mem v num = true \/ mem v cag = true -> ~ In v (columns df) ->
  type_error num cag df v = Raise (KeyError v).
Proof.
  intros Hv Hnot. unfold type_error. rewrite (dtypes_absent df v Hnot).
  destruct (mem v num) eqn:En; simpl; [reflexivity |].
  destruct Hv as [Hv | Hv]; [discriminate |]. rewrite Hv. reflexivity.
Qed.

(** The type loop is the first thing of the check that can raise: what it
    raises, the check raises. *)
Lemma check_config_file_type_loop (self : tactic) (df : DataFrame) (e : exn) :
  has_column (t_config self) "Var_Name" = true ->
  has_column (t_config self) "Var_Type" = true ->
  for_each (counting (type_error (numerical_names (t_config self))
                                 (categorical_names (t_config self)) df))
           (map Var_Name (rows (t_config self)))
           (header_errors (t_config self) + name_errors (t_config self) df)%Z
  = Raise e ->
  check_config_file self df = Raise e.
Proof.
  intros Hn Ht Hloop. unfold check_config_file, column. rewrite Hn, Ht. cbn [bind].
  fold (numerical_names (t_config self)). fold (categorical_names (t_config self)).
  rewrite (for_each_ext _ (counting (type_error (numerical_names (t_config self))
                                                (categorical_names (t_config self)) df))).
  2:{ intros cnt var. unfold counting, type_error.
      destruct (negb (mem var (numerical_names (t_config self)))
                && negb (mem var (categorical_names (t_config self)))); [reflexivity |].
      destruct (mem var (numerical_names (t_config self)));
        destruct (mem var (categorical_names (t_config self)));
        destruct (dtypes df var) as [[] | e0]; reflexivity. }
  unfold header_errors, name_errors in Hloop.
  destruct (nonempty (filter (fun var => negb (mem var (columns df))) _));
    destruct (nonempty (filter (fun c => negb (mem c allow_header)) _));
    cbn [Z.add Pos.add] in *; rewrite Hloop; reflexivity.
Qed.

(** X17: When a configured numerical or categorical variable is not a column of
    the frame, [check_config_file] does not return a count: it raises the
    key error for such a variable, and so does [Tactic.fit], before any
    component is built. *)
Theorem check_config_file_missing_variable
        (L : Library) (w : world) (r : config_row) :
  has_column (t_config (self w)) "Var_Name" = true ->
  has_column (t_config (self w)) "Var_Type" = true ->
  In r (rows (t_config (self w))) ->
  Var_Type r = "numerical" \/ Var_Type r = "categorical" ->
  ~ In (Var_Name r) (columns (master w)) ->
  exists v,
    ~ In v (columns (master w))
    /\ check_config_file (self w) (master w) = Raise (KeyError v)
    /\ Tactic_fit L w = (Raise (KeyError v), w).
Proof.
  intros Hn Ht Hr Htype Habsent.
  destruct (counting_raises
              (type_error (numerical_names (t_config (self w)))
                          (categorical_names (t_config (self w))) (master w))
              (fun e => exists v, e = KeyError v /\ ~ In v (columns (master w)))
              (map Var_Name (rows (t_config (self w))))
              (header_errors (t_config (self w))
               + name_errors (t_config (self w)) (master w))%Z)
    as (e & Hloop & v & -> & Hv).
  - intros v e _ He. apply type_error_Raise in He as [-> Hnot]. exists v. auto.
  - exists (Var_Name r), (KeyError (Var_Name r)). split; [apply in_map; exact Hr |].
    apply type_error_absent; [| exact Habsent].
    destruct Htype as [E | E]; [left | right]; apply mem_In, in_map, filter_In;
      (split; [exact Hr | rewrite E; reflexivity]).
  - exists v. split; [exact Hv |].
    pose proof (check_config_file_type_loop (self w) (master w) _ Hn Ht Hloop) as Hcheck.
    split; [exact Hcheck |]. unfold Tactic_fit. rewrite Hcheck. reflexivity.
Qed.

Lemma check_config_file_missing_variable_witness :
  exists v,
    ~ In v (columns [("y", (float64, [Num (qz 1)]))])
    /\ check_config_file (Tactic_init mean_config None None None)
                         [("y", (float64, [Num (qz 1)]))]
       = Raise (KeyError v)
    /\ Tactic_fit sample_library
                  {| self := Tactic_init mean_config None None None;
                     master := [("y", (float64, [Num (qz 1)]))]; trace := [] |}
       = (Raise (KeyError v),
          {| self := Tactic_init mean_config None None None;
             master := [("y", (float64, [Num (qz 1)]))]; trace := [] |}).
Proof.
  apply (check_config_file_missing_variable sample_library
           {| self := Tactic_init mean_config None None None;
              master := [("y", (float64, [Num (qz 1)]))]; trace := [] |}
           (set_Missing_Impute (Str "mean") (plain_row "x"))).
  - reflexivity.
  - reflexivity.
  - left. reflexivity.
  - left. reflexivity.
  - simpl. intros [H | []]. discriminate.
Defined.

Lemma nonempty_filter_false {A : Type} (f : A -> bool) (l : list A) :
  nonempty (filter f l) = false <-> forall x, In x l -> f x = false.
Proof.
  induction l as [| y l IH]; simpl; [split; [intros _ x [] | reflexivity] |].
  destruct (f y) eqn:E; simpl.
  - split; [discriminate |]. intro H. rewrite (H y (or_introl eq_refl)) in E.
    discriminate.
  - rewrite IH. split.
    + intros H x [<- | Hx]; [exact E | apply H; exact Hx].
    + intros H x Hx. apply H. right. exact Hx.
Qed.

Lemma NoDup_map_inj {A B : Type} (f : A -> B) (l : list A) (x y : A) :
  NoDup (map f l) -> In x l -> In y l -> f x = f y -> x = y.
Proof.
  induction l as [| z l IH]; simpl; intros Hnd Hx Hy Hf; [contradiction |].
  inversion Hnd as [| ? ? Hnot Hnd']; subst.
  destruct Hx as [-> | Hx], Hy as [-> | Hy].
  - reflexivity.
  - exfalso. apply Hnot. rewrite Hf. apply in_map. exact Hy.
  - exfalso. apply Hnot. rewrite <- Hf. apply in_map. exact Hx.
  - apply IH; assumption.
Qed.

Section UniqueNames.

Variable cfg : Table.
Hypothesis unique_names : NoDup (map Var_Name (rows cfg)).

Lemma mem_names_unique (p : config_row -> bool) (r : config_row) :
  In r (rows cfg) -> mem (Var_Name r) (map Var_Name (filter p (rows cfg))) = p r.
Proof.
  intro Hr. destruct (p r) eqn:E.
  - apply mem_In, in_map, filter_In. split; assumption.
  - destruct (mem _ _) eqn:M; [| reflexivity].
    apply mem_In, in_map_iff in M as (r' & Hname & Hr').
    apply filter_In in Hr' as [Hr' Hp].
    rewrite (NoDup_map_inj Var_Name (rows cfg) r' r unique_names Hr' Hr Hname) in Hp.
    congruence.
Qed.

Lemma first_where_unique {X : Type} (name : string) (proj : config_row -> X)
      (r : config_row) :
  has_column cfg name = true -> has_column cfg "Var_Name" = true ->
  In r (rows cfg) ->
  first_where cfg name proj (Var_Name r) = Ok (proj r).
Proof.
  intros Hc Hn Hr. unfold first_where. rewrite Hc, Hn.
  destruct (rows_of cfg (Var_Name r)) as [| r' rest] eqn:E.
  - exfalso. assert (Hin : In r (rows_of cfg (Var_Name r))).
    { unfold rows_of. apply filter_In. split; [exact Hr | apply String.eqb_refl]. }
    rewrite E in Hin. exact Hin.
  - assert (Hin : In r' (rows_of cfg (Var_Name r))) by (rewrite E; left; reflexivity).
    unfold rows_of in Hin. apply filter_In in Hin as [Hr' Hname].
    apply String.eqb_eq in Hname.
    rewrite (NoDup_map_inj Var_Name (rows cfg) r' r unique_names Hr' Hr Hname).
    reflexivity.
Qed.

End UniqueNames.

(** A row that passes the check against a frame. *)
Definition has_dtype (df : DataFrame) (var : string) (ok : dtype -> bool) : Prop :=
  exists d, dtypes df var = Ok d /\ ok d = true.

Definition row_accepted (df : DataFrame) (r : config_row) : Prop :=
  (Var_Type r = "numerical" /\ has_dtype df (Var_Name r) in_num_type_list)
  \/ (Var_Type r = "categorical" /\ has_dtype df (Var_Name r) in_cag_type_list
      /\ Ind_Cap r <> 1%Z /\ Ind_Floor r <> 1%Z).

Lemma type_error_accepted (cfg : Table) (df : DataFrame) (r : config_row) :
  NoDup (map Var_Name (rows cfg)) -> In r (rows cfg) ->
  (type_error (numerical_names cfg) (categorical_names cfg) df (Var_Name r) = Ok false
   <-> (Var_Type r = "numerical" /\ has_dtype df (Var_Name r) in_num_type_list)
       \/ (Var_Type r = "categorical" /\ has_dtype df (Var_Name r) in_cag_type_list)).
Proof.
  intros Hnd Hr. unfold type_error, numerical_names, categorical_names, has_dtype.
  rewrite !(mem_names_unique cfg Hnd) by exact Hr.
  destruct (String.eqb (Var_Type r) "numerical") eqn:En.
  - apply String.eqb_eq in En. rewrite En. simpl.
    destruct (dtypes df (Var_Name r)) as [d | e]; cbn [bind].
    + destruct (in_num_type_list d) eqn:Ed; simpl; split; intro H.
      * left. split; [reflexivity |]. exists d. split; [reflexivity | exact Ed].
      * reflexivity.
      * discriminate.
      * destruct H as [[_ (d' & H & H')] | [H _]]; [| discriminate].
        injection H as <-. congruence.
    + split; [discriminate |].
      intros [[_ (d' & H & _)] | [H _]]; discriminate.
  - apply String.eqb_neq in En.
    destruct (String.eqb (Var_Type r) "categorical") eqn:Ec; simpl.
    + apply String.eqb_eq in Ec.
      destruct (dtypes df (Var_Name r)) as [d | e]; cbn [bind].
      * destruct (in_cag_type_list d) eqn:Ed; simpl; split; intro H.
        -- right. split; [exact Ec |]. exists d. split; [reflexivity | exact Ed].
        -- reflexivity.
        -- discriminate.
        -- destruct H as [[H _] | [_ (d' & H & H')]]; [contradiction |].
           injection H as <-. congruence.
      * split; [discriminate |].
        intros [[H _] | [_ (d' & H & _)]]; [contradiction | discriminate].
    + apply String.eqb_neq in Ec. split; [discriminate |].
      intros [[H _] | [H _]]; contradiction.
Qed.

Lemma cap_floor_error_accepted (cfg : Table) (r : config_row) :
  NoDup (map Var_Name (rows cfg)) ->
  has_column cfg "Var_Name" = true ->
  has_column cfg "Ind_Cap" = true -> has_column cfg "Ind_Floor" = true ->
  In r (rows cfg) ->
  (cap_floor_error cfg (Var_Name r) = Ok false
   <-> Ind_Cap r <> 1%Z /\ Ind_Floor r <> 1%Z).
Proof.
  intros Hnd Hn Hc Hf Hr. unfold cap_floor_error.
  rewrite (first_where_unique cfg Hnd "Ind_Cap" Ind_Cap r Hc Hn Hr),
          (first_where_unique cfg Hnd "Ind_Floor" Ind_Floor r Hf Hn Hr).
  simpl. destruct (Z.eqb_spec (Ind_Cap r) 1); simpl.
  - split; [discriminate | intros [H _]; contradiction].
  - destruct (Z.eqb_spec (Ind_Floor r) 1); split; try discriminate; auto.
    + intros [_ H]; contradiction.
Qed.

Lemma check_config_file_zero_iff (self : tactic) (df : DataFrame) :
  NoDup (map Var_Name (rows (t_config self))) ->
  has_column (t_config self) "Var_Name" = true ->
  has_column (t_config self) "Var_Type" = true ->
  has_column (t_config self) "Ind_Cap" = true ->
  has_column (t_config self) "Ind_Floor" = true ->
  has_column (t_config self) "Missing_Impute" = true ->
  (check_config_file self df = Ok 0%Z
   <-> (forall c, In c (header (t_config self)) -> In c allow_header)
       /\ forall r, In r (rows (t_config self)) -> row_accepted df r).
Proof.
  intros Hnd Hn Ht Hc Hf Hm. rewrite (check_config_file_stages self df Hn Ht Hm).
  set (cfg := t_config self) in *.
  assert (Hh : (0 <= header_errors cfg)%Z)
    by (unfold header_errors; destruct (nonempty _); lia).
  assert (Hv : (0 <= name_errors cfg df)%Z)
    by (unfold name_errors; destruct (nonempty _); lia).
  split.
  - intro H. apply bind_Ok_inv in H as (c1 & H1 & H2).
    apply counting_grows in H1 as [Hle1 Hz1]. apply counting_grows in H2 as [Hle2 Hz2].
    assert (E1 : c1 = 0%Z) by lia. subst c1.
    assert (Eh : header_errors cfg = 0%Z) by lia.
    assert (Ev : name_errors cfg df = 0%Z) by lia.
    split.
    + intros c Hin. unfold header_errors in Eh.
      destruct (nonempty (filter (fun c => negb (mem c allow_header)) (header cfg)))
        eqn:E; [discriminate |].
      pose proof (proj1 (nonempty_filter_false _ _) E c Hin) as K.
      apply negb_false_iff in K. apply mem_In. exact K.
    + intros r Hr.
      assert (Hte : type_error (numerical_names cfg) (categorical_names cfg) df
                               (Var_Name r) = Ok false).
      { apply Hz1; [lia | apply in_map; exact Hr]. }
      apply (type_error_accepted cfg df r Hnd Hr) in Hte.
      destruct Hte as [[Hty Hd] | [Hty Hd]]; [left; split; assumption | right].
      split; [exact Hty |]. split; [exact Hd |].
      apply (cap_floor_error_accepted cfg r Hnd Hn Hc Hf Hr).
      apply Hz2; [reflexivity |]. unfold categorical_names. apply in_map, filter_In.
      split; [exact Hr | rewrite Hty; reflexivity].
  - intros [Hheader Hrows].
    assert (Eh : header_errors cfg = 0%Z).
    { unfold header_errors.
      replace (nonempty (filter (fun c => negb (mem c allow_header)) (header cfg)))
        with false; [reflexivity |].
      symmetry. apply nonempty_filter_false. intros c Hin.
      apply negb_false_iff, mem_In, Hheader, Hin. }
    assert (Ev : name_errors cfg df = 0%Z).
    { unfold name_errors.
      replace (nonempty (filter (fun var => negb (mem var (columns df)))
                                (map Var_Name (rows cfg))))
        with false; [reflexivity |].
      symmetry. apply nonempty_filter_false. intros v Hin.
      apply in_map_iff in Hin as (r & <- & Hr).
      apply negb_false_iff, mem_In.
      assert (Hd : exists d, dtypes df (Var_Name r) = Ok d)
        by (destruct (Hrows r Hr) as [[_ (d & H & _)] | [_ [(d & H & _) _]]]; eauto).
      destruct Hd as (d & Hd).
      eapply dtypes_present. exact Hd. }
    rewrite Eh, Ev. simpl Z.add.
    rewrite counting_nothing; [cbn [bind]; apply counting_nothing |].
    + intros v Hin. unfold categorical_names in Hin.
      apply in_map_iff in Hin as (r & <- & Hr). apply filter_In in Hr as [Hr Hty].
      apply String.eqb_eq in Hty.
      apply (cap_floor_error_accepted cfg r Hnd Hn Hc Hf Hr).
      destruct (Hrows r Hr) as [[H _] | (_ & _ & H)]; [| exact H].
      rewrite Hty in H. discriminate.
    + intros v Hin. apply in_map_iff in Hin as (r & <- & Hr).
      apply (type_error_accepted cfg df r Hnd Hr).
      destruct (Hrows r Hr) as [[H1 H2] | (H1 & H2 & _)]; [left | right]; split;
        assumption.
Qed.

(** X18: For a configuration with distinct variable names (and the columns the
    check reads), [check_config_file] returns 0 exactly when every column
    name of the table is an allowed one and every variable is either
    numerical with a numeric column in the frame, or categorical with an
    object column and neither cap nor floor switched on.  The imputation
    token plays no part. *)
Theorem check_config_file_zero (self : tactic) (df : DataFrame) :
  NoDup (map Var_Name (rows (t_config self))) ->
  has_column (t_config self) "Var_Name" = true ->
  has_column (t_config self) "Var_Type" = true ->
  has_column (t_config self) "Ind_Cap" = true ->
  has_column (t_config self) "Ind_Floor" = true ->
  has_column (t_config self) "Missing_Impute" = true ->
  (check_config_file self df = Ok 0%Z
   <-> (forall c, In c (header (t_config self)) -> In c allow_header)
       /\ forall r, In r (rows (t_config self)) -> row_accepted df r).
Proof. exact (check_config_file_zero_iff self df). Qed.

Lemma check_config_file_zero_witness :
  check_config_file (Tactic_init bad_token_config None None None)
                    [("x", (float64, [Num (qz 1); Num (qz 2)]))]
  = Ok 0%Z
  <-> (forall c, In c (header bad_token_config) -> In c allow_header)
      /\ forall r, In r (rows bad_token_config) ->
                   row_accepted [("x", (float64, [Num (qz 1); Num (qz 2)]))] r.
Proof.
  apply (check_config_file_zero (Tactic_init bad_token_config None None None)
                                [("x", (float64, [Num (qz 1); Num (qz 2)]))]).
  - simpl. constructor; [intros [] | constructor].
  - reflexivity.
  - reflexivity.
  - reflexivity.
  - reflexivity.
  - reflexivity.
Defined.

(** ** The process list *)

Lemma operation_eqb_eq (a b : operation) : operation_eqb a b = true <-> a = b.
Proof. destruct a, b; simpl; split; intro H; try reflexivity; discriminate. Qed.

Lemma in_process_list (op : operation) (l : list operation) :
  existsb (operation_eqb op) l = true <-> In op l.
Proof.
  rewrite existsb_exists. split.
  - intros (x & Hx & E). apply operation_eqb_eq in E. subst. exact Hx.
  - intro H. exists op. split; [exact H | apply operation_eqb_eq; reflexivity].
Qed.

(** What one round of the loop of [add_process] keeps and changes. *)
Record extends (l : list operation) (self self' : tactic) : Prop := {
  extends_list : exists added, process_list self' = (process_list self ++ added)%list
                               /\ forall op, In op added -> In op l;
  extends_config : t_config self' = t_config self;
  extends_reference : t_reference self' = t_reference self;
  extends_target : forall t, target self = Some t -> target self' = Some t;
  extends_woe : forall r, woe_reference self = Some r -> woe_reference self' = Some r
}.

Lemma extends_refl (l : list operation) (self : tactic) : extends l self self.
Proof.
  split; try reflexivity; try (intros; assumption).
  exists []. rewrite app_nil_r. split; [reflexivity | intros op []].
Qed.

Lemma extends_trans (l : list operation) (a b c : tactic) :
  extends l a b -> extends l b c -> extends l a c.
Proof.
  intros [(x & Hx & Hxl) Hc1 Hr1 Ht1 Hw1] [(y & Hy & Hyl) Hc2 Hr2 Ht2 Hw2]. split.
  - exists (x ++ y)%list. rewrite Hy, Hx, app_assoc. split; [reflexivity |].
    intros op Hin. apply in_app_or in Hin as [H | H]; auto.
  - congruence.
  - congruence.
  - intros t H. apply Ht2, Ht1, H.
  - intros r H. apply Hw2, Hw1, H.
Qed.

Lemma add_one_present (tg : option string) (wr : option WoeTable)
      (self : tactic) (op : operation) :
  In op (process_list self) -> add_one tg wr self op = self.
Proof.
  intro H. unfold add_one. apply in_process_list in H. rewrite H. reflexivity.
Qed.

Lemma add_one_list (tg : option string) (wr : option WoeTable)
      (self : tactic) (op : operation) :
  process_list (add_one tg wr self op)
  = if existsb (operation_eqb op) (process_list self) then process_list self
    else (process_list self ++ [op])%list.
Proof.
  unfold add_one. destruct (existsb (operation_eqb op) (process_list self)); simpl;
    [reflexivity |].
  destruct (operation_eqb op Woe); [| reflexivity].
  destruct (woe_reference self); simpl; destruct (target self); reflexivity.
Qed.

Lemma add_one_extends (tg : option string) (wr : option WoeTable) (l : list operation)
      (self : tactic) (op : operation) :
  In op l -> extends l self (add_one tg wr self op).
Proof.
  intro Hop. split.
  - rewrite add_one_list. destruct (existsb (operation_eqb op) (process_list self)).
    + exists []. rewrite app_nil_r. split; [reflexivity | intros x []].
    + exists [op]. split; [reflexivity |]. intros x [<- | []]. exact Hop.
  - unfold add_one. destruct (existsb _ _); simpl; [reflexivity |].
    destruct (operation_eqb op Woe); [| reflexivity].
    destruct (woe_reference self); simpl; destruct (target self); reflexivity.
  - unfold add_one. destruct (existsb _ _); simpl; [reflexivity |].
    destruct (operation_eqb op Woe); [| reflexivity].
    destruct (woe_reference self); simpl; destruct (target self); reflexivity.
  - intros t Ht. unfold add_one. destruct (existsb _ _); simpl; [exact Ht |].
    destruct (operation_eqb op Woe); [| exact Ht].
    destruct (woe_reference self); simpl; rewrite Ht; exact Ht.
  - intros r Hr. unfold add_one. destruct (existsb _ _); simpl; [exact Hr |].
    destruct (operation_eqb op Woe); [| exact Hr].
    rewrite Hr. simpl. destruct (target self); exact Hr.
Qed.

Lemma add_one_NoDup (tg : option string) (wr : option WoeTable)
      (self : tactic) (op : operation) :
  NoDup (process_list self) ->
  NoDup (process_list (add_one tg wr self op))
  /\ In op (process_list (add_one tg wr self op)).
Proof.
  intro Hnd. rewrite add_one_list.
  destruct (existsb (operation_eqb op) (process_list self)) eqn:E.
  - split; [exact Hnd | apply in_process_list; exact E].
  - split; [| apply in_or_app; right; left; reflexivity].
    apply NoDup_app; [exact Hnd | constructor; [intros [] | constructor] |].
    intros x Hx [<- | []].
    apply in_process_list in Hx. congruence.
Qed.

Lemma add_loop_facts (tg : option string) (wr : option WoeTable) (all l : list operation)
      (self : tactic) :
  (forall op, In op l -> In op all) ->
  NoDup (process_list self) ->
  extends all self (fold_left (add_one tg wr) l self)
  /\ NoDup (process_list (fold_left (add_one tg wr) l self))
  /\ forall op, In op l -> In op (process_list (fold_left (add_one tg wr) l self)).
Proof.
  revert self. induction l as [| op l IH]; intros self Hall Hnd; simpl.
  - split; [apply extends_refl |]. split; [exact Hnd | intros op []].
  - destruct (add_one_NoDup tg wr self op Hnd) as [Hnd' Hin'].
    destruct (IH (add_one tg wr self op)) as (Hext & Hnd'' & Hins);
      [intros x Hx; apply Hall; right; exact Hx | exact Hnd' |].
    split; [| split; [exact Hnd'' |]].
    + eapply extends_trans; [| exact Hext].
      apply add_one_extends. apply Hall. left. reflexivity.
    + intros x [<- | Hx]; [| apply Hins; exact Hx].
      destruct Hext as [(added & -> & _) _ _ _ _]. apply in_or_app. left. exact Hin'.
Qed.

Lemma add_loop_present (tg : option string) (wr : option WoeTable) (l : list operation)
      (self : tactic) :
  (forall op, In op l -> In op (process_list self)) ->
  fold_left (add_one tg wr) l self = self.
Proof.
  induction l as [| op l IH]; intro H; simpl; [reflexivity |].
  rewrite add_one_present by (apply H; left; reflexivity).
  apply IH. intros x Hx. apply H. right. exact Hx.
Qed.

(** X19: [add_process] with a list never puts a component twice into the
    process list: the components that were there stay, in their order, the
    new ones follow, and a second call with the same list changes nothing.
    The configuration and the reference table are not touched, and a
    target or WOE reference table that is set is never replaced.  With a
    single component class instead of a list the call fails. *)
Theorem add_process_no_duplicates (self : tactic) (l : list operation)
        (tg : option string) (wr : option WoeTable) :
  NoDup (process_list self) ->
  (forall op, add_process self (OneClass op) tg wr = None)
  /\ exists self' added,
       add_process self (ClassList l) tg wr = Some self'
       /\ process_list self' = (process_list self ++ added)%list
       /\ NoDup (process_list self')
       /\ (forall op, In op (process_list self') <-> In op (process_list self) \/ In op l)
       /\ t_config self' = t_config self
       /\ t_reference self' = t_reference self
       /\ (forall t, target self = Some t -> target self' = Some t)
       /\ (forall r, woe_reference self = Some r -> woe_reference self' = Some r)
       /\ add_process self' (ClassList l) tg wr = Some self'.
Proof.
  intro Hnd. split; [reflexivity |].
  destruct (add_loop_facts tg wr l l self (fun op H => H) Hnd)
    as ([(added & Hadded & Hfrom) Hc Hr Ht Hw] & Hnd' & Hins).
  exists (fold_left (add_one tg wr) l self), added. simpl.
  split; [reflexivity |]. split; [exact Hadded |]. split; [exact Hnd' |].
  split; [| split; [exact Hc | split; [exact Hr | split; [exact Ht | split; [exact Hw |]]]]].
  - intro op. split.
    + rewrite Hadded. intro H. apply in_app_or in H as [H | H]; auto.
    + intros [H | H]; [rewrite Hadded; apply in_or_app; left; exact H | apply Hins, H].
  - rewrite (add_loop_present tg wr l _ Hins). reflexivity.
Qed.

Lemma add_process_no_duplicates_witness :
  add_process (Tactic_init mean_config (Some [Cap]) None None)
              (ClassList [Woe; Cap; Floor; Woe]) (Some "y") None
  = Some (mk_tactic mean_config mean_config [Cap; Woe; Floor] (Some "y") None)
  /\ exists self' added,
       add_process (Tactic_init mean_config (Some [Cap]) None None)
                   (ClassList [Woe; Cap; Floor; Woe]) (Some "y") None = Some self'
       /\ process_list self' = ([Cap] ++ added)%list
       /\ NoDup (process_list self').
Proof.
  split; [reflexivity |].
  destruct (add_process_no_duplicates
              (Tactic_init mean_config (Some [Cap]) None None)
              [Woe; Cap; Floor; Woe] (Some "y") None)
    as (_ & self' & added & H1 & H2 & H3 & _).
  - simpl. constructor; [intros [] | constructor].
  - exists self', added. repeat split; assumption.
Defined.


(** ** Fitting Scale and Normalize on a table that was fitted before *)

Lemma existsb_app_false {A : Type} (f : A -> bool) (l1 l2 : list A) :
  existsb f l1 = false -> existsb f l2 = false -> existsb f (l1 ++ l2) = false.
Proof. intros H1 H2. rewrite existsb_app, H1, H2. reflexivity. Qed.

Lemma existsb_map_false {A B : Type} (f : B -> bool) (g : A -> B) (l : list A) :
  (forall x, f (g x) = false) -> existsb f (map g l) = false.
Proof.
  intro H. induction l as [| x l IH]; simpl; [reflexivity |]. rewrite H, IH. reflexivity.
Qed.

(** After the merge a column that the configuration already had under the
    name of the first statistic is there twice, as [c1_x] and [c1_y], and
    no column is called [c1]. *)
Lemma merge_left_loses_column (cfg ref : Table) (c1 c2 : string)
      (set : value -> value -> config_row -> config_row)
      (df_ref : list (string * (value * value))) :
  String.eqb c1 (c1 ++ "_x") = false -> String.eqb c1 (c2 ++ "_x") = false ->
  String.eqb c1 (c1 ++ "_y") = false -> String.eqb c1 (c2 ++ "_y") = false ->
  String.eqb c1 c2 = false ->
  has_column cfg c1 = true ->
  merge_left cfg c1 c2 set df_ref = Ok ref ->
  has_column ref c1 = false.
Proof.
  intros Hx1 Hx2 Hy1 Hy2 Hne Hcol Hm. unfold merge_left in Hm.
  destruct (has_column cfg "Var_Name"); [| discriminate].
  injection Hm as <-. unfold has_column at 1. cbn [header].
  apply existsb_app_false.
  - apply existsb_map_false. intro c.
    destruct (String.eqb c c1) eqn:E1; simpl.
    + apply String.eqb_eq in E1. subst c. exact Hx1.
    + destruct (String.eqb c c2) eqn:E2.
      * apply String.eqb_eq in E2. subst c. exact Hx2.
      * rewrite String.eqb_sym. exact E1.
  - rewrite Hcol. simpl. rewrite Hy1. destruct (has_column cfg c2); simpl.
    + rewrite Hy2. reflexivity.
    + rewrite Hne. reflexivity.
Qed.

Lemma fit_statistics_first (cfg : Table) (v : string) (rest : list string)
      (df : DataFrame) (stat1 stat2 : Series -> result value)
      (df_ref : list (string * (value * value))) :
  fit_statistics cfg (v :: rest) df stat1 stat2 = Ok df_ref ->
  exists rv, resolve_real_var cfg v None = Ok rv.
Proof.
  unfold fit_statistics. intro H. apply bind_Ok_inv in H as (st & H & _).
  simpl in H. apply bind_Ok_inv in H as (s1 & H & _).
  apply bind_Ok_inv in H as (rv & Hrv & _). eauto.
Qed.

(** X24: [Scale.fit] and [Normalize.fit] merge their statistics into the
    configuration.  When the configuration is a table that already has a
    [Min] (a [Mean]) column, as a saved reference table has, the table
    they produce has no column of that name any more, and [apply] with it
    raises [KeyError] at the first variable, whatever the frame. *)
Theorem refit_breaks_apply (L : Library) :
  (forall self self' df df',
      has_column (config self) "Min" = true -> apply_list self <> [] ->
      Scale_fit self df = Ok self' ->
      Scale_apply self' df' = Raise (KeyError "Min"))
  /\ (forall self self' df df',
         has_column (config self) "Mean" = true -> apply_list self <> [] ->
         Normalize_fit L self df = Ok self' ->
         Normalize_apply self' df' = Raise (KeyError "Mean")).
Proof.
  split; intros self self' df df' Hcol Hne Hfit.
  - unfold Scale_fit in Hfit.
    apply bind_Ok_inv in Hfit as (df_ref & Hstat & Hfit).
    apply bind_Ok_inv in Hfit as (ref & Hmerge & Hret). injection Hret as <-.
    destruct (apply_list self) as [| v rest] eqn:El; [contradiction |].
    destruct (fit_statistics_first _ _ _ _ _ _ _ Hstat) as (rv & Hrv).
    pose proof (merge_left_loses_column _ _ "Min" "Max" _ _ eq_refl eq_refl eq_refl
                  eq_refl eq_refl Hcol Hmerge) as Hlost.
    unfold Scale_apply. cbn [with_reference apply_list]. rewrite El. cbn [for_each].
    unfold Scale_step at 1. cbn [with_reference config reference fst snd].
    rewrite Hrv. cbn [bind]. unfold first_where at 1. rewrite Hlost. reflexivity.
  - unfold Normalize_fit in Hfit.
    apply bind_Ok_inv in Hfit as (df_ref & Hstat & Hfit).
    apply bind_Ok_inv in Hfit as (ref & Hmerge & Hret). injection Hret as <-.
    destruct (apply_list self) as [| v rest] eqn:El; [contradiction |].
    destruct (fit_statistics_first _ _ _ _ _ _ _ Hstat) as (rv & Hrv).
    pose proof (merge_left_loses_column _ _ "Mean" "Std" _ _ eq_refl eq_refl eq_refl
                  eq_refl eq_refl Hcol Hmerge) as Hlost.
    unfold Normalize_apply. cbn [with_reference apply_list]. rewrite El. cbn [for_each].
    unfold Normalize_step at 1. cbn [with_reference config reference fst snd].
    rewrite Hrv. cbn [bind]. unfold first_where at 1. rewrite Hlost. reflexivity.
Qed.

Definition scale_example_refitted : component :=
  Eval vm_compute in
    match Scale_fit scale_example scale_example_input with
    | Ok c => c
    | Raise _ => scale_example
    end.

Lemma refit_breaks_apply_witness :
  header (reference scale_example_refitted)
  = (full_header ++ ["Min_x"; "Max_x"; "Min_y"; "Max_y"])%list
  /\ Scale_apply scale_example_refitted scale_example_input = Raise (KeyError "Min").
Proof.
  split; [reflexivity |].
  apply (proj1 (refit_breaks_apply sample_library)
               scale_example scale_example_refitted scale_example_input
               scale_example_input).
  - reflexivity.
  - discriminate.
  - vm_compute. reflexivity.
Defined.


(** ** Woe.fit *)

Lemma in_split_last (x : string) (l : list string) :
  In x l -> exists l1 l2, l = (l1 ++ x :: l2)%list /\ ~ In x l2.
Proof.
  induction l as [| v l IH]; intro Hin; [destruct Hin |].
  destruct (in_dec string_dec x l) as [Hl | Hl].
  - destruct (IH Hl) as (l1 & l2 & -> & Hno).
    exists (v :: l1), l2. split; [reflexivity | exact Hno].
  - destruct Hin as [-> | Hin]; [| contradiction].
    exists [], l. split; [reflexivity | exact Hl].
Qed.

(** X26: [Woe.fit] keeps the configuration, the target and the apply list, and
    leaves a reference table behind.  It works on the caller's frame: the
    frame keeps its columns and their order, and only the column of a
    variable that the configuration types categorical and that is in the
    apply list can have changed; every cell of the column of such a
    variable has gone through [str_convert]. *)
Theorem Woe_fit_frame (L : Library) (self self' : woe_component) (df df' : DataFrame) :
  Woe_fit L self df = Ok (self', df') ->
  w_config self' = w_config self /\ w_target self' = w_target self
  /\ w_apply_list self' = w_apply_list self
  /\ w_reference self' <> None
  /\ columns df' = columns df
  /\ (forall v,
         ~ (exists r, In r (rows (w_config self)) /\ Var_Name r = v
                      /\ Var_Type r = "categorical" /\ In v (w_apply_list self)) ->
         getitem df' v = getitem df v)
  /\ (forall r, In r (rows (w_config self)) -> Var_Type r = "categorical" ->
                In (Var_Name r) (w_apply_list self) ->
                exists col, getitem df' (Var_Name r) = Ok (map (str_convert L) col)).
Proof.
  unfold Woe_fit. intro H.
  apply bind_Ok_inv in H as (names & _ & H).
  apply bind_Ok_inv in H as (types & _ & H).
  apply bind_Ok_inv in H as (bins & _ & H).
  apply bind_Ok_inv in H as (num_dict & _ & H).
  apply bind_Ok_inv in H as ([d ref] & Hloop & H).
  injection H as <- <-. cbn [w_config w_target w_apply_list w_reference fst].
  do 3 (split; [reflexivity |]). split; [discriminate |].
  set (cag := map Var_Name
                  (filter (fun r => String.eqb (Var_Type r) "categorical")
                          (filter (fun r => mem (Var_Name r) (w_apply_list self))
                                  (rows (w_config self))))) in *.
  assert (Hcag : forall v, In v cag <->
                           exists r, In r (rows (w_config self)) /\ Var_Name r = v
                                     /\ Var_Type r = "categorical"
                                     /\ In v (w_apply_list self)).
  { intro v. unfold cag. rewrite in_map_iff. split.
    - intros (r & <- & Hr). apply filter_In in Hr as [Hr Hty].
      apply filter_In in Hr as [Hr Hm]. apply String.eqb_eq in Hty.
      apply mem_In in Hm. eauto.
    - intros (r & Hr & <- & Hty & Hm). exists r. split; [reflexivity |].
      apply filter_In. split; [| rewrite Hty; reflexivity].
      apply filter_In. split; [exact Hr | apply mem_In; exact Hm]. }
  assert (Hinv : columns d = columns df
                 /\ forall v, ~ In v cag -> getitem d v = getitem df v).
  { refine (for_each_invariant
              (fun st => columns (fst st) = columns df
                         /\ forall v, ~ In v cag -> getitem (fst st) v = getitem df v)
              _ cag _ _ _ _ Hloop).
    - intros [d0 ref0] var [d1 ref1] Hin [Hcols Hsame] Hstep. cbn [fst] in *.
      apply bind_Ok_inv in Hstep as (col & Hcol & Hstep).
      apply bind_Ok_inv in Hstep as (dt & Hdt & Hstep). injection Hstep as <- _.
      split.
      + rewrite (columns_setitem_same d0 var _ col _ Hcol). exact Hcols.
      + intros v Hv. rewrite getitem_setitem_other; [apply Hsame; exact Hv |].
        intros ->. contradiction.
    - split; [reflexivity | intros v _; reflexivity]. }
  destruct Hinv as [Hcols Hsame].
  split; [exact Hcols |]. split.
  - intros v Hv. apply Hsame. intro Hin. apply Hv, Hcag, Hin.
  - intros r Hr Hty Hm.
    assert (Hin : In (Var_Name r) cag) by (apply Hcag; eauto).
    destruct (in_split_last (Var_Name r) cag Hin) as (l3 & l4 & Hsplit & Hno).
    rewrite Hsplit, for_each_app in Hloop.
    apply bind_Ok_inv in Hloop as ([d1 r1] & H1 & Hloop). cbn [for_each] in Hloop.
    apply bind_Ok_inv in Hloop as ([d2 r2] & Hstep & H2). cbn [fst] in Hstep.
    apply bind_Ok_inv in Hstep as (col & Hcol & Hstep).
    apply bind_Ok_inv in Hstep as (dt & Hdt & Hstep). injection Hstep as <- _.
    assert (Hkeep : getitem d (Var_Name r) = Ok (map (str_convert L) col)).
    { refine (for_each_invariant
                (fun st => getitem (fst st) (Var_Name r) = Ok (map (str_convert L) col))
                _ l4 _ _ _ _ H2).
      - intros [d0 ref0] var [d3 ref3] Hvar Hs Hstep. cbn [fst] in *.
        apply bind_Ok_inv in Hstep as (c & Hc & Hstep).
        apply bind_Ok_inv in Hstep as (dt' & Hdt' & Hstep). injection Hstep as <- _.
        rewrite getitem_setitem_other; [exact Hs |]. intros E. apply Hno.
        rewrite E. exact Hvar.
      - cbn [fst]. apply getitem_setitem_same. }
    exists col. exact Hkeep.
Qed.


Definition woe_fit_frame : DataFrame :=
  [("income", (float64, [Num (qz 10); Num (qz 1000); NA]));
   ("city", (object, [Str "a"; NA; Str "b"]))].

Definition woe_fit_config : Table :=
  {| header := full_header;
     rows := [ plain_row "income";
               {| Var_Name := "city"; Var_Type := "categorical"; Ind_Model := 1;
                  Ind_Cap := 0; Cap_Value := NA; Ind_Floor := 0; Floor_Value := NA;
                  Missing_Impute := NA; Ind_WOE := 1; WOE_Bin := NA; Ind_Norm := 0;
                  Ind_Scale := 0; Mean := NA; Std := NA; Min := NA; Max := NA |} ] |}.

Definition woe_fit_example : woe_component :=
  mk_woe_component woe_fit_config None (Some "y") ["city"].

Definition woe_fit_example_result : woe_component * DataFrame :=
  Eval vm_compute in
    match Woe_fit sample_library woe_fit_example woe_fit_frame with
    | Ok r => r
    | Raise _ => (woe_fit_example, [])
    end.

Lemma Woe_fit_frame_witness :
  w_reference (fst woe_fit_example_result) <> None
  /\ columns (snd woe_fit_example_result) = columns woe_fit_frame.
Proof.
  destruct (Woe_fit_frame sample_library woe_fit_example (fst woe_fit_example_result)
                          woe_fit_frame (snd woe_fit_example_result))
    as (_ & _ & _ & H1 & H2 & _).
  - vm_compute. reflexivity.
  - split; assumption.
Defined.

(** ** Adding and dropping variables *)

Definition added (l : list string) (r : config_row) : config_row :=
  if mem (Var_Name r) l then set_Ind_Model 1 r else r.

Lemma add_loop_rows (l : list string) (ref : Table) :
  has_column ref "Var_Name" = true ->
  has_column ref "Ind_Model" = true ->
  for_each (fun ref var => set_where ref "Ind_Model" (set_Ind_Model 1)
                                     (set_Ind_Model 0) var) l ref
  = Ok {| header := header ref; rows := map (added l) (rows ref) |}.
Proof.
  revert ref. induction l as [| var l IH]; intros ref Hname Hcol; cbn [for_each].
  - unfold added. simpl. rewrite map_id. destruct ref. reflexivity.
  - unfold set_where at 1. rewrite Hname, Hcol. cbn [bind].
    rewrite IH by assumption.
    cbn [header rows]. f_equal. f_equal.
    rewrite map_map. apply map_ext. intro r. unfold added, mem. simpl.
    destruct (String.eqb (Var_Name r) var) eqn:E; simpl; [| reflexivity].
    destruct (existsb (String.eqb (Var_Name r)) l); reflexivity.
Qed.

(** The first assignment to a table without the column creates it. *)
Lemma add_loop_creates (x : string) (l : list string) (ref : Table) :
  has_column ref "Var_Name" = true ->
  has_column ref "Ind_Model" = false ->
  for_each (fun ref var => set_where ref "Ind_Model" (set_Ind_Model 1)
                                     (set_Ind_Model 0) var) (x :: l) ref
  = Ok {| header := (header ref ++ ["Ind_Model"])%list;
          rows := map (fun r => set_Ind_Model (if mem (Var_Name r) (x :: l) then 1 else 0) r)
                      (rows ref) |}.
Proof.
  intros Hname Hcol. cbn [for_each]. unfold set_where at 1.
  rewrite Hname, Hcol. cbn [bind].
  rewrite add_loop_rows.
  - cbn [header rows]. f_equal. f_equal.
    rewrite map_map. apply map_ext. intro r. unfold added, mem. cbn [existsb].
    destruct (String.eqb (Var_Name r) x); cbn [Var_Name set_Ind_Model orb].
    + destruct (existsb (String.eqb (Var_Name r)) l); reflexivity.
    + destruct (existsb (String.eqb (Var_Name r)) l); reflexivity.
  - rewrite has_column_app, Hname. reflexivity.
  - rewrite has_column_app, Hcol. reflexivity.
Qed.

Lemma set_where_no_names (ref : Table) (name : string)
      (upd blank : config_row -> config_row) (x : string) (l : list string) :
  has_column ref "Var_Name" = false ->
  for_each (fun ref var => set_where ref name upd blank var) (x :: l) ref
  = Raise (KeyError "Var_Name").
Proof. intro H. cbn [for_each]. unfold set_where. rewrite H. reflexivity. Qed.

(** X27: [add_variables] on a reference table with the columns [Var_Name]
    and [Ind_Model] sets [Ind_Model] to 1 in exactly the rows that are
    named in the list, and changes nothing else: no row is added for a
    name the table does not have, and the configuration is not touched.
    Of [add_variables] and [drop_variables] with the same list, the one
    called last decides.  On a table without the column [Ind_Model] a
    list that is not empty makes it add the column, where the rows of the
    list, and no others, hold 1.  On a table without the column
    [Var_Name] a list that is not empty makes both raise [KeyError]. *)
Theorem add_variables_rows (self : tactic) (l : list string) :
  (has_column (t_reference self) "Var_Name" = true ->
   has_column (t_reference self) "Ind_Model" = true ->
   (exists self',
       add_variables self l = Ok self'
       /\ t_reference self'
          = {| header := header (t_reference self);
               rows := map (fun r => if mem (Var_Name r) l then set_Ind_Model 1 r else r)
                           (rows (t_reference self)) |}
       /\ t_config self' = t_config self)
   /\ (s <- add_variables self l ;; drop_variables s l) = drop_variables self l
   /\ (s <- drop_variables self l ;; add_variables s l) = add_variables self l)
  /\ (has_column (t_reference self) "Var_Name" = true ->
      has_column (t_reference self) "Ind_Model" = false ->
      l <> [] ->
      exists self',
        add_variables self l = Ok self'
        /\ header (t_reference self') = (header (t_reference self) ++ ["Ind_Model"])%list
        /\ t_config self' = t_config self
        /\ Forall2 (fun r r' => r' = set_Ind_Model (Ind_Model r') r
                                /\ (Ind_Model r' = 1%Z <-> In (Var_Name r) l))
                   (rows (t_reference self)) (rows (t_reference self')))
  /\ (has_column (t_reference self) "Var_Name" = false -> l <> [] ->
      add_variables self l = Raise (KeyError "Var_Name")
      /\ drop_variables self l = Raise (KeyError "Var_Name"))
  /\ (l = [] ->
      add_variables self l = Ok (with_t_reference self (t_reference self))
      /\ drop_variables self l = Ok (with_t_reference self (t_reference self))).
Proof.
  split; [| split; [| split]].
  - intros Hname Hcol. unfold add_variables, drop_variables.
    rewrite !(add_loop_rows l _ Hname Hcol), !(drop_loop l _ Hname Hcol). cbn [bind].
    split; [eexists; split; [reflexivity |]; split; reflexivity |].
    cbn [t_reference with_t_reference].
    rewrite (drop_loop l {| header := header (t_reference self);
                            rows := map (added l) (rows (t_reference self)) |}
                       Hname Hcol).
    rewrite (add_loop_rows l {| header := header (t_reference self);
                                rows := map (dropped l) (rows (t_reference self)) |}
                           Hname Hcol).
    cbn [bind header rows]. unfold with_t_reference.
    cbn [t_reference t_config process_list target woe_reference].
    split; f_equal; f_equal; f_equal; rewrite map_map; apply map_ext; intro r;
      unfold added, dropped; destruct (mem (Var_Name r) l) eqn:E;
        cbn [Var_Name set_Ind_Model]; rewrite E; reflexivity.
  - intros Hname Hcol Hl. destruct l as [| x l]; [contradiction Hl; reflexivity |].
    unfold add_variables. rewrite (add_loop_creates x l _ Hname Hcol). cbn [bind].
    eexists. split; [reflexivity |]. cbn [t_reference with_t_reference header rows].
    split; [reflexivity |]. split; [reflexivity |].
    induction (rows (t_reference self)) as [| r rs IH]; cbn [map]; constructor;
      [| exact IH].
    split; [reflexivity |]. cbn [Ind_Model set_Ind_Model].
    destruct (mem (Var_Name r) (x :: l)) eqn:E.
    + split; [intros _; apply mem_In; exact E | reflexivity].
    + split; [discriminate |]. intro Hin. apply mem_In in Hin. congruence.
  - intros Hname Hl. destruct l as [| x l]; [contradiction Hl; reflexivity |].
    unfold add_variables, drop_variables.
    rewrite !(set_where_no_names _ _ _ _ x l Hname). split; reflexivity.
  - intros ->. split; reflexivity.
Qed.

Lemma add_variables_rows_witness :
  (s <- drop_variables (Tactic_init mean_config None None None) ["x"; "z"] ;;
   add_variables s ["x"; "z"])
  = add_variables (Tactic_init mean_config None None None) ["x"; "z"].
Proof.
  apply (proj1 (add_variables_rows (Tactic_init mean_config None None None) ["x"; "z"]));
    reflexivity.
Defined.

End PreprocessFacts.


(* ================================================================== *)
(** * Properties of the correlation utilities *)

Module DataFilterFacts.

Import DataFilter.

Lemma ne_sentinel_true (c : cell) : ne_sentinel c = true <-> c <> sentinel.
Proof.
  unfold sentinel. destruct c as [x |]; simpl.
  - rewrite negb_true_iff, Qceqb_false. split; intro H; congruence.
  - split; [discriminate | reflexivity].
Qed.

Lemma ne_sentinel_false (c : cell) : ne_sentinel c = false <-> c = sentinel.
Proof.
  unfold sentinel. destruct c as [x |]; simpl.
  - rewrite negb_false_iff, Qceqb_true. split; intro H; congruence.
  - split; discriminate.
Qed.

(** A row is kept exactly when one of its cells differs from -1. *)
Lemma keep_row_true (row : list cell) :
  keep_row row = true <-> exists c, In c row /\ c <> sentinel.
Proof.
  unfold keep_row. rewrite existsb_exists.
  split; intros (c & Hc & H); exists c; (split; [exact Hc |]);
    apply ne_sentinel_true; exact H.
Qed.

Lemma keep_row_false (row : list cell) :
  keep_row row = false <-> forall c, In c row -> c = sentinel.
Proof.
  unfold keep_row. split.
  - intros H c Hc. apply ne_sentinel_false.
    destruct (ne_sentinel c) eqn:E; [| reflexivity].
    assert (K : existsb ne_sentinel row = true)
      by (apply existsb_exists; exists c; split; assumption).
    congruence.
  - intro H. destruct (existsb ne_sentinel row) eqn:E; [| reflexivity].
    apply existsb_exists in E as (c & Hc & K).
    apply ne_sentinel_true in K. exfalso. apply K, H, Hc.
Qed.

(** [l1] is [l2] with some elements left out, the others in order. *)
Inductive sublist {A : Type} : list A -> list A -> Prop :=
| sublist_nil : sublist [] []
| sublist_keep (x : A) (l1 l2 : list A) : sublist l1 l2 -> sublist (x :: l1) (x :: l2)
| sublist_drop (x : A) (l1 l2 : list A) : sublist l1 l2 -> sublist l1 (x :: l2).

Lemma filter_sublist {A : Type} (f : A -> bool) (l : list A) : sublist (filter f l) l.
Proof.
  induction l as [| x l IH]; simpl; [constructor |].
  destruct (f x); constructor; exact IH.
Qed.

Lemma filter_filter_length {A : Type} (f g : A -> bool) (l : list A) :
  List.length (filter f (filter g l))
  = List.length (filter (fun x => f x && g x) l).
Proof.
  induction l as [| x l IH]; simpl; [reflexivity |].
  destruct (g x); simpl.
  - rewrite andb_true_r. destruct (f x); simpl; rewrite IH; reflexivity.
  - rewrite andb_false_r. exact IH.
Qed.

(** The rows of [rows] that [gen_corr] keeps, as a frame of the columns
    of [df]. *)
Definition kept_of (df : Frame) (rows : list (list cell)) : list (list cell) :=
  data (drop_sentinel_rows {| columns := columns df; data := rows |}).

(** C10: [gen_corr] first removes the rows whose cells all equal -1 and
    keeps the rows with a cell that differs from -1, each one as often as
    it occurs and in the order of the input: the kept rows up to a place of
    the input are followed by the row at that place when it has a cell
    that differs from -1, and by nothing when all its cells equal -1; for
    every property of rows, the result has as many rows with it as the
    input has rows with it and a cell that differs from -1.  The
    correlation matrix [gen_corr] transforms is that of the kept rows
    alone, so two frames with the same kept rows give the same result. *)
Theorem gen_corr_drops_sentinel_rows (corr : Frame -> Corr) (df : Frame) :
  (forall row, In row (data df) -> (forall c, In c row -> c = sentinel) ->
               ~ In row (data (drop_sentinel_rows df)))
  /\ (forall row, In row (data (drop_sentinel_rows df)) <->
                  In row (data df) /\ exists c, In c row /\ c <> sentinel)
  /\ sublist (data (drop_sentinel_rows df)) (data df)
  /\ (forall pre row post,
         data df = (pre ++ row :: post)%list ->
         ((exists c, In c row /\ c <> sentinel) ->
          data (drop_sentinel_rows df)
          = (kept_of df pre ++ row :: kept_of df post)%list)
         /\ ((forall c, In c row -> c = sentinel) ->
             data (drop_sentinel_rows df) = (kept_of df pre ++ kept_of df post)%list))
  /\ (forall P : list cell -> bool,
         List.length (filter P (data (drop_sentinel_rows df)))
         = List.length (filter (fun row => P row && keep_row row) (data df)))
  /\ columns (drop_sentinel_rows df) = columns df
  /\ gen_corr corr df = applymap transform (corr (drop_sentinel_rows df))
  /\ (forall df', columns df' = columns df ->
                  filter keep_row (data df') = filter keep_row (data df) ->
                  gen_corr corr df' = gen_corr corr df).
Proof.
  split; [| split; [| split; [| split; [| split; [| split; [| split]]]]]].
  - intros row Hin Hall Hkept. simpl in Hkept. apply filter_In in Hkept as [_ Hkept].
    apply keep_row_false in Hall. congruence.
  - intro row. simpl. rewrite filter_In, keep_row_true. reflexivity.
  - simpl. apply filter_sublist.
  - intros pre row post Hsplit. unfold kept_of. simpl. rewrite Hsplit, filter_app. simpl.
    split.
    + intro Hkeep. apply keep_row_true in Hkeep. rewrite Hkeep. reflexivity.
    + intro Hall. apply keep_row_false in Hall. rewrite Hall. reflexivity.
  - intro P. simpl. apply filter_filter_length.
  - reflexivity.
  - reflexivity.
  - intros df' Hcols Hrows. unfold gen_corr, drop_sentinel_rows.
    rewrite Hcols, Hrows. reflexivity.
Qed.

(** A frame in which a kept row occurs twice, between two rows of -1:
    both occurrences are kept. *)
Lemma gen_corr_keeps_repeated_rows :
  data (drop_sentinel_rows
          {| columns := ["a"; "b"];
             data := [[Some (qz (-1)); Some (qz (-1))];
                      [Some (qz 1); Some (qz (-1))];
                      [Some (qz 1); Some (qz (-1))];
                      [Some (qz (-1)); Some (qz (-1))];
                      [None; Some (qz (-1))]] |})
  = [[Some (qz 1); Some (qz (-1))]; [Some (qz 1); Some (qz (-1))];
     [None; Some (qz (-1))]].
Proof. reflexivity. Qed.

(** ** Indexed maps *)

Lemma mapi_from_ext {A B : Type} (f g : nat -> A -> B) (s : nat) (l : list A) :
  (forall k x, f k x = g k x) -> mapi_from f s l = mapi_from g s l.
Proof.
  intro H. revert s. induction l as [| x l IH]; intro s; simpl; [reflexivity |].
  rewrite H, IH. reflexivity.
Qed.

Lemma mapi_from_mapi_from {A B C : Type} (f : nat -> B -> C) (g : nat -> A -> B)
      (s : nat) (l : list A) :
  mapi_from f s (mapi_from g s l) = mapi_from (fun k x => f k (g k x)) s l.
Proof.
  revert s. induction l as [| x l IH]; intro s; simpl; [reflexivity |].
  rewrite IH. reflexivity.
Qed.

Lemma mapi_from_map {A B C : Type} (f : nat -> B -> C) (g : A -> B)
      (s : nat) (l : list A) :
  mapi_from f s (map g l) = mapi_from (fun k x => f k (g x)) s l.
Proof.
  revert s. induction l as [| x l IH]; intro s; simpl; [reflexivity |].
  rewrite IH. reflexivity.
Qed.

Lemma map_mapi_from {A B C : Type} (f : B -> C) (g : nat -> A -> B)
      (s : nat) (l : list A) :
  map f (mapi_from g s l) = mapi_from (fun k x => f (g k x)) s l.
Proof.
  revert s. induction l as [| x l IH]; intro s; simpl; [reflexivity |].
  rewrite IH. reflexivity.
Qed.

Lemma mapi_from_id {A : Type} (s : nat) (l : list A) :
  mapi_from (fun _ x => x) s l = l.
Proof.
  revert s. induction l as [| x l IH]; intro s; simpl; [reflexivity |].
  rewrite IH. reflexivity.
Qed.

Lemma length_mapi_from {A B : Type} (f : nat -> A -> B) (s : nat) (l : list A) :
  List.length (mapi_from f s l) = List.length l.
Proof.
  revert s. induction l as [| x l IH]; intro s; simpl; [reflexivity |].
  rewrite IH. reflexivity.
Qed.

Lemma nth_error_mapi_from {A B : Type} (f : nat -> A -> B) (s : nat) (l : list A)
      (k : nat) :
  nth_error (mapi_from f s l) k = option_map (f (s + k)) (nth_error l k).
Proof.
  revert s k. induction l as [| x l IH]; intros s [| k]; simpl; try reflexivity.
  - rewrite Nat.add_0_r. reflexivity.
  - rewrite IH. rewrite Nat.add_succ_r. reflexivity.
Qed.

(** ** The matrix under a set of eliminated positions *)

Definition memn (k : nat) (l : list nat) : bool := existsb (Nat.eqb k) l.

Lemma memn_In (k : nat) (l : list nat) : memn k l = true <-> In k l.
Proof.
  unfold memn. rewrite existsb_exists. split.
  - intros (x & Hx & E). apply Nat.eqb_eq in E. subst x. exact Hx.
  - intro H. exists k. split; [exact H | apply Nat.eqb_refl].
Qed.

(** [m] with the rows and the columns of the positions in [gone] overwritten
    by the sentinel. *)
Definition mask (gone : list nat) (m : matrix) : matrix :=
  mapi (fun r row =>
          mapi (fun c x => if memn r gone || memn c gone then sentinel else x) row)
       m.

Lemma mask_nil (m : matrix) : mask [] m = m.
Proof.
  unfold mask, mapi. rewrite <- (mapi_from_id 0 m) at 2.
  apply mapi_from_ext. intros r row. apply mapi_from_id.
Qed.

Lemma mask_cons (i : nat) (gone : list nat) (m : matrix) :
  set_col i (set_row i (mask gone m)) = mask (i :: gone) m.
Proof.
  unfold set_col, set_row, mask, mapi.
  rewrite mapi_from_mapi_from, map_mapi_from.
  apply mapi_from_ext. intros r row. simpl.
  destruct (Nat.eqb r i) eqn:Er.
  - rewrite map_mapi_from, mapi_from_mapi_from.
    apply mapi_from_ext. intros c x. destruct (Nat.eqb c i); reflexivity.
  - rewrite mapi_from_mapi_from. apply mapi_from_ext. intros c x.
    destruct (Nat.eqb c i), (memn r gone), (memn c gone); reflexivity.
Qed.

Lemma nth_error_nth {A : Type} (l : list A) (k : nat) (d : A) :
  nth k l d = match nth_error l k with Some x => x | None => d end.
Proof.
  revert k. induction l as [| x l IH]; intros [| k]; simpl; try reflexivity. apply IH.
Qed.

(** Reading a cell of the masked matrix. *)
Lemma get_mask (gone : list nat) (m : matrix) (i j : nat) :
  get (mask gone m) i j =
  match get m i j, nth_error (nth i m []) j with
  | _, None => None
  | x, Some _ => if memn i gone || memn j gone then sentinel else x
  end.
Proof.
  unfold get, mask, mapi.
  rewrite (nth_error_nth (mapi_from _ 0 m) i), nth_error_mapi_from.
  rewrite (nth_error_nth m i). simpl.
  destruct (nth_error m i) as [row |]; simpl.
  - rewrite (nth_error_nth (mapi_from _ 0 row) j), nth_error_mapi_from.
    rewrite (nth_error_nth row j). simpl.
    destruct (nth_error row j); reflexivity.
  - destruct j; reflexivity.
Qed.

Lemma get_mask_untouched (gone : list nat) (m : matrix) (i j : nat) :
  memn i gone = false -> memn j gone = false -> get (mask gone m) i j = get m i j.
Proof.
  intros Hi Hj. rewrite get_mask, Hi, Hj. simpl.
  unfold get. rewrite (nth_error_nth (nth i m []) j).
  destruct (nth_error (nth i m []) j); reflexivity.
Qed.

Lemma get_mask_gone (gone : list nat) (m : matrix) (i j : nat) :
  memn i gone || memn j gone = true ->
  get (mask gone m) i j = sentinel \/ get (mask gone m) i j = None.
Proof.
  intro H. rewrite get_mask, H.
  destruct (nth_error (nth i m []) j); [left | right]; reflexivity.
Qed.

(** ** The scan *)

Lemma exceeds_true (thresh : Qc) (ls : list string) (m : matrix) (i j : nat) :
  exceeds thresh ls m i j = Some true <->
  names_one ls i = true /\ names_one ls j = true /\ gt (get m i j) thresh = true.
Proof.
  unfold exceeds. destruct (names_one ls i), (names_one ls j); simpl;
    split; try discriminate; try (intros (H1 & H2 & H3); discriminate).
  - intro H. injection H as H. auto.
  - intros (_ & _ & ->). reflexivity.
Qed.

Section Scan.

Variable thresh : Qc.
Variable ls : list string.
Variable m0 : matrix.

(** The matrix of the loop is the input under the positions marked so far. *)
Lemma scan_marking_invariant (order : list (nat * nat)) (gone : list nat) :
  fst (fold_left (visit_marking thresh ls) order (mask gone m0, gone))
  = mask (snd (fold_left (visit_marking thresh ls) order (mask gone m0, gone))) m0.
Proof.
  revert gone. induction order as [| [i j] order IH]; intro gone; simpl; [reflexivity |].
  unfold visit_marking at 2 4. simpl.
  destruct (exceeds thresh ls (mask gone m0) i j) as [[|] |]; try apply IH.
  rewrite mask_cons. apply IH.
Qed.

Lemma scan_marking_fst (order : list (nat * nat)) (st : matrix * list nat) :
  fst (fold_left (visit_marking thresh ls) order st) = scan thresh ls order (fst st).
Proof.
  unfold scan. revert st. induction order as [| x order IH]; intro st; simpl;
    [reflexivity |].
  rewrite IH. f_equal. unfold visit_marking, visit.
  destruct (exceeds thresh ls (fst st) (fst x) (snd x)) as [[|] |]; reflexivity.
Qed.

Definition marks (order : list (nat * nat)) : list nat :=
  snd (scan_marking thresh ls order m0).

Lemma scan_marking_scan (order : list (nat * nat)) :
  fst (scan_marking thresh ls order m0) = scan thresh ls order m0.
Proof. unfold scan_marking. rewrite scan_marking_fst. reflexivity. Qed.

Lemma scan_is_mask (order : list (nat * nat)) :
  scan thresh ls order m0 = mask (marks order) m0.
Proof.
  unfold marks, scan_marking.
  pose proof (scan_marking_fst order (m0, [])) as H. simpl in H. rewrite <- H.
  pose proof (scan_marking_invariant order []) as K. rewrite mask_nil in K. exact K.
Qed.

Lemma scan_marking_app (l1 l2 : list (nat * nat)) :
  scan_marking thresh ls (l1 ++ l2) m0
  = fold_left (visit_marking thresh ls) l2 (scan_marking thresh ls l1 m0).
Proof. unfold scan_marking. apply fold_left_app. Qed.

(** Marks are only added. *)
Lemma marks_grow (order : list (nat * nat)) (st : matrix * list nat) (k : nat) :
  In k (snd st) -> In k (snd (fold_left (visit_marking thresh ls) order st)).
Proof.
  revert st. induction order as [| x order IH]; intros st H; simpl; [exact H |].
  apply IH. unfold visit_marking.
  destruct (exceeds thresh ls (fst st) (fst x) (snd x)) as [[|] |];
    [right | |]; exact H.
Qed.

Lemma marks_app (l1 l2 : list (nat * nat)) (k : nat) :
  In k (marks l1) -> In k (marks (l1 ++ l2)).
Proof. unfold marks. rewrite scan_marking_app. apply marks_grow. Qed.

(** The step at a cell that is read and whose value exceeds the
    threshold. *)
Lemma marks_hit (pre : list (nat * nat)) (i j : nat) :
  exceeds thresh ls (scan thresh ls pre m0) i j = Some true ->
  marks (pre ++ [(i, j)]) = i :: marks pre
  /\ scan thresh ls (pre ++ [(i, j)]) m0
     = set_col i (set_row i (scan thresh ls pre m0)).
Proof.
  intro Hit. split.
  - unfold marks. rewrite scan_marking_app. simpl. unfold visit_marking. simpl.
    rewrite scan_marking_scan, Hit. reflexivity.
  - unfold scan in *. rewrite fold_left_app. simpl. unfold visit at 1. simpl.
    rewrite Hit. reflexivity.
Qed.

(** The step at any other cell: one that is not read, or whose value does
    not exceed the threshold. *)
Lemma marks_miss (pre : list (nat * nat)) (i j : nat) :
  exceeds thresh ls (scan thresh ls pre m0) i j <> Some true ->
  marks (pre ++ [(i, j)]) = marks pre
  /\ scan thresh ls (pre ++ [(i, j)]) m0 = scan thresh ls pre m0.
Proof.
  intro Hmiss. split.
  - unfold marks. rewrite scan_marking_app. simpl. unfold visit_marking. simpl.
    rewrite scan_marking_scan.
    destruct (exceeds thresh ls (scan thresh ls pre m0) i j) as [[|] |];
      [contradiction | reflexivity | reflexivity].
  - unfold scan in *. rewrite fold_left_app. simpl. unfold visit at 1. simpl.
    destruct (exceeds thresh ls (fold_left (visit thresh ls) pre m0) i j) as [[|] |];
      [contradiction | reflexivity | reflexivity].
Qed.

End Scan.

(** ** The order of the scan *)

Definition columns_from (n s k : nat) : list (nat * nat) :=
  flat_map (fun col => map (fun idx => (idx, col)) (seq 0 n)) (seq s k).

Lemma nth_error_columns_from (n s k c r : nat) :
  c < k -> r < n -> nth_error (columns_from n s k) (c * n + r) = Some (r, s + c).
Proof.
  revert s c. induction k as [| k IH]; intros s c Hc Hr; [lia |].
  unfold columns_from. simpl. fold (columns_from n (S s) k).
  destruct c as [| c]; simpl.
  - rewrite nth_error_app1 by (rewrite length_map, length_seq; exact Hr).
    rewrite nth_error_map, nth_error_seq.
    destruct (Nat.ltb_spec r n); [| lia]. simpl. rewrite Nat.add_0_r. reflexivity.
  - rewrite nth_error_app2 by (rewrite length_map, length_seq; lia).
    rewrite length_map, length_seq.
    replace (n + c * n + r - n) with (c * n + r) by lia.
    rewrite IH by lia. f_equal. f_equal. lia.
Qed.

Lemma length_columns_from (n s k : nat) : List.length (columns_from n s k) = k * n.
Proof.
  revert s. induction k as [| k IH]; intro s; [reflexivity |].
  unfold columns_from. simpl. fold (columns_from n (S s) k).
  rewrite length_app, length_map, length_seq, IH. reflexivity.
Qed.

Lemma length_scan_order (n : nat) : List.length (scan_order n) = n * n.
Proof. apply length_columns_from. Qed.

(** The cell at a place of the scan: the column is the quotient, the row
    the remainder. *)
Lemma scan_order_at (n : nat) (pre post : list (nat * nat)) (i j : nat) :
  scan_order n = (pre ++ (i, j) :: post)%list ->
  i < n /\ j < n /\ List.length pre = j * n + i.
Proof.
  intro Hsplit.
  assert (Hlen : List.length pre < n * n).
  { rewrite <- length_scan_order, Hsplit, length_app. simpl. lia. }
  assert (Hn : n <> 0) by lia.
  assert (Hr : List.length pre mod n < n) by (apply Nat.mod_upper_bound; exact Hn).
  assert (Hc : List.length pre / n < n) by (apply Nat.Div0.div_lt_upper_bound; lia).
  pose proof (nth_error_columns_from n 0 n _ _ Hc Hr) as Hat.
  change (columns_from n 0 n) with (scan_order n) in Hat.
  replace (List.length pre / n * n + List.length pre mod n) with (List.length pre) in Hat
    by (rewrite (Nat.div_mod_eq (List.length pre) n) at 1; lia).
  rewrite Hsplit, nth_error_app2, Nat.sub_diag in Hat by lia. simpl in Hat.
  injection Hat as Hi Hj. subst i j. repeat split; try assumption.
  rewrite (Nat.div_mod_eq (List.length pre) n) at 1. lia.
Qed.

(** In a column the cell of an earlier column's row was visited before:
    for [i < j] the cell [(j, i)] comes before the cell [(i, j)]. *)
Lemma scan_order_transposed_before (n : nat) (pre post : list (nat * nat)) (i j : nat) :
  scan_order n = (pre ++ (i, j) :: post)%list -> i < j ->
  exists pre1 pre2, pre = (pre1 ++ (j, i) :: pre2)%list.
Proof.
  intros Hsplit Hij.
  destruct (scan_order_at n pre post i j Hsplit) as (Hi & Hj & Hlen).
  pose proof (nth_error_columns_from n 0 n i j Hi Hj) as Hat.
  change (columns_from n 0 n) with (scan_order n) in Hat. rewrite Hsplit in Hat.
  rewrite nth_error_app1 in Hat by nia.
  apply nth_error_split in Hat as (pre1 & pre2 & -> & _).
  exists pre1, pre2. reflexivity.
Qed.

(** ** Square and symmetric matrices *)

Definition square (n : nat) (m : matrix) : Prop :=
  List.length m = n /\ Forall (fun row => List.length row = n) m.

Definition symmetric (m : matrix) : Prop :=
  forall i j, get m i j = get m j i.

Lemma square_row (n : nat) (m : matrix) (i : nat) :
  square n m -> i < n -> List.length (nth i m []) = n.
Proof.
  intros [Hlen Hrows] Hi. rewrite Forall_forall in Hrows. apply Hrows.
  apply nth_In. lia.
Qed.

Lemma get_mask_square (n : nat) (gone : list nat) (m : matrix) (i j : nat) :
  square n m -> i < n -> j < n ->
  get (mask gone m) i j = if memn i gone || memn j gone then sentinel else get m i j.
Proof.
  intros Hsq Hi Hj. rewrite get_mask.
  destruct (nth_error (nth i m []) j) eqn:E; [reflexivity |].
  apply nth_error_None in E. rewrite (square_row n m i Hsq Hi) in E. lia.
Qed.

Lemma length_mask (gone : list nat) (m : matrix) :
  List.length (mask gone m) = List.length m.
Proof. apply length_mapi_from. Qed.

(** ** The columns that are picked *)

Lemma existsb_over_map {A B : Type} (f : B -> bool) (g : A -> B) (l : list A) :
  existsb f (map g l) = existsb (fun x => f (g x)) l.
Proof. induction l as [| x l IH]; simpl; [| rewrite IH]; reflexivity. Qed.

Lemma existsb_by_position {A : Type} (f : A -> bool) (d : A) (l : list A) :
  existsb f l = existsb (fun k => f (nth k l d)) (seq 0 (List.length l)).
Proof.
  induction l as [| x l IH]; [reflexivity |].
  simpl. rewrite <- seq_shift, existsb_over_map. simpl. rewrite IH. reflexivity.
Qed.

Lemma picked_column (n : nat) (m : matrix) (col : nat) :
  existsb (fun row => ne_sentinel (nth col row None)) m
  = existsb (fun r => ne_sentinel (get m r col)) (seq 0 (List.length m)).
Proof. apply (existsb_by_position (fun row => ne_sentinel (nth col row None)) []). Qed.

Lemma picked_mask (n : nat) (gone : list nat) (m : matrix) :
  square n m ->
  (forall k, k < n -> get m k k <> sentinel) ->
  picked n (mask gone m) = map (fun k => negb (memn k gone)) (seq 0 n).
Proof.
  intros Hsq Hdiag. unfold picked. apply map_ext_in. intros col Hcol.
  apply in_seq in Hcol. rewrite (picked_column n), length_mask.
  destruct Hsq as [Hlen Hrows]. rewrite Hlen.
  destruct (memn col gone) eqn:Hgone; simpl.
  - destruct (existsb _ (seq 0 n)) eqn:E; [| reflexivity].
    apply existsb_exists in E as (r & Hr & E). apply in_seq in Hr.
    rewrite (get_mask_square n) in E by (try split; auto; lia).
    rewrite Hgone, orb_true_r in E. discriminate.
  - apply existsb_exists. exists col. split; [apply in_seq; lia |].
    rewrite (get_mask_square n) by (try split; auto; lia).
    rewrite Hgone. simpl. apply ne_sentinel_true. apply Hdiag. lia.
Qed.

Lemma picked_marked (n : nat) (gone : list nat) (m : matrix) (i : nat) :
  square n m -> i < n -> In i gone -> nth_error (picked n (mask gone m)) i = Some false.
Proof.
  intros Hsq Hi Hgone. unfold picked.
  rewrite nth_error_map, nth_error_seq.
  destruct (Nat.ltb_spec i n); [| lia]. simpl. f_equal.
  rewrite (picked_column n), length_mask. destruct Hsq as [Hlen Hrows]. rewrite Hlen.
  destruct (existsb _ (seq 0 n)) eqn:E; [| reflexivity].
  apply existsb_exists in E as (r & Hr & E). apply in_seq in Hr.
  rewrite (get_mask_square n) in E by (try split; auto; lia).
  apply memn_In in Hgone. rewrite Hgone, orb_true_r in E. discriminate.
Qed.

(** ** Selection *)

Lemma select_cons {A : Type} (b : bool) (p : list bool) (x : A) (l : list A) :
  select (b :: p) (x :: l) = if b then x :: select p l else select p l.
Proof. unfold select. simpl. destruct b; reflexivity. Qed.

Lemma select_map {A B : Type} (f : A -> B) (p : list bool) (l : list A) :
  select p (map f l) = map f (select p l).
Proof.
  revert p. induction l as [| x l IH]; intros [| b p]; simpl; try reflexivity.
  rewrite !select_cons, IH. destruct b; reflexivity.
Qed.

Lemma select_mapi_from {A B : Type} (keep : nat -> bool) (f g : nat -> A -> B)
      (s : nat) (l : list A) :
  (forall k x, In x l -> keep k = true -> f k x = g k x) ->
  select (map keep (seq s (List.length l))) (mapi_from f s l)
  = select (map keep (seq s (List.length l))) (mapi_from g s l).
Proof.
  revert s. induction l as [| x l IH]; intros s H; [reflexivity |].
  simpl. rewrite !select_cons.
  rewrite IH by (intros k y Hy; apply H; right; exact Hy).
  destruct (keep s) eqn:E; [| reflexivity].
  rewrite (H s x (or_introl eq_refl) E). reflexivity.
Qed.

Lemma In_select {A : Type} (p : list bool) (l : list A) (x : A) :
  In x (select p l) ->
  exists k, nth_error l k = Some x /\ nth_error p k = Some true.
Proof.
  revert p. induction l as [| y l IH]; intros [| b p] H; try contradiction.
  rewrite select_cons in H. destruct b.
  - destruct H as [-> | H]; [exists 0; split; reflexivity |].
    destruct (IH p H) as (k & Hk & Hp). exists (S k). split; assumption.
  - destruct (IH p H) as (k & Hk & Hp). exists (S k). split; assumption.
Qed.

(** Selecting the rows and columns that are not eliminated from the masked
    matrix gives the same cells as selecting them from the input. *)
Lemma select_mask (n : nat) (gone : list nat) (m : matrix) :
  square n m ->
  let keep := map (fun k => negb (memn k gone)) (seq 0 n) in
  map (select keep) (select keep (mask gone m)) = map (select keep) (select keep m).
Proof.
  intros [Hlen Hrows] keep. rewrite Forall_forall in Hrows.
  rewrite <- !select_map. unfold mask, mapi. rewrite map_mapi_from.
  rewrite <- (mapi_from_id 0 m) at 2. rewrite map_mapi_from.
  unfold keep. rewrite <- Hlen.
  apply select_mapi_from. intros r row Hrow Hr.
  rewrite Hlen, <- (Hrows row Hrow).
  etransitivity;
    [apply (select_mapi_from (fun k => negb (memn k gone)) _ (fun _ x => x))
    | rewrite mapi_from_id; reflexivity].
  intros c x _ Hc.
  apply negb_true_iff in Hr, Hc. rewrite Hr, Hc. reflexivity.
Qed.

(** ** Which member of a pair is eliminated *)

Lemma memn_false (k : nat) (l : list nat) : memn k l = false <-> ~ In k l.
Proof.
  split.
  - intros H Hin. apply memn_In in Hin. congruence.
  - intro H. destruct (memn k l) eqn:E; [| reflexivity].
    apply memn_In in E. contradiction.
Qed.

(** With a threshold of at least -1 an overwritten cell never exceeds the
    threshold: a cell that does is a cell of the input, and neither its row
    nor its column has been eliminated. *)
Lemma hit_is_untouched (thresh : Qc) (ls : list string) (m : matrix)
      (pre : list (nat * nat)) (i j : nat) :
  (qz (-1) <= thresh)%Qc ->
  exceeds thresh ls (scan thresh ls pre m) i j = Some true ->
  ~ In i (marks thresh ls m pre) /\ ~ In j (marks thresh ls m pre)
  /\ gt (get m i j) thresh = true.
Proof.
  intros Hthresh Hit. apply exceeds_true in Hit as (_ & _ & Hit).
  rewrite scan_is_mask in Hit.
  destruct (memn i (marks thresh ls m pre) || memn j (marks thresh ls m pre)) eqn:E.
  - exfalso. apply get_mask_gone with (m := m) in E. destruct E as [E | E];
      rewrite E in Hit; simpl in Hit; [| discriminate].
    apply Qcltb_true in Hit. exact (Qcle_not_lt _ _ Hthresh Hit).
  - apply orb_false_iff in E as [Ei Ej].
    rewrite get_mask_untouched in Hit by assumption.
    repeat split; [apply memn_false; exact Ei | apply memn_false; exact Ej | exact Hit].
Qed.

Lemma hit_is_later (n : nat) (thresh : Qc) (ls : list string) (m : matrix)
      (pre post : list (nat * nat)) (i j : nat) :
  symmetric m -> (qz (-1) <= thresh)%Qc ->
  scan_order n = (pre ++ (i, j) :: post)%list ->
  exceeds thresh ls (scan thresh ls pre m) i j = Some true ->
  j <= i.
Proof.
  intros Hsym Hthresh Hsplit Hit.
  destruct (Nat.le_gt_cases j i) as [Hle | Hlt]; [exact Hle | exfalso].
  destruct (hit_is_untouched thresh ls m pre i j Hthresh Hit) as (Hi & Hj & Hval).
  destruct (proj1 (exceeds_true _ _ _ _ _) Hit) as (Honce_i & Honce_j & _).
  destruct (scan_order_transposed_before n pre post i j Hsplit Hlt)
    as (pre1 & pre2 & Hpre).
  assert (Hj1 : ~ In j (marks thresh ls m pre1)).
  { intro H. apply Hj. rewrite Hpre. apply marks_app. exact H. }
  assert (Hi1 : ~ In i (marks thresh ls m pre1)).
  { intro H. apply Hi. rewrite Hpre. apply marks_app. exact H. }
  assert (Hit1 : exceeds thresh ls (scan thresh ls pre1 m) j i = Some true).
  { apply exceeds_true. split; [exact Honce_j |]. split; [exact Honce_i |].
    rewrite scan_is_mask, get_mask_untouched by (apply memn_false; assumption).
    rewrite <- Hsym. exact Hval. }
  apply marks_hit in Hit1 as [Hmarks _].
  apply Hj. rewrite Hpre.
  replace (pre1 ++ (j, i) :: pre2)%list with ((pre1 ++ [(j, i)]) ++ pre2)%list
    by (rewrite <- app_assoc; reflexivity).
  apply marks_app. rewrite Hmarks. left. reflexivity.
Qed.

(** ** Labels that name one position *)

Lemma filter_eqb_absent (x : string) (l : list string) :
  ~ In x l -> filter (String.eqb x) l = [].
Proof.
  induction l as [| y l IH]; intro H; simpl; [reflexivity |].
  destruct (String.eqb x y) eqn:E.
  - apply String.eqb_eq in E. subst y. exfalso. apply H. left. reflexivity.
  - apply IH. intro K. apply H. right. exact K.
Qed.

Lemma filter_eqb_present (x : string) (l : list string) (k : nat) :
  nth_error l k = Some x -> 1 <= List.length (filter (String.eqb x) l).
Proof.
  revert k. induction l as [| y l IH]; intros [| k] H; simpl in H; try discriminate.
  - injection H as ->. simpl. rewrite String.eqb_refl. simpl. lia.
  - simpl. destruct (String.eqb x y); simpl; [| eapply IH; exact H].
    apply IH in H. lia.
Qed.

(** Two positions with the same label: the label occurs at least twice. *)
Lemma filter_eqb_twice (x : string) (l : list string) (i k : nat) :
  nth_error l i = Some x -> nth_error l k = Some x -> i <> k ->
  2 <= List.length (filter (String.eqb x) l).
Proof.
  revert i k. induction l as [| y l IH]; intros [| i] [| k] Hi Hk Hne;
    simpl in Hi, Hk; try discriminate; try lia.
  - injection Hi as ->. simpl. rewrite String.eqb_refl. simpl.
    apply filter_eqb_present in Hk. lia.
  - injection Hk as ->. simpl. rewrite String.eqb_refl. simpl.
    apply filter_eqb_present in Hi. lia.
  - assert (H : 2 <= List.length (filter (String.eqb x) l))
      by (apply (IH i k); [assumption | assumption | lia]).
    simpl. destruct (String.eqb x y); simpl; lia.
Qed.

Lemma names_one_position (ls : list string) (i k : nat) (name : string) :
  names_one ls i = true -> nth_error ls i = Some name -> nth_error ls k = Some name ->
  k = i.
Proof.
  unfold names_one. intros Hone Hi Hk. rewrite Hi in Hone.
  apply Nat.eqb_eq in Hone.
  destruct (Nat.eq_dec i k) as [E | Hne]; [symmetry; exact E | exfalso].
  pose proof (filter_eqb_twice name ls i k Hi Hk Hne). lia.
Qed.

(** With distinct labels every label names one position: every cell is
    read. *)
Lemma NoDup_names_one (ls : list string) (i : nat) :
  NoDup ls -> i < List.length ls -> names_one ls i = true.
Proof.
  intros Hnd Hi. unfold names_one.
  destruct (nth_error ls i) as [name |] eqn:E;
    [| apply nth_error_None in E; lia].
  apply Nat.eqb_eq. apply nth_error_In in E. clear i Hi.
  induction Hnd as [| y l Hy Hnd IH]; [contradiction |].
  simpl. destruct (String.eqb name y) eqn:Ey.
  - apply String.eqb_eq in Ey. subst y. simpl.
    rewrite (filter_eqb_absent name l Hy). reflexivity.
  - destruct E as [-> | E]; [rewrite String.eqb_refl in Ey; discriminate |].
    apply IH. exact E.
Qed.

(** C2 (amended): the filter makes one pass over the [n * n] cells, column
    by column.  A cell one of whose labels is repeated is skipped.  At a
    cell [(row, col)] whose labels each occur once, when the value read
    exceeds the threshold, the variable whose row and column are
    overwritten is [row], and it is absent from the result.  For a
    symmetric matrix and a threshold of at least -1 that variable is not
    earlier in the order than [col]: off the diagonal it is the later
    member of the pair.  With distinct labels every cell is read.  When no
    diagonal cell of the input is -1, the result is the input restricted
    to the variables that were never marked. *)
Theorem filt_corr_eliminates_row_variable (c : Corr) (thresh : Qc) :
  square (List.length (labels c)) (cells c) ->
  List.length (scan_order (List.length (labels c)))
  = List.length (labels c) * List.length (labels c)
  /\ (forall pre post i j,
         scan_order (List.length (labels c)) = (pre ++ (i, j) :: post)%list ->
         (names_one (labels c) i && names_one (labels c) j = false ->
          scan thresh (labels c) (pre ++ [(i, j)]) (cells c)
          = scan thresh (labels c) pre (cells c))
         /\ (names_one (labels c) i && names_one (labels c) j = true ->
             gt (get (scan thresh (labels c) pre (cells c)) i j) thresh = true ->
             scan thresh (labels c) (pre ++ [(i, j)]) (cells c)
             = set_col i (set_row i (scan thresh (labels c) pre (cells c)))
             /\ In i (marked c thresh)
             /\ (forall name, nth_error (labels c) i = Some name ->
                              ~ In name (labels (filt_corr c thresh)))
             /\ (symmetric (cells c) -> (qz (-1) <= thresh)%Qc -> j <= i)))
  /\ (NoDup (labels c) ->
      forall i j, i < List.length (labels c) -> j < List.length (labels c) ->
                  names_one (labels c) i && names_one (labels c) j = true)
  /\ ((forall k, k < List.length (labels c) -> get (cells c) k k <> sentinel) ->
      filt_corr c thresh =
      let keep := map (fun k => negb (memn k (marked c thresh)))
                      (seq 0 (List.length (labels c))) in
      {| labels := select keep (labels c);
         cells := map (select keep) (select keep (cells c)) |}).
Proof.
  intro Hsq. split; [apply length_scan_order |]. split; [| split].
  - intros pre post i j Hsplit.
    destruct (scan_order_at _ pre post i j Hsplit) as (Hi & Hj & _). split.
    + intro Hskip.
      apply (marks_miss thresh (labels c) (cells c) pre i j).
      unfold exceeds. rewrite Hskip. discriminate.
    + intros Hread Hval.
      assert (Hit : exceeds thresh (labels c) (scan thresh (labels c) pre (cells c)) i j
                    = Some true).
      { apply exceeds_true. apply andb_true_iff in Hread as [H1 H2]. auto. }
      destruct (marks_hit thresh (labels c) (cells c) pre i j Hit) as [Hmarks Hstep].
      assert (Hmarked : In i (marked c thresh)).
      { unfold marked.
        fold (marks thresh (labels c) (cells c) (scan_order (List.length (labels c)))).
        rewrite Hsplit.
        replace (pre ++ (i, j) :: post)%list with ((pre ++ [(i, j)]) ++ post)%list
          by (rewrite <- app_assoc; reflexivity).
        apply marks_app. rewrite Hmarks. left. reflexivity. }
      split; [exact Hstep |]. split; [exact Hmarked |]. split.
      * intros name Hname Hin. unfold filt_corr in Hin. simpl in Hin.
        apply In_select in Hin as (k & Hk & Hp).
        assert (k = i).
        { apply andb_true_iff in Hread as [H1 _].
          eapply names_one_position; eassumption. }
        subst k. rewrite scan_is_mask in Hp.
        rewrite (picked_marked _ _ _ i Hsq Hi) in Hp; [discriminate |].
        exact Hmarked.
      * intros Hsym Hthresh. eapply hit_is_later; eassumption.
  - intros Hnd i j Hi Hj.
    rewrite !NoDup_names_one by assumption. reflexivity.
  - intro Hdiag. unfold filt_corr. rewrite scan_is_mask.
    fold (marks thresh (labels c) (cells c) (scan_order (List.length (labels c)))).
    change (marks thresh (labels c) (cells c) (scan_order (List.length (labels c))))
      with (marked c thresh).
    rewrite (picked_mask _ _ _ Hsq Hdiag). simpl.
    rewrite (select_mask _ (marked c thresh) _ Hsq). reflexivity.
Qed.

(** ** The example of three variables

    [A] and [B] correlate at 0.95, [A] and [C] at 0.2, [B] and [C] at 0.3;
    the threshold is 0.9. *)
Definition abc : Corr :=
  {| labels := ["A"; "B"; "C"];
     cells := [[Some 0%Qc; Some (qfrac 19 20); Some (qfrac 1 5)];
               [Some (qfrac 19 20); Some 0%Qc; Some (qfrac 3 10)];
               [Some (qfrac 1 5); Some (qfrac 3 10); Some 0%Qc]] |}.

Lemma abc_square : square (List.length (labels abc)) (cells abc).
Proof. split; [reflexivity | repeat constructor]. Qed.

Lemma abc_symmetric : symmetric (cells abc).
Proof.
  intros i j.
  destruct i as [| [| [| i]]]; destruct j as [| [| [| j]]]; unfold get; simpl;
    try reflexivity;
    repeat match goal with
           | |- context [match ?k with 0 => _ | S _ => _ end] =>
               is_var k; destruct k; simpl
           end;
    reflexivity.
Qed.

Lemma abc_diagonal :
  forall k, k < List.length (labels abc) -> get (cells abc) k k <> sentinel.
Proof.
  intros k Hk. apply ne_sentinel_true.
  destruct k as [| [| [| k]]]; try reflexivity. simpl in Hk. lia.
Qed.

(** The scan reaches the cell (row [B], column [A]) second, reads 0.95
    there and eliminates [B]; [A] and [C] survive. *)
Lemma abc_distinct : NoDup (labels abc).
Proof.
  repeat constructor; simpl; intuition discriminate.
Qed.

Lemma filt_corr_abc :
  gt (get (scan (qfrac 9 10) (labels abc) [(0, 0)] (cells abc)) 1 0) (qfrac 9 10) = true
  /\ marked abc (qfrac 9 10) = [1]
  /\ labels (filt_corr abc (qfrac 9 10)) = ["A"; "C"].
Proof. repeat split. Qed.

(** Two variables of the same name that correlate at 0.95: no cell is
    read, nothing is marked, and the filter returns the matrix as it
    is. *)
Definition twins : Corr :=
  {| labels := ["A"; "A"];
     cells := [[Some 0%Qc; Some (qfrac 19 20)]; [Some (qfrac 19 20); Some 0%Qc]] |}.

Lemma filt_corr_twins :
  marked twins (qfrac 9 10) = [] /\ filt_corr twins (qfrac 9 10) = twins.
Proof. split; reflexivity. Qed.

Lemma filt_corr_eliminates_row_variable_witness :
  square (List.length (labels abc)) (cells abc)
  /\ filt_corr abc (qfrac 9 10)
     = {| labels := ["A"; "C"];
          cells := [[Some 0%Qc; Some (qfrac 1 5)]; [Some (qfrac 1 5); Some 0%Qc]] |}.
Proof.
  split; [exact abc_square |].
  exact (proj2 (proj2 (proj2
                  (filt_corr_eliminates_row_variable abc (qfrac 9 10) abc_square)))
               abc_diagonal).
Defined.

(** C2 as stated fails, also for distinct labels: at the cell (row [B],
    column [A]) the value exceeds the threshold, and the variable of the
    column, [A], is kept. *)
Lemma filt_corr_keeps_column_variable :
  ~ (forall (c : Corr) (thresh : Qc) (pre post : list (nat * nat)) (i j : nat),
        square (List.length (labels c)) (cells c) ->
        symmetric (cells c) ->
        NoDup (labels c) ->
        scan_order (List.length (labels c)) = (pre ++ (i, j) :: post)%list ->
        gt (get (scan thresh (labels c) pre (cells c)) i j) thresh = true ->
        forall name, nth_error (labels c) j = Some name ->
                     ~ In name (labels (filt_corr c thresh))).
Proof.
  intro H.
  apply (H abc (qfrac 9 10) [(0, 0)]
           [(2, 0); (0, 1); (1, 1); (2, 1); (0, 2); (1, 2); (2, 2)] 1 0
           abc_square abc_symmetric abc_distinct eq_refl eq_refl "A" eq_refl).
  left. reflexivity.
Qed.

(** ** What the survivors of the filter have in common *)

(** Every position the scan marks was marked at a cell of its row whose
    value, as read then, exceeded the threshold. *)
Lemma marks_from_hit (thresh : Qc) (ls : list string) (m : matrix)
      (order : list (nat * nat)) (i : nat) :
  In i (marks thresh ls m order) ->
  exists pre j post,
    order = (pre ++ (i, j) :: post)%list
    /\ exceeds thresh ls (scan thresh ls pre m) i j = Some true.
Proof.
  induction order as [| [a b] order IH] using rev_ind; [intros [] |].
  intro Hin.
  destruct (exceeds thresh ls (scan thresh ls order m) a b) as [[|] |] eqn:Hit.
  - destruct (marks_hit thresh ls m order a b Hit) as [Hmarks _].
    rewrite Hmarks in Hin. destruct Hin as [<- | Hin].
    + exists order, b, []. split; [reflexivity | exact Hit].
    + destruct (IH Hin) as (pre & j & post & -> & Hj).
      exists pre, j, (post ++ [(a, b)])%list. split; [| exact Hj].
      rewrite <- app_assoc. reflexivity.
  - rewrite (proj1 (marks_miss thresh ls m order a b
                      ltac:(rewrite Hit; discriminate))) in Hin.
    destruct (IH Hin) as (pre & j & post & -> & Hj).
    exists pre, j, (post ++ [(a, b)])%list. split; [| exact Hj].
    rewrite <- app_assoc. reflexivity.
  - rewrite (proj1 (marks_miss thresh ls m order a b
                      ltac:(rewrite Hit; discriminate))) in Hin.
    destruct (IH Hin) as (pre & j & post & -> & Hj).
    exists pre, j, (post ++ [(a, b)])%list. split; [| exact Hj].
    rewrite <- app_assoc. reflexivity.
Qed.

Lemma scan_order_split (n i j : nat) :
  i < n -> j < n ->
  exists pre post, scan_order n = (pre ++ (i, j) :: post)%list.
Proof.
  intros Hi Hj.
  pose proof (nth_error_columns_from n 0 n j i Hj Hi) as Hat.
  change (columns_from n 0 n) with (scan_order n) in Hat.
  apply nth_error_split in Hat as (pre & post & -> & _). eauto.
Qed.

Lemma marks_of_prefix (thresh : Qc) (ls : list string) (m : matrix)
      (pre post : list (nat * nat)) (x : nat * nat) (k : nat) :
  In k (marks thresh ls m pre) -> In k (marks thresh ls m (pre ++ x :: post)).
Proof. apply marks_app. Qed.

(** Two positions that are never marked and whose labels each occur once:
    the value between them does not exceed the threshold. *)
Lemma unmarked_pair (c : Corr) (thresh : Qc) (i j : nat) :
  i < List.length (labels c) -> j < List.length (labels c) ->
  names_one (labels c) i = true -> names_one (labels c) j = true ->
  ~ In i (marked c thresh) -> ~ In j (marked c thresh) ->
  gt (get (cells c) i j) thresh = false.
Proof.
  intros Hi Hj Hone_i Hone_j Hni Hnj.
  destruct (scan_order_split _ i j Hi Hj) as (pre & post & Hsplit).
  unfold marked in Hni, Hnj.
  fold (marks thresh (labels c) (cells c) (scan_order (List.length (labels c))))
    in Hni, Hnj.
  rewrite Hsplit in Hni, Hnj.
  assert (Hi' : ~ In i (marks thresh (labels c) (cells c) pre))
    by (intro H; apply Hni, marks_of_prefix, H).
  assert (Hj' : ~ In j (marks thresh (labels c) (cells c) pre))
    by (intro H; apply Hnj, marks_of_prefix, H).
  destruct (gt (get (cells c) i j) thresh) eqn:Hval; [exfalso | reflexivity].
  assert (Hit : exceeds thresh (labels c) (scan thresh (labels c) pre (cells c)) i j
                = Some true).
  { apply exceeds_true. split; [exact Hone_i |]. split; [exact Hone_j |].
    rewrite scan_is_mask, get_mask_untouched by (apply memn_false; assumption).
    exact Hval. }
  apply marks_hit in Hit as [Hmarks _]. apply Hni.
  replace (pre ++ (i, j) :: post)%list with ((pre ++ [(i, j)]) ++ post)%list
    by (rewrite <- app_assoc; reflexivity).
  apply marks_app. rewrite Hmarks. left. reflexivity.
Qed.

Lemma picked_is_unmarked (n : nat) (gone : list nat) (m : matrix) (k : nat) :
  square n m -> nth_error (picked n (mask gone m)) k = Some true ->
  k < n /\ ~ In k gone.
Proof.
  intros Hsq Hk.
  assert (Hlt : k < n).
  { assert (H : nth_error (picked n (mask gone m)) k <> None) by congruence.
    apply nth_error_Some in H. unfold picked in H.
    rewrite length_map, length_seq in H. exact H. }
  split; [exact Hlt |]. intro Hin.
  rewrite (picked_marked n gone m k Hsq Hlt Hin) in Hk. discriminate.
Qed.

(** X1: The filter does what it is for when the labels are distinct: in the
    matrix it returns no value exceeds the threshold, and no two variables
    it keeps have a value between them above the threshold in the input.
    With repeated labels the same holds between any two kept variables
    whose labels each occur once. *)
Theorem filt_corr_result_within_threshold (c : Corr) (thresh : Qc) :
  square (List.length (labels c)) (cells c) ->
  (forall i j, i < List.length (labels c) -> j < List.length (labels c) ->
               names_one (labels c) i = true -> names_one (labels c) j = true ->
               ~ In i (marked c thresh) -> ~ In j (marked c thresh) ->
               gt (get (cells c) i j) thresh = false)
  /\ (NoDup (labels c) ->
      (forall i j, i < List.length (labels c) -> j < List.length (labels c) ->
                   ~ In i (marked c thresh) -> ~ In j (marked c thresh) ->
                   gt (get (cells c) i j) thresh = false)
      /\ (forall row x, In row (cells (filt_corr c thresh)) -> In x row ->
                        gt x thresh = false)).
Proof.
  intro Hsq. split; [intros i j; apply unmarked_pair |].
  intro Hnd.
  assert (Hpair : forall i j,
             i < List.length (labels c) -> j < List.length (labels c) ->
             ~ In i (marked c thresh) -> ~ In j (marked c thresh) ->
             gt (get (cells c) i j) thresh = false).
  { intros i j Hi Hj. apply unmarked_pair; try assumption;
      apply NoDup_names_one; assumption. }
  split; [exact Hpair |].
  intros row x Hrow Hx. unfold filt_corr in Hrow. simpl in Hrow.
  rewrite scan_is_mask in Hrow.
  change (marks thresh (labels c) (cells c) (scan_order (List.length (labels c))))
    with (marked c thresh) in Hrow.
  apply in_map_iff in Hrow as (row' & <- & Hrow').
  apply In_select in Hrow' as (r & Hr & Hpr).
  apply In_select in Hx as (k & Hk & Hpk).
  destruct (picked_is_unmarked _ _ _ r Hsq Hpr) as [Hrn Hrm].
  destruct (picked_is_unmarked _ _ _ k Hsq Hpk) as [Hkn Hkm].
  assert (E : get (mask (marked c thresh) (cells c)) r k = x).
  { unfold get. rewrite (nth_error_nth _ r), Hr, (nth_error_nth _ k), Hk. reflexivity. }
  rewrite get_mask_untouched in E by (apply memn_false; assumption).
  rewrite <- E. apply Hpair; assumption.
Qed.

Lemma filt_corr_result_within_threshold_witness :
  square (List.length (labels abc)) (cells abc)
  /\ NoDup (labels abc)
  /\ Forall (Forall (fun x => gt x (qfrac 9 10) = false))
            (cells (filt_corr abc (qfrac 9 10))).
Proof.
  split; [exact abc_square |]. split; [exact abc_distinct |].
  apply Forall_forall. intros row Hrow. apply Forall_forall. intros x Hx.
  exact (proj2 (proj2 (filt_corr_result_within_threshold abc (qfrac 9 10) abc_square)
                      abc_distinct)
               row x Hrow Hx).
Defined.

Lemma split_before {A : Type} (a b a' b' : list A) (x x' : A) :
  (a ++ x :: b)%list = (a' ++ x' :: b')%list -> List.length a' < List.length a ->
  exists rest, a = (a' ++ x' :: rest)%list.
Proof.
  revert a. induction a' as [| z a' IH]; intros [| y a] Heq Hlen; simpl in *; try lia.
  - injection Heq as -> _. exists a. reflexivity.
  - injection Heq as -> Heq. destruct (IH a Heq) as (rest & ->); [lia |].
    exists rest. reflexivity.
Qed.

(** X2: For a symmetric matrix, a threshold of at least -1 and a diagonal that
    does not exceed the threshold, every variable the filter eliminates has
    a value above the threshold with a variable that comes before it in the
    order and is kept. *)
Theorem filt_corr_eliminated_has_kept_partner (c : Corr) (thresh : Qc) (i : nat) :
  symmetric (cells c) ->
  (qz (-1) <= thresh)%Qc ->
  (forall k, gt (get (cells c) k k) thresh = false) ->
  In i (marked c thresh) ->
  exists j, j < i /\ i < List.length (labels c)
            /\ ~ In j (marked c thresh)
            /\ gt (get (cells c) i j) thresh = true.
Proof.
  intros Hsym Hthresh Hdiag Hin. unfold marked in *.
  fold (marks thresh (labels c) (cells c) (scan_order (List.length (labels c)))) in *.
  set (n := List.length (labels c)) in *.
  set (ls := labels c) in *.
  destruct (marks_from_hit _ _ _ _ _ Hin) as (pre & j & post & Hsplit & Hit).
  destruct (hit_is_untouched thresh ls (cells c) pre i j Hthresh Hit)
    as (Hi & Hj & Hval).
  pose proof (hit_is_later n thresh ls (cells c) pre post i j Hsym Hthresh Hsplit Hit)
    as Hle.
  destruct (scan_order_at n pre post i j Hsplit) as (Hin' & Hjn & Hlen).
  assert (Hne : j <> i) by (intros ->; rewrite Hdiag in Hval; discriminate).
  exists j. repeat split; [lia | exact Hin' | | exact Hval].
  intro Hjm.
  destruct (marks_from_hit _ _ _ _ _ Hjm) as (pre' & k & post' & Hsplit' & Hit').
  destruct (hit_is_untouched thresh ls (cells c) pre' j k Hthresh Hit')
    as (_ & _ & Hval').
  pose proof (hit_is_later n thresh ls (cells c) pre' post' j k Hsym Hthresh Hsplit' Hit')
    as Hle'.
  destruct (scan_order_at n pre' post' j k Hsplit') as (_ & Hkn & Hlen').
  assert (Hne' : k <> j) by (intros ->; rewrite Hdiag in Hval'; discriminate).
  destruct (split_before pre post pre' post' (i, j) (j, k)) as (rest & Hpre).
  - rewrite <- Hsplit, <- Hsplit'. reflexivity.
  - rewrite Hlen, Hlen'. nia.
  - apply Hj. rewrite Hpre.
    replace (pre' ++ (j, k) :: rest)%list with ((pre' ++ [(j, k)]) ++ rest)%list
      by (rewrite <- app_assoc; reflexivity).
    apply marks_app.
    destruct (marks_hit thresh ls (cells c) pre' j k Hit') as [-> _]. left. reflexivity.
Qed.

Lemma filt_corr_eliminated_has_kept_partner_witness :
  exists j, j < 1 /\ 1 < List.length (labels abc)
            /\ ~ In j (marked abc (qfrac 9 10))
            /\ gt (get (cells abc) 1 j) (qfrac 9 10) = true.
Proof.
  apply (filt_corr_eliminated_has_kept_partner abc (qfrac 9 10) 1).
  - exact abc_symmetric.
  - apply Qcltb_false. reflexivity.
  - intro k. destruct k as [| [| [| k]]]; try reflexivity.
    unfold get. simpl. destruct k; reflexivity.
  - simpl. left. reflexivity.
Defined.

(** ** Shape of the result *)

Lemma sublist_In {A : Type} (l1 l2 : list A) (x : A) :
  sublist l1 l2 -> In x l1 -> In x l2.
Proof.
  induction 1 as [| y l1 l2 _ IH | y l1 l2 _ IH]; intro H.
  - exact H.
  - destruct H as [-> | H]; [left; reflexivity | right; apply IH; exact H].
  - right. apply IH. exact H.
Qed.

Lemma select_sublist {A : Type} (p : list bool) (l : list A) : sublist (select p l) l.
Proof.
  revert p. induction l as [| x l IH]; intros [| b p].
  - constructor.
  - constructor.
  - unfold select. simpl. constructor. apply (IH []).
  - rewrite select_cons. destruct b; constructor; apply IH.
Qed.

Lemma length_select {A : Type} (p : list bool) (l : list A) :
  List.length p = List.length l ->
  List.length (select p l) = List.length (filter (fun b => b) p).
Proof.
  revert p. induction l as [| x l IH]; intros [| b p] H; simpl in H; try lia;
    [reflexivity |].
  rewrite select_cons. simpl. destruct b; simpl; rewrite IH by lia; reflexivity.
Qed.

Lemma length_picked (n : nat) (m : matrix) : List.length (picked n m) = n.
Proof. unfold picked. rewrite length_map, length_seq. reflexivity. Qed.

Lemma mask_square (n : nat) (gone : list nat) (m : matrix) :
  square n m -> square n (mask gone m).
Proof.
  intros [Hlen Hrows]. split; [rewrite length_mask; exact Hlen |].
  unfold mask, mapi. rewrite Forall_forall in *. intros row Hrow.
  apply In_nth_error in Hrow as (k & Hk).
  rewrite nth_error_mapi_from in Hk.
  destruct (nth_error m k) as [row0 |] eqn:E; simpl in Hk; [| discriminate].
  injection Hk as <-. rewrite length_mapi_from. apply Hrows.
  eapply nth_error_In. exact E.
Qed.

(** X3: The filter returns a square matrix over a selection of the labels, in
    their order: as many rows, and cells in each row, as labels. *)
Theorem filt_corr_result_square (c : Corr) (thresh : Qc) :
  square (List.length (labels c)) (cells c) ->
  sublist (labels (filt_corr c thresh)) (labels c)
  /\ square (List.length (labels (filt_corr c thresh))) (cells (filt_corr c thresh)).
Proof.
  intro Hsq. unfold filt_corr. simpl. split; [apply select_sublist |].
  set (n := List.length (labels c)) in *.
  rewrite scan_is_mask.
  set (m' := mask _ (cells c)).
  assert (Hsq' : square n m') by (apply mask_square; exact Hsq).
  set (p := picked n m').
  assert (Hp : List.length p = n) by apply length_picked.
  destruct Hsq' as [Hlen' Hrows'].
  rewrite (length_select p (labels c)) by (rewrite Hp; reflexivity).
  split.
  - rewrite length_map. apply length_select. rewrite Hp, Hlen'. reflexivity.
  - rewrite Forall_forall in *. intros row Hrow.
    apply in_map_iff in Hrow as (row' & <- & Hrow').
    apply length_select. rewrite Hp. symmetry. apply Hrows'.
    eapply sublist_In; [apply select_sublist | exact Hrow'].
Qed.

Lemma filt_corr_result_square_witness :
  sublist (labels (filt_corr abc (qfrac 9 10))) (labels abc)
  /\ square (List.length (labels (filt_corr abc (qfrac 9 10))))
            (cells (filt_corr abc (qfrac 9 10))).
Proof. exact (filt_corr_result_square abc (qfrac 9 10) abc_square). Defined.

(** ** A matrix with nothing above the threshold *)

Lemma scan_marking_no_hit (thresh : Qc) (ls : list string) (m : matrix)
      (order : list (nat * nat)) :
  (forall i j, In (i, j) order -> gt (get m i j) thresh = false) ->
  scan_marking thresh ls order m = (m, []).
Proof.
  unfold scan_marking. induction order as [| [i j] order IH]; intro H; [reflexivity |].
  simpl. unfold visit_marking at 2, exceeds. simpl.
  rewrite (H i j (or_introl eq_refl)).
  destruct (names_one ls i && names_one ls j); apply IH;
    intros a b Hab; apply H; right; exact Hab.
Qed.

Lemma select_all {A : Type} (n : nat) (s : nat) (l : list A) :
  List.length l = n -> select (map (fun _ => true) (seq s n)) l = l.
Proof.
  revert s l. induction n as [| n IH]; intros s [| x l] H; simpl in H; try lia;
    [reflexivity |].
  simpl. rewrite select_cons, IH by lia. reflexivity.
Qed.

(** X4: When no cell of a square matrix exceeds the threshold and no diagonal
    cell is -1, the filter returns the matrix as it is. *)
Theorem filt_corr_nothing_to_remove (c : Corr) (thresh : Qc) :
  square (List.length (labels c)) (cells c) ->
  (forall i j, i < List.length (labels c) -> j < List.length (labels c) ->
               gt (get (cells c) i j) thresh = false) ->
  (forall k, k < List.length (labels c) -> get (cells c) k k <> sentinel) ->
  filt_corr c thresh = c /\ marked c thresh = [].
Proof.
  intros Hsq Hnone Hdiag.
  assert (Hscan : scan_marking thresh (labels c) (scan_order (List.length (labels c)))
                               (cells c)
                  = (cells c, [])).
  { apply scan_marking_no_hit. intros i j Hin.
    apply in_split in Hin as (pre & post & Hsplit).
    destruct (scan_order_at _ pre post i j Hsplit) as (Hi & Hj & _).
    apply Hnone; assumption. }
  assert (Hmarked : marked c thresh = []) by (unfold marked; rewrite Hscan; reflexivity).
  split; [| exact Hmarked].
  unfold filt_corr. rewrite scan_is_mask.
  change (marks thresh (labels c) (cells c) (scan_order (List.length (labels c))))
    with (marked c thresh).
  rewrite Hmarked, (picked_mask _ [] _ Hsq Hdiag). simpl.
  rewrite mask_nil. destruct Hsq as [Hlen Hrows].
  rewrite (select_all _ 0 (labels c)) by reflexivity.
  rewrite (select_all _ 0 (cells c)) by exact Hlen.
  replace (map (select (map (fun _ => true) (seq 0 (List.length (labels c))))) (cells c))
    with (cells c).
  - destruct c. reflexivity.
  - rewrite <- (map_id (cells c)) at 1. apply map_ext_in. intros row Hrow.
    symmetry. apply select_all. rewrite Forall_forall in Hrows. apply Hrows, Hrow.
Qed.

Lemma filt_corr_nothing_to_remove_witness :
  filt_corr abc (qfrac 19 20) = abc /\ marked abc (qfrac 19 20) = [].
Proof.
  apply filt_corr_nothing_to_remove.
  - exact abc_square.
  - intros i j Hi Hj. simpl in Hi, Hj.
    destruct i as [| [| [| i]]]; try lia; destruct j as [| [| [| j]]]; try lia;
      reflexivity.
  - exact abc_diagonal.
Defined.

(** ** The cells [gen_corr] returns *)

Lemma Qcopp_0 : (- 0)%Qc = 0%Qc.
Proof. ring. Qed.

Lemma transform_nonnegative (x : cell) :
  match transform x with
  | Some q => (0 <= q)%Qc
  | None => x = None
  end.
Proof.
  destruct x as [q |]; simpl; [| reflexivity].
  destruct (Qceqb q 1%Qc); [apply Qcle_refl |].
  destruct (Qcltb q 0%Qc) eqn:E.
  - apply Qcltb_true in E. apply Qclt_le_weak in E.
    apply Qcopp_le_compat in E. rewrite Qcopp_0 in E. exact E.
  - apply Qcltb_false in E. exact E.
Qed.

Lemma Qc_0_le_1' : (0 <= 1)%Qc.
Proof. apply Qcltb_false. reflexivity. Qed.

Lemma transform_within_one (q : Qc) :
  (qz (-1) <= q)%Qc -> (q <= 1)%Qc ->
  exists q', transform (Some q) = Some q' /\ (q' <= 1)%Qc.
Proof.
  intros Hlo Hhi. simpl.
  destruct (Qceqb q 1%Qc); [exists 0%Qc; split; [reflexivity | exact Qc_0_le_1'] |].
  destruct (Qcltb q 0%Qc).
  - exists (- q)%Qc. split; [reflexivity |].
    apply Qcopp_le_compat in Hlo.
    replace (- qz (-1))%Qc with 1%Qc in Hlo by (apply Qc_is_canon; reflexivity).
    exact Hlo.
  - exists q. split; [reflexivity | exact Hhi].
Qed.

(** X5: No cell of the matrix [gen_corr] returns is negative or equal to -1,
    the value [filt_corr] uses as its mark; a correlation of exactly 1 or 0
    becomes 0, any other one its absolute value; correlations between -1
    and 1 give cells between 0 and 1. *)
Theorem gen_corr_cells (corr : Frame -> Corr) (df : Frame) (row : list cell) (x : cell) :
  In row (cells (gen_corr corr df)) -> In x row ->
  x <> sentinel
  /\ (forall q, x = Some q -> (0 <= q)%Qc)
  /\ exists row0 x0,
       In row0 (cells (corr (drop_sentinel_rows df))) /\ In x0 row0 /\
       x = transform x0 /\
       (x = Some 0%Qc <-> x0 = Some 0%Qc \/ x0 = Some 1%Qc) /\
       (forall q0, x0 = Some q0 -> (qz (-1) <= q0)%Qc -> (q0 <= 1)%Qc ->
                   exists q, x = Some q /\ (q <= 1)%Qc).
Proof.
  intros Hrow Hx. unfold gen_corr, applymap in Hrow. simpl in Hrow.
  apply in_map_iff in Hrow as (row0 & <- & Hrow0).
  apply in_map_iff in Hx as (x0 & <- & Hx0).
  pose proof (transform_nonnegative x0) as Hnn.
  split; [| split].
  - intro E. rewrite E in Hnn. simpl in Hnn.
    apply (Qcle_not_lt _ _ Hnn). apply Qcltb_true. reflexivity.
  - intros q E. rewrite E in Hnn. exact Hnn.
  - exists row0, x0. repeat split; try assumption.
    + destruct x0 as [q0 |]; simpl; [| discriminate].
      destruct (Qceqb q0 1%Qc) eqn:E1; [apply Qceqb_true in E1; subst; auto |].
      destruct (Qcltb q0 0%Qc) eqn:E0; intro H.
      * exfalso. apply Qcltb_true in E0.
        assert (K : (- q0)%Qc = 0%Qc) by congruence.
        assert (K' : q0 = 0%Qc).
        { rewrite <- (Qcopp_involutive q0), K. ring. }
        exact (Qclt_not_eq _ _ E0 K').
      * left. exact H.
    + intros [-> | ->]; reflexivity.
    + intros q0 -> Hlo Hhi. apply transform_within_one; assumption.
Qed.

Definition opposite_pair : Frame -> Corr :=
  fun _ => {| labels := ["A"; "B"];
              cells := [[Some 1%Qc; Some (qz (-1))]; [Some (qz (-1)); Some 1%Qc]] |}.

Lemma gen_corr_cells_witness :
  transform (Some (qz (-1))) <> sentinel
  /\ (forall q, transform (Some (qz (-1))) = Some q -> (0 <= q)%Qc).
Proof.
  destruct (gen_corr_cells opposite_pair {| columns := ["A"; "B"]; data := [] |}
                           (map transform [Some 1%Qc; Some (qz (-1))])
                           (transform (Some (qz (-1))))) as (H1 & H2 & _).
  - left. reflexivity.
  - right. left. reflexivity.
  - split; assumption.
Defined.

End DataFilterFacts.
